(** * A passkey (WebAuthn) relying party: the Express server of [server.js]

    The development embeds the six route handlers of [server.js] as pure
    functions over an explicit server state (the two [LRUCache] instances
    [userCache] and [challengeCache]).  What the handlers obtain from outside
    the process is made an explicit input:

    - the clock ([now], in milliseconds), read once per request;
    - [crypto.randomUUID()] and the challenge drawn by
      [generateRegistrationOptions] / [generateAuthenticationOptions];
    - the two ceremony verifiers of [@simplewebauthn/server], which are
      variables of the section holding the handlers;
    - the [username] cookie presented by the browser.

    The four ceremony handlers are [async].  The first part ([handle]) takes
    a request as served alone: nothing else is served between the [await]
    of its handler and the handler's resumption.  The part [InFlight] splits
    each handler at its [await] and lets requests arrive and awaited calls
    return in any order; [serve_agrees] shows that a request which arrives
    and resumes with nothing in between is the request of the first part.
    Usernames, user ids, credential ids and challenges are strings; a
    request field that is absent ([undefined]) is [None]. *)

From Stdlib Require Import List Ascii String ZArith Bool Lia.
Import ListNotations.

Local Open Scope string_scope.
Local Open Scope Z_scope.

(** ** The [lru-cache] package, as far as [server.js] uses it

    Entries are kept most recently used first.  Both caches are created with
    [max] and [ttl] only, so: an entry is stale once [now - start > ttl];
    [get] refreshes recency but not age, and drops a stale entry it meets;
    [has] changes nothing; [set] restarts the age of the entry, makes it the
    most recent one, and evicts the least recently used entry when a new key
    would exceed [max]. *)
Module LRU.

Section Cache.

Context {V : Type}.

Record entry : Type := Entry { key : string; value : V; start : Z }.

Record t : Type := Cache { max : nat; ttl : Z; items : list entry }.

Definition with_items (c : t) (l : list entry) : t :=
  {| max := max c; ttl := ttl c; items := l |}.

Definition is_key (k : string) (e : entry) : bool := String.eqb (key e) k.

Definition peek (k : string) (c : t) : option entry :=
  find (is_key k) (items c).

Definition remove (k : string) (l : list entry) : list entry :=
  filter (fun e => negb (is_key k e)) l.

Definition isStale (now : Z) (c : t) (e : entry) : bool :=
  ttl c <? now - start e.

Definition delete (k : string) (c : t) : t :=
  with_items c (remove k (items c)).

Definition get (now : Z) (k : string) (c : t) : option V * t :=
  match peek k c with
  | None => (None, c)
  | Some e =>
      if isStale now c e then (None, delete k c)
      else (Some (value e), with_items c (e :: remove k (items c)))
  end.

Definition has (now : Z) (k : string) (c : t) : bool :=
  match peek k c with
  | None => false
  | Some e => negb (isStale now c e)
  end.

Definition set (now : Z) (k : string) (v : V) (c : t) : t :=
  with_items c
    ({| key := k; value := v; start := now |}
       :: firstn (Nat.pred (max c)) (remove k (items c))).

Definition keys (c : t) : list string := map key (items c).

End Cache.

Arguments entry : clear implicits.
Arguments t : clear implicits.

End LRU.

(** ** Data model *)

(** A stored device, as pushed onto [user.devices] by [/register/verify]. *)
Record Authenticator : Type := {
  credentialPublicKey : list Byte.byte;
  credentialID : string;
  counter : Z;
  transports : option (list string)
}.

(** [{ id, username, devices }], as built by [createUser]. *)
Record User : Type := {
  id : string;
  username : string;
  devices : list Authenticator
}.

(** The [credential] object exchanged with the verifiers:
    [registrationInfo.credential] on registration, the [credential] argument
    on authentication. *)
Record WebAuthnCredential : Type := {
  cred_id : string;
  cred_publicKey : list Byte.byte;
  cred_counter : Z;
  cred_transports : option (list string)
}.

(** The [response] field of the request body.  The server itself reads only
    [response.id] and [response.response.transports]; everything else
    (client data, attestation or assertion, signature) is [resp_payload],
    which only the verifier inspects.  Request bodies whose [response] is
    not an object of this shape are not modelled. *)
Record ClientResponse : Type := {
  resp_id : string;
  resp_transports : option (list string);
  resp_payload : string
}.

(** What a verifier call does: throw an [Error] with a message, or return. *)
Inductive outcome (A : Type) : Type :=
| Throws (message : string)
| Returns (result : A).
Arguments Throws {A} message.
Arguments Returns {A} result.

Record VerifiedRegistrationResponse : Type := {
  reg_verified : bool;
  registrationInfo : option WebAuthnCredential
}.

(** [{ verified, authenticationInfo: { newCounter } }]. *)
Record VerifiedAuthenticationResponse : Type := {
  auth_verified : bool;
  newCounter : Z
}.

(** Options objects sent back by the two [*/options] routes. *)
Record AuthenticatorSelection : Type := {
  residentKey : string;
  userVerification : string;
  authenticatorAttachment : string
}.

Record RegistrationOptions : Type := {
  reg_challenge : string;
  reg_rpName : string;
  reg_rpID : string;
  reg_userID : string;
  reg_userName : string;
  attestationType : string;
  authenticatorSelection : AuthenticatorSelection
}.

Record AllowCredential : Type := {
  allow_id : string;
  allow_type : string;
  allow_transports : option (list string)
}.

Record AuthenticationOptions : Type := {
  auth_challenge : string;
  auth_rpID : string;
  allowCredentials : list AllowCredential;
  auth_userVerification : string
}.

(** HTTP responses: status, JSON body, and what happens to the [username]
    cookie. *)
Inductive Json : Type :=
| ErrorBody (error : string)
| VerifiedBody (verified : bool)
| RegistrationOptionsBody (options : RegistrationOptions)
| AuthenticationOptionsBody (options : AuthenticationOptions)
| SuccessBody
| MeBody (loggedIn : bool) (name : option string).

Inductive CookieOp : Type :=
| CookieUntouched
| CookieSet (name : string)
| CookieClear.

Record Response : Type := {
  status : Z;
  body : Json;
  cookie : CookieOp
}.

Definition json (b : Json) : Response :=
  {| status := 200; body := b; cookie := CookieUntouched |}.

Definition status400 (b : Json) : Response :=
  {| status := 400; body := b; cookie := CookieUntouched |}.

(** The browser's [username] cookie after a response:
    [res.cookie('username', v)] stores [v], [res.clearCookie('username')]
    removes it.  What [req.cookies.username] is for a stored value is
    [req_cookies_username] below. *)
Definition apply_cookie (op : CookieOp) (jar : option string) : option string :=
  match op with
  | CookieUntouched => jar
  | CookieSet name => Some name
  | CookieClear => None
  end.

(** Server state: the two module-level caches. *)
Record State : Type := {
  userCache : LRU.t User;
  challengeCache : LRU.t string
}.

Definition initial : State :=
  {| userCache := {| LRU.max := 100; LRU.ttl := 1000 * 60 * 60 * 24; LRU.items := [] |};
     challengeCache := {| LRU.max := 1000; LRU.ttl := 1000 * 60 * 5; LRU.items := [] |} |}.

(** What one request draws from the environment. *)
Record Env : Type := {
  now : Z;
  randomUUID : string;
  freshChallenge : string
}.

(** JavaScript truthiness of a string-or-undefined value. *)
Definition truthy (s : option string) : bool :=
  match s with
  | None => false
  | Some s => negb (String.eqb s "")
  end.

(** [Buffer.from(str)]: the bytes of a string (a string here is a sequence
    of bytes; the ids encoded are UUIDs). *)
Definition Buffer_from (str : string) : list N :=
  map Ascii.N_of_ascii (list_ascii_of_string str).

(** The base64url alphabet, and the character of a six-bit value. *)
Definition base64url_alphabet : string :=
  "ABCDEFGHIJKLMNOPQRSTUVWXYZabcdefghijklmnopqrstuvwxyz0123456789-_".

Definition base64url_char (n : N) : Ascii.ascii :=
  match String.get (N.to_nat n) base64url_alphabet with
  | Some c => c
  | None => "A"%char
  end.

(** [isoBase64URL.fromBuffer] of [@simplewebauthn/server]: base64url
    without padding, three bytes to four characters. *)
Fixpoint isoBase64URL_fromBuffer (bytes : list N) : string :=
  match bytes with
  | [] => EmptyString
  | [a] =>
      String (base64url_char (a / 4))
        (String (base64url_char ((a mod 4) * 16)) EmptyString)
  | [a; b] =>
      String (base64url_char (a / 4))
        (String (base64url_char ((a mod 4) * 16 + b / 16))
           (String (base64url_char ((b mod 16) * 4)) EmptyString))
  | a :: b :: c :: rest =>
      String (base64url_char (a / 4))
        (String (base64url_char ((a mod 4) * 16 + b / 16))
           (String (base64url_char ((b mod 16) * 4 + c / 64))
              (String (base64url_char (c mod 64))
                 (isoBase64URL_fromBuffer rest))))
  end%N.

Definition rpName : string := "Passkey Demo".

Definition getUserByUsername (now : Z) (name : option string) (c : LRU.t User)
  : option User * LRU.t User :=
  match name with
  | None => (None, c)
  | Some u => LRU.get now u c
  end.

Definition createUser (e : Env) (name : string) (c : LRU.t User)
  : User * LRU.t User :=
  let user := {| id := randomUUID e; username := name; devices := [] |} in
  (user, LRU.set (now e) name user c).

Definition has_credentialID (cid : string) (d : Authenticator) : bool :=
  String.eqb (credentialID d) cid.

(** [device = user.devices.find(...); device.counter = n]: the first matching
    element of the array is updated in place. *)
Fixpoint set_counter (cid : string) (n : Z) (l : list Authenticator)
  : list Authenticator :=
  match l with
  | [] => []
  | d :: l' =>
      if has_credentialID cid d then
        {| credentialPublicKey := credentialPublicKey d;
           credentialID := credentialID d;
           counter := n;
           transports := transports d |} :: l'
      else d :: set_counter cid n l'
  end.

Definition credential_of (d : Authenticator) : WebAuthnCredential :=
  {| cred_id := credentialID d;
     cred_publicKey := credentialPublicKey d;
     cred_counter := counter d;
     cred_transports := transports d |}.

Definition allow_of (d : Authenticator) : AllowCredential :=
  {| allow_id := credentialID d;
     allow_type := "public-key";
     allow_transports := transports d |}.

Definition with_devices (u : User) (l : list Authenticator) : User :=
  {| id := id u; username := username u; devices := l |}.

Section Server.

(** [RP_ID] and [EXPECTED_ORIGIN] of the process environment. *)
Variables rpID origin : string.

(** [verifyRegistrationResponse({response, expectedChallenge,
    expectedOrigin, expectedRPID})]. *)
Variable verifyRegistrationResponse :
  ClientResponse -> string -> string -> string ->
  outcome VerifiedRegistrationResponse.

(** [verifyAuthenticationResponse({response, expectedChallenge,
    expectedOrigin, expectedRPID, credential})]. *)
Variable verifyAuthenticationResponse :
  ClientResponse -> string -> string -> string -> WebAuthnCredential ->
  outcome VerifiedAuthenticationResponse.

(** [generateRegistrationOptions] and [generateAuthenticationOptions] of
    [@simplewebauthn/server], called with the arguments [server.js] gives
    them; of the options object, the fields that depend on those arguments
    and the challenge.  [user.id] of the options is the base64url encoding
    of the [userID] bytes. *)
Definition generateRegistrationOptions (e : Env) (user : User)
  : RegistrationOptions :=
  {| reg_challenge := freshChallenge e;
     reg_rpName := rpName;
     reg_rpID := rpID;
     reg_userID := isoBase64URL_fromBuffer (Buffer_from (id user));
     reg_userName := username user;
     attestationType := "none";
     authenticatorSelection :=
       {| residentKey := "preferred";
          userVerification := "preferred";
          authenticatorAttachment := "platform" |} |}.

Definition generateAuthenticationOptions (e : Env) (user : User)
  : AuthenticationOptions :=
  {| auth_challenge := freshChallenge e;
     auth_rpID := rpID;
     allowCredentials := map allow_of (devices user);
     auth_userVerification := "preferred" |}.

(** [POST /register/options], served alone. *)
Definition register_options (e : Env) (name : option string) (st : State)
  : State * Response :=
  match name with
  | Some u =>
      if truthy name then
        let '(user, uc) :=
          match getUserByUsername (now e) name (userCache st) with
          | (Some user, uc) => (user, uc)
          | (None, uc) => createUser e u uc
          end in
        let options := generateRegistrationOptions e user in
        ({| userCache := uc;
            challengeCache :=
              LRU.set (now e) (id user) (reg_challenge options)
                (challengeCache st) |},
         json (RegistrationOptionsBody options))
      else (st, status400 (ErrorBody "Username is required"))
  | None => (st, status400 (ErrorBody "Username is required"))
  end.

(** [POST /register/verify], served alone: the verifier's result is there
    before any other request is served.  [InFlight.register_verify_arrives]
    and [InFlight.completes] are the two halves. *)
Definition register_verify (e : Env) (name : option string)
    (response : ClientResponse) (st : State) : State * Response :=
  match name, getUserByUsername (now e) name (userCache st) with
  | Some u, (Some user, uc) =>
      let '(found, cc) := LRU.get (now e) (id user) (challengeCache st) in
      let st1 := {| userCache := uc; challengeCache := cc |} in
      if truthy found then
        match found with
        | Some expectedChallenge =>
            match verifyRegistrationResponse response expectedChallenge
                    origin rpID with
            | Throws message => (st1, status400 (ErrorBody message))
            | Returns verification =>
                match reg_verified verification,
                      registrationInfo verification with
                | true, Some credential =>
                    let newDevice :=
                      {| credentialPublicKey := cred_publicKey credential;
                         credentialID := cred_id credential;
                         counter := cred_counter credential;
                         transports := resp_transports response |} in
                    let user' :=
                      with_devices user (devices user ++ [newDevice]) in
                    ({| userCache := LRU.set (now e) u user' uc;
                        challengeCache := LRU.delete (id user) cc |},
                     json (VerifiedBody true))
                | _, _ => (st1, status400 (VerifiedBody false))
                end
            end
        | None => (st1, status400 (ErrorBody "Challenge expired or not found"))
        end
      else (st1, status400 (ErrorBody "Challenge expired or not found"))
  | _, (_, uc) =>
      ({| userCache := uc; challengeCache := challengeCache st |},
       status400 (ErrorBody "User not found"))
  end.

(** [POST /login/options], served alone. *)
Definition login_options (e : Env) (name : option string) (st : State)
  : State * Response :=
  match getUserByUsername (now e) name (userCache st) with
  | (Some user, uc) =>
      let options := generateAuthenticationOptions e user in
      ({| userCache := uc;
          challengeCache :=
            LRU.set (now e) (id user) (auth_challenge options)
              (challengeCache st) |},
       json (AuthenticationOptionsBody options))
  | (None, uc) =>
      ({| userCache := uc; challengeCache := challengeCache st |},
       status400 (ErrorBody "User not found"))
  end.

(** [POST /login/verify], served alone: the verifier's result is there
    before any other request is served, so the device found before the
    [await] is the one found after it.  [InFlight.login_verify_arrives] and
    [InFlight.completes] are the two halves. *)
Definition login_verify (e : Env) (name : option string)
    (response : ClientResponse) (st : State) : State * Response :=
  match name, getUserByUsername (now e) name (userCache st) with
  | Some u, (Some user, uc) =>
      let '(found, cc) := LRU.get (now e) (id user) (challengeCache st) in
      let st1 := {| userCache := uc; challengeCache := cc |} in
      if truthy found then
        match found with
        | Some expectedChallenge =>
            match
              match find (has_credentialID (resp_id response)) (devices user) with
              | None => Throws "Authenticator not found for this user"
              | Some device =>
                  verifyAuthenticationResponse response expectedChallenge
                    origin rpID (credential_of device)
              end
            with
            | Throws message => (st1, status400 (ErrorBody message))
            | Returns verification =>
                if auth_verified verification then
                  let user' :=
                    with_devices user
                      (set_counter (resp_id response)
                         (newCounter verification) (devices user)) in
                  ({| userCache := LRU.set (now e) u user' uc;
                      challengeCache := LRU.delete (id user) cc |},
                   {| status := 200;
                      body := VerifiedBody true;
                      cookie := CookieSet u |})
                else (st1, status400 (VerifiedBody false))
            end
        | None => (st1, status400 (ErrorBody "Challenge expired or not found"))
        end
      else (st1, status400 (ErrorBody "Challenge expired or not found"))
  | _, (_, uc) =>
      ({| userCache := uc; challengeCache := challengeCache st |},
       status400 (ErrorBody "User not found"))
  end.

(** [POST /logout] *)
Definition logout (st : State) : State * Response :=
  (st, {| status := 200; body := SuccessBody; cookie := CookieClear |}).

(** [GET /me]; [jar] is [req.cookies.username], missing or a string
    ([me_route] below puts the middleware in front). *)
Definition me (e : Env) (jar : option string) (st : State) : State * Response :=
  match jar with
  | Some u =>
      if truthy jar && LRU.has (now e) u (userCache st)
      then (st, json (MeBody true (Some u)))
      else (st, json (MeBody false None))
  | None => (st, json (MeBody false None))
  end.

(** The requests the server accepts, and the server as a transition
    function. *)
Inductive Request : Type :=
| PostRegisterOptions (name : option string)
| PostRegisterVerify (name : option string) (response : ClientResponse)
| PostLoginOptions (name : option string)
| PostLoginVerify (name : option string) (response : ClientResponse)
| PostLogout
| GetMe (jar : option string).

Definition handle (e : Env) (r : Request) (st : State) : State * Response :=
  match r with
  | PostRegisterOptions name => register_options e name st
  | PostRegisterVerify name response => register_verify e name response st
  | PostLoginOptions name => login_options e name st
  | PostLoginVerify name response => login_verify e name response st
  | PostLogout => logout st
  | GetMe jar => me e jar st
  end.

Inductive reachable : State -> Prop :=
| reachable_initial : reachable initial
| reachable_step : forall st e r,
    reachable st -> reachable (fst (handle e r st)).

End Server.

(** ** Notions used to state the properties *)

(** The configuration of the two caches never changes, no cache holds two
    entries under one key or more entries than [max], and no user is stored
    under the empty name. *)
Definition cache_inv {V : Type} (m : nat) (t : Z) (c : LRU.t V) : Prop :=
  LRU.max c = m /\ LRU.ttl c = t /\ NoDup (LRU.keys c) /\
  (List.length (LRU.items c) <= m)%nat /\ (0 < m)%nat.

Definition invariant (st : State) : Prop :=
  cache_inv 100 86400000 (userCache st) /\
  cache_inv 1000 300000 (challengeCache st) /\
  ~ In "" (LRU.keys (userCache st)).

(** The user record stored under a name, stale or not. *)
Definition stored_user (name : string) (st : State) : option User :=
  option_map LRU.value (LRU.peek name (userCache st)).

(** The challenge stored for a user id, stale or not. *)
Definition stored_challenge (uid : string) (st : State) : option string :=
  option_map LRU.value (LRU.peek uid (challengeCache st)).

(** A user record is live at [t]: [getUserByUsername] would find it. *)
Definition live_user (t : Z) (name : string) (user : User) (st : State) : Prop :=
  stored_user name st = Some user /\ LRU.has t name (userCache st) = true.

(** A challenge is live at [t]: [challengeCache.get] would return it. *)
Definition live_challenge (t : Z) (uid c : string) (st : State) : Prop :=
  stored_challenge uid st = Some c /\ LRU.has t uid (challengeCache st) = true.

(** The device [/register/verify] builds from the verifier's credential and
    the client response. *)
Definition new_device (credential : WebAuthnCredential)
    (response : ClientResponse) : Authenticator :=
  {| credentialPublicKey := cred_publicKey credential;
     credentialID := cred_id credential;
     counter := cred_counter credential;
     transports := resp_transports response |}.

(** The reply of [/register/verify] once the verifier has been called. *)
Definition registration_reply (o : outcome VerifiedRegistrationResponse)
  : Response :=
  match o with
  | Throws message => status400 (ErrorBody message)
  | Returns v =>
      match reg_verified v, registrationInfo v with
      | true, Some _ => json (VerifiedBody true)
      | _, _ => status400 (VerifiedBody false)
      end
  end.

(** The reply of [/login/verify] once the verifier has been called. *)
Definition authentication_reply (name : string)
    (o : outcome VerifiedAuthenticationResponse) : Response :=
  match o with
  | Throws message => status400 (ErrorBody message)
  | Returns v =>
      if auth_verified v
      then {| status := 200; body := VerifiedBody true; cookie := CookieSet name |}
      else status400 (VerifiedBody false)
  end.

(** The Credential Store knows a username at [t]: [userCache.has] answers
    true for it. *)
Definition known (t : Z) (name : option string) (st : State) : bool :=
  match name with
  | Some u => LRU.has t u (userCache st)
  | None => false
  end.

(** The state both handlers leave behind when they only looked things up. *)
Definition looked_up (e : Env) (u : string) (user : User) (st : State) : State :=
  {| userCache := snd (LRU.get (now e) u (userCache st));
     challengeCache := snd (LRU.get (now e) (id user) (challengeCache st)) |}.

(** The state both handlers leave behind on success, [l] being the new
    device list. *)
Definition committed (e : Env) (u : string) (user : User)
    (l : list Authenticator) (st : State) : State :=
  {| userCache :=
       LRU.set (now e) u (with_devices user l)
         (snd (LRU.get (now e) u (userCache st)));
     challengeCache :=
       LRU.delete (id user)
         (snd (LRU.get (now e) (id user) (challengeCache st))) |}.

(** Two caches hold the same entries (value and age under every key),
    possibly in a different order of recency. *)
Definition same_entries {V : Type} (c c' : LRU.t V) : Prop :=
  forall k, LRU.peek k c' = LRU.peek k c.

(** How many devices of a list carry a given credential id. *)
Definition count_credential (cid : string) (l : list Authenticator) : nat :=
  List.length (filter (has_credentialID cid) l).

(** A device with its counter replaced, as [device.counter = n] leaves it. *)
Definition with_counter (d : Authenticator) (n : Z) : Authenticator :=
  {| credentialPublicKey := credentialPublicKey d;
     credentialID := credentialID d;
     counter := n;
     transports := transports d |}.

(** The same device, its counter not lower than before. *)
Definition counter_advanced (old new : Authenticator) : Prop :=
  credentialID new = credentialID old /\
  credentialPublicKey new = credentialPublicKey old /\
  transports new = transports old /\
  counter old <= counter new.

(** A request to one of the two [*/verify] routes for the given username. *)
Definition verify_request (u : string) (r : Request) : Prop :=
  exists response,
    r = PostRegisterVerify (Some u) response \/
    r = PostLoginVerify (Some u) response.

(** The purposes a ceremony challenge can be issued for. *)
Inductive Purpose : Type := Registration | Authentication.

(** ** Concrete runs *)
Module Sample.

Definition rpID : string := "localhost".
Definition origin : string := "http://localhost:3000".

Definition env (t : Z) (uuid c : string) : Env :=
  {| now := t; randomUUID := uuid; freshChallenge := c |}.

Definition cred1 : ClientResponse :=
  {| resp_id := "cred-1";
     resp_transports := Some ["internal"];
     resp_payload := "signed-by-D1" |}.

(** A registration verifier that approves every response and reports the
    credential named by the response, with counter 0. *)
Definition approve_registration (r : ClientResponse) (_ _ _ : string)
  : outcome VerifiedRegistrationResponse :=
  Returns {| reg_verified := true;
             registrationInfo :=
               Some {| cred_id := resp_id r;
                       cred_publicKey := [];
                       cred_counter := 0;
                       cred_transports := None |} |}.

Definition decline_registration (_ : ClientResponse) (_ _ _ : string)
  : outcome VerifiedRegistrationResponse :=
  Returns {| reg_verified := false; registrationInfo := None |}.

Definition failing_registration (reason : string) (_ : ClientResponse)
    (_ _ _ : string) : outcome VerifiedRegistrationResponse :=
  Throws reason.

(** An authentication verifier that approves every response and reports
    the stored counter plus one. *)
Definition approve_authentication (_ : ClientResponse) (_ _ _ : string)
    (c : WebAuthnCredential) : outcome VerifiedAuthenticationResponse :=
  Returns {| auth_verified := true; newCounter := cred_counter c + 1 |}.

Definition decline_authentication (_ : ClientResponse) (_ _ _ : string)
    (_ : WebAuthnCredential) : outcome VerifiedAuthenticationResponse :=
  Returns {| auth_verified := false; newCounter := 0 |}.

Definition failing_authentication (reason : string) (_ : ClientResponse)
    (_ _ _ : string) (_ : WebAuthnCredential)
  : outcome VerifiedAuthenticationResponse :=
  Throws reason.



Definition signed (c : string) : ClientResponse :=
  {| resp_id := "cred-1";
     resp_transports := Some ["internal"];
     resp_payload := c |}.

Definition device1 : Authenticator :=
  {| credentialPublicKey := [];
     credentialID := "cred-1";
     counter := 0;
     transports := Some ["internal"] |}.

Definition alice0 : User :=
  {| id := "uuid-alice"; username := "alice"; devices := [] |}.

Definition alice1 : User :=
  {| id := "uuid-alice"; username := "alice"; devices := [device1] |}.

(** alice has asked for registration options at time 0. *)
Definition alice_pending : State :=
  fst (register_options rpID (env 0 "uuid-alice" "challenge-1")
         (Some "alice") initial).

(** alice has then registered device D1 at time 1000. *)
Definition alice_registered : State :=
  fst (register_verify rpID origin approve_registration
         (env 1000 "unused" "unused") (Some "alice") cred1 alice_pending).

(** alice has then asked for login options at time 2000. *)
Definition alice_login_pending : State :=
  fst (login_options rpID (env 2000 "unused" "challenge-2")
         (Some "alice") alice_registered).

(** bob has asked for registration options at time 3000, after alice
    registered D1. *)
Definition bob_pending : State :=
  fst (register_options rpID (env 3000 "uuid-bob" "challenge-3")
         (Some "bob") alice_registered).

End Sample.

(** ** Notions used by the further properties *)


(** A hundred users registering one after the other. *)
Module Crowd.

Definition name (n : nat) : string :=
  String (Ascii.ascii_of_nat (48 + n)) EmptyString.

Fixpoint crowd (n : nat) : State :=
  match n with
  | O => initial
  | S m =>
      fst (register_options Sample.rpID
             (Sample.env (Z.of_nat m) (name m) "challenge")
             (Some (name m)) (crowd m))
  end.

Definition newcomer : Env := Sample.env 1000 "uuid-zed" "challenge-zed".

End Crowd.

(** ** Requests in flight

    The four ceremony handlers are [async]: each reads the caches when the
    request arrives, awaits a library call, and writes when that call has
    returned, so other requests can be served in between.  Here a request
    is split at its [await].  The [user] a waiting handler holds is a
    reference to the user object, which the cache and other waiting
    handlers may share, so user objects live in a store of their own and
    the user cache holds references.  [register_verify], [login_verify] and
    the two options handlers above are the special case of a request that
    arrives and completes with nothing served in between ([serve] below).
    Which library calls really let other requests in is the library's
    matter: here every waiting handler can be overtaken, and the properties
    proved hold for every order of arrivals and returns. *)
Module InFlight.

Definition ref : Type := nat.

(** [objects] are the user objects by reference ([fresh] is the next unused
    one), [userRefs] is [userCache], [challenges] is [challengeCache]. *)
Record Store : Type := {
  objects : ref -> User;
  fresh : ref;
  userRefs : LRU.t ref;
  challenges : LRU.t string
}.

Definition put (r : ref) (v : User) (h : ref -> User) : ref -> User :=
  fun r' => if Nat.eqb r' r then v else h r'.

Definition no_user : User := {| id := ""; username := ""; devices := [] |}.

Definition boot : Store :=
  {| objects := fun _ => no_user;
     fresh := 0%nat;
     userRefs := {| LRU.max := 100; LRU.ttl := 1000 * 60 * 60 * 24;
                    LRU.items := [] |};
     challenges := {| LRU.max := 1000; LRU.ttl := 1000 * 60 * 5;
                      LRU.items := [] |} |}.

(** What a handler that waits at its [await] still holds: the reference
    [user], and what it read or received before. *)
Inductive Pending : Type :=
| RegistrationOptionsPending (user : ref) (seen : User)
| AuthenticationOptionsPending (user : ref) (seen : User)
| RegistrationPending (username : string) (user : ref)
    (response : ClientResponse) (expectedChallenge : string)
| AuthenticationPending (username : string) (user : ref)
    (response : ClientResponse) (expectedChallenge : string)
    (credential : WebAuthnCredential).

Inductive Progress : Type :=
| Responded (r : Response)
| Waiting (p : Pending).

(** The user object a waiting handler holds, and whether it waits for one
    of the two verifiers. *)
Definition pending_user (p : Pending) : ref :=
  match p with
  | RegistrationOptionsPending r _ => r
  | AuthenticationOptionsPending r _ => r
  | RegistrationPending _ r _ _ => r
  | AuthenticationPending _ r _ _ _ => r
  end.



(** The handler answers [{verified: true}]. *)
Definition verified (out : outcome Response) : Prop :=
  exists resp, out = Returns resp /\ body resp = VerifiedBody true.

Definition with_userRefs (st : Store) (c : LRU.t ref) : Store :=
  {| objects := objects st; fresh := fresh st;
     userRefs := c; challenges := challenges st |}.

Definition with_challenges (st : Store) (c : LRU.t string) : Store :=
  {| objects := objects st; fresh := fresh st;
     userRefs := userRefs st; challenges := c |}.

Definition getUserByUsername (now : Z) (name : option string) (c : LRU.t ref)
  : option ref * LRU.t ref :=
  match name with
  | None => (None, c)
  | Some u => LRU.get now u c
  end.

Definition createUser (e : Env) (name : string) (st : Store) : ref * Store :=
  let r := fresh st in
  (r,
   {| objects :=
        put r {| id := randomUUID e; username := name; devices := [] |}
          (objects st);
      fresh := S r;
      userRefs := LRU.set (now e) name r (userRefs st);
      challenges := challenges st |}).

Section Handlers.

Variables rpID origin : string.
Variable verifyRegistrationResponse :
  ClientResponse -> string -> string -> string ->
  outcome VerifiedRegistrationResponse.
Variable verifyAuthenticationResponse :
  ClientResponse -> string -> string -> string -> WebAuthnCredential ->
  outcome VerifiedAuthenticationResponse.

(** [POST /register/options] up to [await generateRegistrationOptions]. *)
Definition register_options_arrives (e : Env) (name : option string)
    (st : Store) : Store * Progress :=
  match name with
  | Some u =>
      if truthy name then
        let '(r, st1) :=
          match getUserByUsername (now e) name (userRefs st) with
          | (Some r, uc) => (r, with_userRefs st uc)
          | (None, uc) => createUser e u (with_userRefs st uc)
          end in
        (st1, Waiting (RegistrationOptionsPending r (objects st1 r)))
      else (st, Responded (status400 (ErrorBody "Username is required")))
  | None => (st, Responded (status400 (ErrorBody "Username is required")))
  end.

(** [POST /login/options] up to [await generateAuthenticationOptions]. *)
Definition login_options_arrives (e : Env) (name : option string)
    (st : Store) : Store * Progress :=
  match getUserByUsername (now e) name (userRefs st) with
  | (Some r, uc) =>
      (with_userRefs st uc,
       Waiting (AuthenticationOptionsPending r (objects st r)))
  | (None, uc) =>
      (with_userRefs st uc,
       Responded (status400 (ErrorBody "User not found")))
  end.

(** [POST /register/verify] up to [await verifyRegistrationResponse]. *)
Definition register_verify_arrives (e : Env) (name : option string)
    (response : ClientResponse) (st : Store) : Store * Progress :=
  match name, getUserByUsername (now e) name (userRefs st) with
  | Some u, (Some r, uc) =>
      let '(found, cc) :=
        LRU.get (now e) (id (objects st r)) (challenges st) in
      let st1 := with_challenges (with_userRefs st uc) cc in
      if truthy found then
        match found with
        | Some expectedChallenge =>
            (st1, Waiting (RegistrationPending u r response expectedChallenge))
        | None =>
            (st1,
             Responded (status400 (ErrorBody "Challenge expired or not found")))
        end
      else
        (st1, Responded (status400 (ErrorBody "Challenge expired or not found")))
  | _, (_, uc) =>
      (with_userRefs st uc, Responded (status400 (ErrorBody "User not found")))
  end.

(** [POST /login/verify] up to [await verifyAuthenticationResponse]. *)
Definition login_verify_arrives (e : Env) (name : option string)
    (response : ClientResponse) (st : Store) : Store * Progress :=
  match name, getUserByUsername (now e) name (userRefs st) with
  | Some u, (Some r, uc) =>
      let '(found, cc) :=
        LRU.get (now e) (id (objects st r)) (challenges st) in
      let st1 := with_challenges (with_userRefs st uc) cc in
      if truthy found then
        match found with
        | Some expectedChallenge =>
            match find (has_credentialID (resp_id response))
                    (devices (objects st r)) with
            | None =>
                (st1,
                 Responded
                   (status400
                      (ErrorBody "Authenticator not found for this user")))
            | Some device =>
                (st1,
                 Waiting
                   (AuthenticationPending u r response expectedChallenge
                      (credential_of device)))
            end
        | None =>
            (st1,
             Responded (status400 (ErrorBody "Challenge expired or not found")))
        end
      else
        (st1, Responded (status400 (ErrorBody "Challenge expired or not found")))
  | _, (_, uc) =>
      (with_userRefs st uc, Responded (status400 (ErrorBody "User not found")))
  end.


(** [GET /me] *)
Definition me (e : Env) (jar : option string) (st : Store) : Response :=
  match jar with
  | Some u =>
      if truthy jar && LRU.has (now e) u (userRefs st)
      then json (MeBody true (Some u))
      else json (MeBody false None)
  | None => json (MeBody false None)
  end.

(** A request arrives and runs up to its first [await], or to its end. *)
Definition arrives (e : Env) (r : Request) (st : Store) : Store * Progress :=
  match r with
  | PostRegisterOptions name => register_options_arrives e name st
  | PostRegisterVerify name response => register_verify_arrives e name response st
  | PostLoginOptions name => login_options_arrives e name st
  | PostLoginVerify name response => login_verify_arrives e name response st
  | PostLogout =>
      (st, Responded {| status := 200; body := SuccessBody; cookie := CookieClear |})
  | GetMe jar => (st, Responded (me e jar st))
  end.

(** The awaited call has returned and the handler runs to its end, on the
    store as it is by then.  Everything the handler does after its [await]
    is inside no [try]: the one statement there that can throw is
    [device.counter = ...] of [/login/verify], when the second [find] meets
    no device with the response's id. *)
Definition completes (e : Env) (p : Pending) (st : Store)
  : Store * outcome Response :=
  match p with
  | RegistrationOptionsPending r seen =>
      let options := generateRegistrationOptions rpID e seen in
      (with_challenges st
         (LRU.set (now e) (id (objects st r)) (reg_challenge options)
            (challenges st)),
       Returns (json (RegistrationOptionsBody options)))
  | AuthenticationOptionsPending r seen =>
      let options := generateAuthenticationOptions rpID e seen in
      (with_challenges st
         (LRU.set (now e) (id (objects st r)) (auth_challenge options)
            (challenges st)),
       Returns (json (AuthenticationOptionsBody options)))
  | RegistrationPending u r response expectedChallenge =>
      match verifyRegistrationResponse response expectedChallenge
              origin rpID with
      | Throws message => (st, Returns (status400 (ErrorBody message)))
      | Returns verification =>
          match reg_verified verification,
                registrationInfo verification with
          | true, Some credential =>
              let user := objects st r in
              let user' :=
                with_devices user
                  (devices user ++ [new_device credential response]) in
              ({| objects := put r user' (objects st);
                  fresh := fresh st;
                  userRefs := LRU.set (now e) u r (userRefs st);
                  challenges := LRU.delete (id user) (challenges st) |},
               Returns (json (VerifiedBody true)))
          | _, _ => (st, Returns (status400 (VerifiedBody false)))
          end
      end
  | AuthenticationPending u r response expectedChallenge credential =>
      match verifyAuthenticationResponse response expectedChallenge
              origin rpID credential with
      | Throws message => (st, Returns (status400 (ErrorBody message)))
      | Returns verification =>
          if auth_verified verification then
            let user := objects st r in
            match find (has_credentialID (resp_id response)) (devices user) with
            | Some _ =>
                let user' :=
                  with_devices user
                    (set_counter (resp_id response) (newCounter verification)
                       (devices user)) in
                ({| objects := put r user' (objects st);
                    fresh := fresh st;
                    userRefs := LRU.set (now e) u r (userRefs st);
                    challenges := LRU.delete (id user) (challenges st) |},
                 Returns {| status := 200;
                            body := VerifiedBody true;
                            cookie := CookieSet u |})
            | None =>
                (st,
                 Throws "Cannot set properties of undefined (setting 'counter')")
            end
          else (st, Returns (status400 (VerifiedBody false)))
      end
  end.

(** The server with its requests in flight, in the order they arrived. *)
Record System : Type := { store : Store; inflight : list Pending }.

(** A request arrives, or the call the [n]-th waiting handler awaits
    returns. *)
Inductive Event : Type :=
| Arrives (e : Env) (r : Request)
| Completes (e : Env) (n : nat).

(** What an event produces: nothing yet, a response, or an exception that
    leaves the handler. *)
Definition react (ev : Event) (s : System)
  : System * option (outcome Response) :=
  match ev with
  | Arrives e r =>
      match arrives e r (store s) with
      | (st, Responded resp) =>
          ({| store := st; inflight := inflight s |}, Some (Returns resp))
      | (st, Waiting p) =>
          ({| store := st; inflight := inflight s ++ [p] |}, None)
      end
  | Completes e n =>
      match nth_error (inflight s) n with
      | Some p =>
          let '(st, out) := completes e p (store s) in
          ({| store := st;
              inflight := firstn n (inflight s) ++ skipn (S n) (inflight s) |},
           Some out)
      | None => (s, None)
      end
  end.

Fixpoint run (evs : list Event) (s : System)
  : System * list (option (outcome Response)) :=
  match evs with
  | [] => (s, [])
  | ev :: evs' =>
      let '(s1, out) := react ev s in
      let '(s2, outs) := run evs' s1 in
      (s2, out :: outs)
  end.

Inductive reachable : System -> Prop :=
| reachable_boot : reachable {| store := boot; inflight := [] |}
| reachable_react : forall s ev,
    reachable s -> reachable (fst (react ev s)).

(** A request served with nothing else in between: it arrives, and if it
    waits, its call returns at once. *)
Definition serve (e : Env) (r : Request) (st : Store)
  : Store * outcome Response :=
  match arrives e r st with
  | (st1, Responded resp) => (st1, Returns resp)
  | (st1, Waiting p) => completes e p st1
  end.

End Handlers.

(** A cache with every value replaced by its image. *)
Definition map_entry {A B : Type} (f : A -> B) (en : LRU.entry A)
  : LRU.entry B :=
  {| LRU.key := LRU.key en; LRU.value := f (LRU.value en);
     LRU.start := LRU.start en |}.

Definition map_values {A B : Type} (f : A -> B) (c : LRU.t A) : LRU.t B :=
  {| LRU.max := LRU.max c; LRU.ttl := LRU.ttl c;
     LRU.items := map (map_entry f) (LRU.items c) |}.

(** The store as the handlers of the first part see it: every reference in
    the user cache replaced by the object it refers to. *)
Definition view (st : Store) : State :=
  {| userCache := map_values (objects st) (userRefs st);
     challengeCache := challenges st |}.

(** Every entry of the user cache refers to an object that exists and
    carries the entry's key as its username. *)
Definition well_formed (st : Store) : Prop :=
  forall en,
    In en (LRU.items (userRefs st)) ->
    username (objects st (LRU.value en)) = LRU.key en /\
    (LRU.value en < fresh st)%nat.

(** The outcome of a request on a store and the outcome of a handler of
    the first part on a state agree: same answer, and the resulting store,
    again well formed, is seen as the resulting state. *)
Definition agree (out : Store * outcome Response) (out' : State * Response)
  : Prop :=
  view (fst out) = fst out' /\
  snd out = Returns (snd out') /\
  well_formed (fst out).

(** What a waiting handler relies on: its reference is to an object that
    exists; a verify handler's [username] is that object's; and the device
    [/login/verify] found before its [await] is still among the object's
    devices. *)
Definition pending_ok (st : Store) (p : Pending) : Prop :=
  (pending_user p < fresh st)%nat /\
  match p with
  | RegistrationPending u r _ _ => username (objects st r) = u
  | AuthenticationPending u r response _ _ =>
      username (objects st r) = u /\
      find (has_credentialID (resp_id response)) (devices (objects st r))
      <> None
  | _ => True
  end.

Definition sound (s : System) : Prop :=
  well_formed (store s) /\ Forall (pending_ok (store s)) (inflight s).

(** From one store to a later one: no object is lost, every object keeps
    its id and username, and keeps a device for every credential id it had
    one for. *)
Definition extends (st st' : Store) : Prop :=
  (fresh st <= fresh st')%nat /\
  forall r,
    (r < fresh st)%nat ->
    id (objects st' r) = id (objects st r) /\
    username (objects st' r) = username (objects st r) /\
    forall cid,
      find (has_credentialID cid) (devices (objects st r)) <> None ->
      find (has_credentialID cid) (devices (objects st' r)) <> None.

(** The user object stored under a name, and the challenge stored for a
    user id, stale or not. *)
Definition stored_ref (name : string) (st : Store) : option ref :=
  option_map LRU.value (LRU.peek name (userRefs st)).


Definition stored_challenge (uid : string) (st : Store) : option string :=
  option_map LRU.value (LRU.peek uid (challenges st)).

Definition live_challenge (t : Z) (uid c : string) (st : Store) : Prop :=
  stored_challenge uid st = Some c /\ LRU.has t uid (challenges st) = true.

End InFlight.

(** ** The [cookie-parser] middleware in front of [/me]

    [app.use(cookieParser())] turns the [Cookie] header into [req.cookies].
    A value that starts with [j:] is handed to [JSON.parse], and replaced by
    the parsed value when that is truthy; any other value stays the string
    it is.  [JSON.parse] is a variable. *)

(** What [JSON.parse] returns.  Of a number only whether it is zero matters
    here; arrays and objects are one case. *)
Inductive JSONValue : Type :=
| JSONnull
| JSONboolean (b : bool)
| JSONnumber (isZero : bool)
| JSONstring (s : string)
| JSONcompound.

Definition json_truthy (v : JSONValue) : bool :=
  match v with
  | JSONnull => false
  | JSONboolean b => b
  | JSONnumber isZero => negb isZero
  | JSONstring s => negb (String.eqb s "")
  | JSONcompound => true
  end.

(** [req.cookies.username]: missing, a string, or a truthy value that is
    not a string. *)
Inductive CookieValue : Type :=
| CookieMissing
| CookieString (s : string)
| CookieOther.

Section Middleware.

(** [JSON.parse]; [None] when it throws. *)
Variable JSON_parse : string -> option JSONValue.

Definition JSONCookie (str : string) : option JSONValue :=
  if String.prefix "j:" str
  then JSON_parse (String.substring 2 (String.length str - 2) str)
  else None.

(** The browser's cookie value as the [/me] handler finds it. *)
Definition req_cookies_username (jar : option string) : CookieValue :=
  match jar with
  | None => CookieMissing
  | Some str =>
      match JSONCookie str with
      | Some val =>
          if json_truthy val then
            match val with
            | JSONstring s => CookieString s
            | _ => CookieOther
            end
          else CookieString str
      | None => CookieString str
      end
  end.

(** [GET /me] behind the middleware.  The keys of [userCache] are strings,
    so [userCache.has] is false for a value that is not one. *)
Definition me_route (e : Env) (jar : option string) (st : State)
  : State * Response :=
  match req_cookies_username jar with
  | CookieMissing => me e None st
  | CookieString s => me e (Some s) st
  | CookieOther => (st, json (MeBody false None))
  end.

End Middleware.

(** ** The page script [public/client.js]

    The script drives the server through [fetch].  A click handler is run to
    completion: its requests reach the server one after the other, each with
    its own draw from the environment, and the page is observed once the
    handler and the [checkLoginStatus] it started have settled (the timer
    that hides the status message five seconds later is left out, and so is
    the lifetime of the cookie in the browser).  The browser's authenticator
    calls [startRegistration] and [startAuthentication] are variables: they
    receive the options object the server sent and either throw or return a
    response. *)
Module Client.

(** The [message] argument of [showStatus].  The two template strings that
    embed [JSON.stringify(verificationJSON)] keep the object itself. *)
Inductive Text : Type :=
| Plain (s : string)
| RegistrationFailed (verificationJSON : Json)
| LoginFailed (verificationJSON : Json).

(** [statusMessage.textContent] and its class [status <type>]. *)
Record StatusMessage : Type := { text : Text; type : string }.

(** Which of the two sections is visible, with [userDisplay.textContent]. *)
Inductive View : Type :=
| AuthSection
| LoggedInSection (userDisplay : string).

Record Page : Type := { statusMessage : option StatusMessage; view : View }.

(** The server, the browser's [username] cookie, and the page. *)
Record World : Type := { server : State; jar : option string; page : Page }.

Definition showStatus (message : Text) (type : string) (w : World) : World :=
  {| server := server w;
     jar := jar w;
     page := {| statusMessage := Some {| text := message; type := type |};
                view := view (page w) |} |}.

Definition updateUI (isLoggedIn : bool) (username : option string) (w : World)
  : World :=
  {| server := server w;
     jar := jar w;
     page := {| statusMessage := statusMessage (page w);
                view := if isLoggedIn
                        then LoggedInSection
                               match username with Some u => u | None => "" end
                        else AuthSection |} |}.

(** [resp.ok] *)
Definition ok (r : Response) : bool := (200 <=? status r) && (status r <=? 299).

(** [err.error || fallback] *)
Definition error_or (b : Json) (fallback : string) : string :=
  match b with
  | ErrorBody m => if String.eqb m "" then fallback else m
  | _ => fallback
  end.

(** [verificationJSON.verified], as a condition. *)
Definition verified_field (b : Json) : bool :=
  match b with
  | VerifiedBody v => v
  | _ => false
  end.

(** [data.loggedIn] and [data.username] *)
Definition loggedIn_field (b : Json) : bool :=
  match b with
  | MeBody l _ => l
  | _ => false
  end.

Definition username_field (b : Json) : option string :=
  match b with
  | MeBody _ name => name
  | _ => None
  end.

Section Browser.

Variables rpID origin : string.
Variable verifyRegistrationResponse :
  ClientResponse -> string -> string -> string ->
  outcome VerifiedRegistrationResponse.
Variable verifyAuthenticationResponse :
  ClientResponse -> string -> string -> string -> WebAuthnCredential ->
  outcome VerifiedAuthenticationResponse.
Variable startRegistration : Json -> outcome ClientResponse.
Variable startAuthentication : Json -> outcome ClientResponse.
Variable JSON_parse : string -> option JSONValue.

(** A same-origin [fetch]: the server handles the request and the browser
    applies what the response does to the cookie. *)
Definition fetch (e : Env) (r : Request) (w : World) : World * Response :=
  let '(st, resp) :=
    handle rpID origin verifyRegistrationResponse verifyAuthenticationResponse
      e r (server w) in
  ({| server := st; jar := apply_cookie (cookie resp) (jar w); page := page w |},
   resp).

(** [fetch('/me')] sends the cookie, which the server reads through
    [cookie-parser]. *)
Definition checkLoginStatus (e : Env) (w : World) : World :=
  let '(st, res) := me_route JSON_parse e (jar w) (server w) in
  updateUI (loggedIn_field (body res)) (username_field (body res))
    {| server := st;
       jar := apply_cookie (cookie res) (jar w);
       page := page w |}.

(** The click handler of [btn-register]. *)
Definition register_click (e1 e2 : Env) (username : string) (w : World)
  : World :=
  if negb (truthy (Some username)) then
    showStatus (Plain "Please enter a username") "error" w
  else
    let '(w1, resp) := fetch e1 (PostRegisterOptions (Some username)) w in
    if negb (ok resp) then
      showStatus
        (Plain (error_or (body resp) "Failed to get registration options"))
        "error" w1
    else
      match startRegistration (body resp) with
      | Throws message => showStatus (Plain message) "error" w1
      | Returns attResp =>
          let '(w2, verificationResp) :=
            fetch e2 (PostRegisterVerify (Some username) attResp) w1 in
          if verified_field (body verificationResp) then
            showStatus (Plain "Registration successful! You can now log in.")
              "success" w2
          else
            showStatus (RegistrationFailed (body verificationResp)) "error" w2
      end.

(** The click handler of [btn-login]. *)
Definition login_click (e1 e2 e3 : Env) (username : string) (w : World)
  : World :=
  if negb (truthy (Some username)) then
    showStatus (Plain "Please enter a username") "error" w
  else
    let '(w1, resp) := fetch e1 (PostLoginOptions (Some username)) w in
    if negb (ok resp) then
      showStatus (Plain (error_or (body resp) "Failed to get login options"))
        "error" w1
    else
      match startAuthentication (body resp) with
      | Throws message => showStatus (Plain message) "error" w1
      | Returns asseResp =>
          let '(w2, verificationResp) :=
            fetch e2 (PostLoginVerify (Some username) asseResp) w1 in
          if verified_field (body verificationResp) then
            checkLoginStatus e3
              (showStatus (Plain "Login successful!") "success" w2)
          else
            showStatus (LoginFailed (body verificationResp)) "error" w2
      end.

(** The click handler of [btn-logout]. *)
Definition logout_click (e1 e2 : Env) (w : World) : World :=
  let '(w1, _) := fetch e1 PostLogout w in
  showStatus (Plain "Logged out") "info" (checkLoginStatus e2 w1).

End Browser.

End Client.

(** Concrete authenticators, verifiers and pages for the runs below. *)
Module Demo.

(** An authenticator that signs the challenge of the options it is shown
    with credential "cred-1". *)
Definition sign (options : Json) : outcome ClientResponse :=
  match options with
  | RegistrationOptionsBody o => Returns (Sample.signed (reg_challenge o))
  | AuthenticationOptionsBody o => Returns (Sample.signed (auth_challenge o))
  | _ => Throws "NotAllowedError"
  end.

(** A registration verifier whose result is verified but carries no
    [registrationInfo]. *)
Definition verified_without_info (_ : ClientResponse) (_ _ _ : string)
  : outcome VerifiedRegistrationResponse :=
  Returns {| reg_verified := true; registrationInfo := None |}.

(** An authentication verifier that approves a response exactly when its
    payload repeats the expected challenge, and counts one up. *)
Definition strict_authentication (r : ClientResponse) (c _ _ : string)
    (credential : WebAuthnCredential)
  : outcome VerifiedAuthenticationResponse :=
  if String.eqb (resp_payload r) c
  then Returns {| auth_verified := true;
                  newCounter := cred_counter credential + 1 |}
  else Returns {| auth_verified := false; newCounter := 0 |}.

(** A [JSON.parse] that accepts the text [1] only. *)
Definition parse_one (text : string) : option JSONValue :=
  if String.eqb text "1" then Some (JSONnumber false) else None.

(** An authentication verifier that reads the signature counter off the
    response (the length of its payload) and, as the library does, throws
    unless that counter is above the stored one it is given. *)
Definition counting_authentication (r : ClientResponse) (_ _ _ : string)
    (credential : WebAuthnCredential)
  : outcome VerifiedAuthenticationResponse :=
  let n := Z.of_nat (String.length (resp_payload r)) in
  if cred_counter credential <? n
  then Returns {| auth_verified := true; newCounter := n |}
  else Throws "Response counter value was lower than expected".

Definition counter5 : ClientResponse :=
  {| resp_id := "cred-1"; resp_transports := None; resp_payload := "12345" |}.

Definition counter3 : ClientResponse :=
  {| resp_id := "cred-1"; resp_transports := None; resp_payload := "123" |}.

Definition start : InFlight.System :=
  {| InFlight.store := InFlight.boot; InFlight.inflight := [] |}.

(** The events below are played on a server whose registration verifier
    approves and whose authentication verifier counts. *)
Definition play (evs : list InFlight.Event) (s : InFlight.System)
  : InFlight.System * list (option (outcome Response)) :=
  InFlight.run Sample.rpID Sample.origin Sample.approve_registration
    counting_authentication evs s.

(** alice asks for registration options. *)
Definition alice_asks : list InFlight.Event :=
  [ InFlight.Arrives (Sample.env 0 "uuid-alice" "challenge-1")
      (PostRegisterOptions (Some "alice"));
    InFlight.Completes (Sample.env 0 "uuid-alice" "challenge-1") 0 ].

Definition asked : InFlight.System := fst (play alice_asks start).

(** Two registration responses for that one challenge arrive one after the
    other, and the two verifier calls return afterwards. *)
Definition two_registrations : list InFlight.Event :=
  [ InFlight.Arrives (Sample.env 1000 "unused" "unused")
      (PostRegisterVerify (Some "alice") Sample.cred1);
    InFlight.Arrives (Sample.env 1001 "unused" "unused")
      (PostRegisterVerify (Some "alice") Sample.cred1);
    InFlight.Completes (Sample.env 1002 "unused" "unused") 0;
    InFlight.Completes (Sample.env 1003 "unused" "unused") 0 ].

(** alice registers device D1 and asks for login options, each request
    completing before the next arrives. *)
Definition alice_gets_ready : list InFlight.Event :=
  [ InFlight.Arrives (Sample.env 1000 "unused" "unused")
      (PostRegisterVerify (Some "alice") Sample.cred1);
    InFlight.Completes (Sample.env 1000 "unused" "unused") 0;
    InFlight.Arrives (Sample.env 2000 "unused" "challenge-2")
      (PostLoginOptions (Some "alice"));
    InFlight.Completes (Sample.env 2000 "unused" "challenge-2") 0 ].

Definition ready : InFlight.System := fst (play alice_gets_ready asked).

(** Two logins with D1 arrive one after the other, the first carrying
    counter 5 and the second counter 3; the verifier call of the first
    returns, then that of the second. *)
Definition two_logins : list InFlight.Event :=
  [ InFlight.Arrives (Sample.env 3000 "unused" "unused")
      (PostLoginVerify (Some "alice") counter5);
    InFlight.Arrives (Sample.env 3001 "unused" "unused")
      (PostLoginVerify (Some "alice") counter3);
    InFlight.Completes (Sample.env 3002 "unused" "unused") 0;
    InFlight.Completes (Sample.env 3003 "unused" "unused") 0 ].

(** The counters of the devices stored for a user. *)
Definition counters (name : string) (s : InFlight.System) : option (list Z) :=
  option_map
    (fun r => map counter (devices (InFlight.objects (InFlight.store s) r)))
    (InFlight.stored_ref name (InFlight.store s)).

(** The credential ids of the devices stored for a user. *)
Definition credentials (name : string) (s : InFlight.System)
  : option (list string) :=
  option_map
    (fun r =>
       map credentialID (devices (InFlight.objects (InFlight.store s) r)))
    (InFlight.stored_ref name (InFlight.store s)).

Definition empty_page : Client.Page :=
  {| Client.statusMessage := None; Client.view := Client.AuthSection |}.

(** A browser without cookie in front of a server that has just started. *)
Definition fresh : Client.World :=
  {| Client.server := initial; Client.jar := None; Client.page := empty_page |}.

(** The same browser once alice has registered device D1. *)
Definition after_registration : Client.World :=
  {| Client.server := Sample.alice_registered;
     Client.jar := None;
     Client.page := empty_page |}.

(** A response that names a credential alice does not hold. *)
Definition cred9 : ClientResponse :=
  {| resp_id := "cred-9";
     resp_transports := None;
     resp_payload := "challenge-2" |}.

End Demo.

(** Splits the invariant into its three parts. *)
Ltac inv_split :=
  unfold invariant; cbn [fst snd userCache challengeCache createUser];
  split; [|split].

(** ** Facts about the cache operations *)

Section CacheFacts.

Context {V : Type}.
Implicit Types (c : LRU.t V) (l : list (LRU.entry V)) (k : string).

Lemma is_key_true k (e : LRU.entry V) :
  LRU.is_key k e = true <-> LRU.key e = k.
Proof. unfold LRU.is_key. apply String.eqb_eq. Qed.

Lemma is_key_false k (e : LRU.entry V) :
  LRU.is_key k e = false <-> LRU.key e <> k.
Proof. unfold LRU.is_key. apply String.eqb_neq. Qed.

Lemma find_is_key k l e :
  find (LRU.is_key k) l = Some e -> LRU.key e = k /\ In e l.
Proof.
  intros H. apply find_some in H. destruct H as [Hin Hk].
  split; [now apply is_key_true | exact Hin].
Qed.

Lemma find_is_key_none k l :
  find (LRU.is_key k) l = None <-> ~ In k (map LRU.key l).
Proof.
  induction l as [|a l IH]; simpl.
  - tauto.
  - destruct (LRU.is_key k a) eqn:E.
    + apply is_key_true in E. split; [discriminate | intros H; exfalso; auto].
    + apply is_key_false in E. rewrite IH. tauto.
Qed.

Lemma find_remove_same k l : find (LRU.is_key k) (LRU.remove k l) = None.
Proof.
  induction l as [|a l IH]; simpl; [reflexivity|].
  destruct (LRU.is_key k a) eqn:E; simpl; [exact IH|].
  now rewrite E.
Qed.

Lemma find_remove_other k k' l :
  k' <> k ->
  find (LRU.is_key k') (LRU.remove k l) = find (LRU.is_key k') l.
Proof.
  intros Hne. induction l as [|a l IH]; simpl; [reflexivity|].
  destruct (LRU.is_key k a) eqn:E; simpl.
  - apply is_key_true in E.
    assert (LRU.is_key k' a = false) as -> by (apply is_key_false; congruence).
    exact IH.
  - destruct (LRU.is_key k' a); [reflexivity | exact IH].
Qed.

Lemma remove_incl k l : incl (LRU.remove k l) l.
Proof. intros x Hx. apply filter_In in Hx. tauto. Qed.

Lemma keys_remove_incl k l :
  incl (map LRU.key (LRU.remove k l)) (map LRU.key l).
Proof. apply incl_map, remove_incl. Qed.

Lemma keys_remove_notin k l : ~ In k (map LRU.key (LRU.remove k l)).
Proof. apply find_is_key_none, find_remove_same. Qed.

Lemma NoDup_keys_remove k l :
  NoDup (map LRU.key l) -> NoDup (map LRU.key (LRU.remove k l)).
Proof.
  induction l as [|a l IH]; simpl; intros H; [constructor|].
  inversion H as [|? ? Hin Hnd]; subst.
  destruct (LRU.is_key k a); simpl; [auto|].
  constructor; [|auto].
  intros Hc. apply Hin. now apply (keys_remove_incl k l).
Qed.

Lemma firstn_incl {A} (n : nat) (l : list A) : incl (firstn n l) l.
Proof.
  revert n. induction l as [|a l IH]; intros [|n]; simpl.
  - apply incl_refl.
  - apply incl_refl.
  - apply incl_nil_l.
  - intros x [->|Hx]; [now left | right; now apply (IH n)].
Qed.

Lemma NoDup_map_firstn {A B} (f : A -> B) (n : nat) (l : list A) :
  NoDup (map f l) -> NoDup (map f (firstn n l)).
Proof.
  revert n. induction l as [|a l IH]; intros [|n]; simpl; intros H;
    try constructor.
  - inversion H as [|? ? Hin Hnd]; subst.
    intros Hc. apply Hin. revert Hc. apply incl_map, firstn_incl.
  - inversion H; subst. auto.
Qed.

(** [set]: the entry written is the one found afterwards, whatever the
    occupancy of the cache. *)
Lemma peek_set_same now k v c :
  LRU.peek k (LRU.set now k v c)
  = Some {| LRU.key := k; LRU.value := v; LRU.start := now |}.
Proof.
  unfold LRU.peek, LRU.set. simpl.
  unfold LRU.is_key at 1. simpl. now rewrite String.eqb_refl.
Qed.

Lemma keys_set_incl now k v c :
  incl (LRU.keys (LRU.set now k v c)) (k :: LRU.keys c).
Proof.
  unfold LRU.keys, LRU.set. simpl.
  intros x [->|Hx]; [now left|right].
  apply (keys_remove_incl k). revert Hx. apply incl_map, firstn_incl.
Qed.

Lemma NoDup_keys_set now k v c :
  NoDup (LRU.keys c) -> NoDup (LRU.keys (LRU.set now k v c)).
Proof.
  unfold LRU.keys, LRU.set. simpl. intros H. constructor.
  - intros Hc. apply (keys_remove_notin k (LRU.items c)).
    revert Hc. apply incl_map, firstn_incl.
  - now apply NoDup_map_firstn, NoDup_keys_remove.
Qed.

Lemma peek_delete_same k c : LRU.peek k (LRU.delete k c) = None.
Proof. apply find_remove_same. Qed.

Lemma peek_delete_other k k' c :
  k' <> k -> LRU.peek k' (LRU.delete k c) = LRU.peek k' c.
Proof. apply find_remove_other. Qed.

Lemma keys_delete_incl k c : incl (LRU.keys (LRU.delete k c)) (LRU.keys c).
Proof. apply keys_remove_incl. Qed.

Lemma NoDup_keys_delete k c :
  NoDup (LRU.keys c) -> NoDup (LRU.keys (LRU.delete k c)).
Proof. apply NoDup_keys_remove. Qed.

(** [get], hit: the value is that of a live entry, and the cache holds the
    same entries afterwards, reordered. *)
Lemma get_Some now k c v c' :
  LRU.get now k c = (Some v, c') ->
  exists e,
    LRU.peek k c = Some e /\ LRU.value e = v /\ LRU.key e = k /\
    LRU.isStale now c e = false /\
    c' = LRU.with_items c (e :: LRU.remove k (LRU.items c)).
Proof.
  unfold LRU.get. destruct (LRU.peek k c) as [e|] eqn:P; [|discriminate].
  destruct (LRU.isStale now c e) eqn:S; [discriminate|].
  intros H. inversion H; subst. exists e.
  repeat split; auto. now apply find_is_key in P.
Qed.

(** [get], miss: nothing was stored under the key, or the entry was stale
    and is dropped. *)
Lemma get_None now k c c' :
  LRU.get now k c = (None, c') ->
  LRU.has now k c = false /\
  (c' = c \/ c' = LRU.delete k c) /\
  (LRU.peek k c = None -> c' = c).
Proof.
  unfold LRU.get, LRU.has. destruct (LRU.peek k c) as [e|] eqn:P.
  - destruct (LRU.isStale now c e) eqn:S; [|discriminate].
    intros H. inversion H; subst. repeat split; auto. discriminate.
  - intros H. inversion H; subst. auto.
Qed.

Lemma get_live now k c :
  LRU.has now k c = true ->
  exists e,
    LRU.peek k c = Some e /\ LRU.key e = k /\
    LRU.get now k c
    = (Some (LRU.value e), LRU.with_items c (e :: LRU.remove k (LRU.items c))).
Proof.
  unfold LRU.has, LRU.get. destruct (LRU.peek k c) as [e|] eqn:P; [|discriminate].
  intros H. apply negb_true_iff in H. rewrite H. exists e.
  repeat split; auto. now apply find_is_key in P.
Qed.

Lemma peek_get_hit now k c v c' k' :
  LRU.get now k c = (Some v, c') -> LRU.peek k' c' = LRU.peek k' c.
Proof.
  intros H. apply get_Some in H.
  destruct H as (e & P & _ & K & _ & ->).
  unfold LRU.peek at 1. simpl.
  destruct (String.eqb_spec k' k) as [->|Hne].
  - assert (LRU.is_key k e = true) as -> by now apply is_key_true.
    now rewrite P.
  - assert (LRU.is_key k' e = false) as -> by (apply is_key_false; congruence).
    now apply find_remove_other.
Qed.

Lemma keys_get_incl now k c :
  incl (LRU.keys (snd (LRU.get now k c))) (LRU.keys c).
Proof.
  unfold LRU.get. destruct (LRU.peek k c) as [e|] eqn:P; simpl.
  - destruct (LRU.isStale now c e); simpl.
    + apply keys_delete_incl.
    + unfold LRU.keys. simpl. apply find_is_key in P. destruct P as [K I].
      intros x [<-|Hx].
      * now apply in_map.
      * now apply (keys_remove_incl k).
  - apply incl_refl.
Qed.

Lemma NoDup_keys_get now k c :
  NoDup (LRU.keys c) -> NoDup (LRU.keys (snd (LRU.get now k c))).
Proof.
  intros H. unfold LRU.get. destruct (LRU.peek k c) as [e|] eqn:P; simpl; auto.
  destruct (LRU.isStale now c e); simpl.
  - now apply NoDup_keys_delete.
  - unfold LRU.keys. simpl. apply find_is_key in P. destruct P as [K I].
    constructor.
    + rewrite K. apply keys_remove_notin.
    + now apply NoDup_keys_remove.
Qed.

Lemma config_get now k c :
  LRU.max (snd (LRU.get now k c)) = LRU.max c /\
  LRU.ttl (snd (LRU.get now k c)) = LRU.ttl c.
Proof.
  unfold LRU.get. destruct (LRU.peek k c) as [e|]; simpl; auto.
  destruct (LRU.isStale now c e); simpl; auto.
Qed.

(** An entry written at [t] is live at [t'] as long as [t' - t <= ttl]. *)
Lemma has_set_same t t' k v c :
  t' - t <= LRU.ttl c -> LRU.has t' k (LRU.set t k v c) = true.
Proof.
  intros H. unfold LRU.has. rewrite peek_set_same.
  unfold LRU.isStale. simpl. apply negb_true_iff, Z.ltb_ge. exact H.
Qed.

Lemma has_get_hit now k c v c' t k' :
  LRU.get now k c = (Some v, c') -> LRU.has t k' c' = LRU.has t k' c.
Proof.
  intros H. unfold LRU.has. rewrite (peek_get_hit _ _ _ _ _ k' H).
  apply get_Some in H. destruct H as (e & _ & _ & _ & _ & ->).
  reflexivity.
Qed.

End CacheFacts.

(** ** The invariant of the reachable states *)

Section CacheInvariant.

Context {V : Type}.
Implicit Types (c : LRU.t V) (k : string).

Lemma length_remove_le k (l : list (LRU.entry V)) :
  (List.length (LRU.remove k l) <= List.length l)%nat.
Proof. apply filter_length_le. Qed.

Lemma length_remove_lt k (l : list (LRU.entry V)) e :
  find (LRU.is_key k) l = Some e ->
  (List.length (LRU.remove k l) < List.length l)%nat.
Proof.
  induction l as [|a l IH]; simpl; [discriminate|].
  destruct (LRU.is_key k a) eqn:E; simpl.
  - intros _. pose proof (length_remove_le k l). lia.
  - intros H. apply IH in H. lia.
Qed.

Lemma remove_absent k (l : list (LRU.entry V)) :
  find (LRU.is_key k) l = None -> LRU.remove k l = l.
Proof.
  induction l as [|a l IH]; simpl; [reflexivity|].
  destruct (LRU.is_key k a); simpl; [discriminate|].
  intros H. now rewrite IH.
Qed.

Lemma cache_inv_get m t now k c :
  cache_inv m t c -> cache_inv m t (snd (LRU.get now k c)).
Proof.
  intros (M & T & N & L & P). destruct (config_get now k c) as [M' T'].
  split; [congruence|]. split; [congruence|].
  split; [now apply NoDup_keys_get|]. split; [|exact P].
  unfold LRU.get. destruct (LRU.peek k c) as [e|] eqn:F; simpl; [|exact L].
  destruct (LRU.isStale now c e); simpl.
  - pose proof (length_remove_le k (LRU.items c)). lia.
  - pose proof (length_remove_lt k (LRU.items c) e F). lia.
Qed.

Lemma cache_inv_set m t now k v c :
  cache_inv m t c -> cache_inv m t (LRU.set now k v c).
Proof.
  intros (M & T & N & L & P).
  split; [exact M|]. split; [exact T|].
  split; [now apply NoDup_keys_set|]. split; [|exact P].
  simpl. rewrite M.
  pose proof (firstn_le_length (Nat.pred m) (LRU.remove k (LRU.items c))).
  lia.
Qed.

Lemma cache_inv_delete m t k c :
  cache_inv m t c -> cache_inv m t (LRU.delete k c).
Proof.
  intros (M & T & N & L & P).
  split; [exact M|]. split; [exact T|].
  split; [now apply NoDup_keys_delete|]. split; [|exact P].
  simpl. pose proof (length_remove_le k (LRU.items c)). lia.
Qed.

(** Under the invariant [set] is the operation of the package: an existing
    key is rewritten in place of its old entry, a new key is added, and
    only when the cache is full does the least recently used entry go. *)
Lemma set_cases m t now k v c :
  cache_inv m t c ->
  let new := {| LRU.key := k; LRU.value := v; LRU.start := now |} in
  LRU.items (LRU.set now k v c)
  = match LRU.peek k c with
    | Some _ => new :: LRU.remove k (LRU.items c)
    | None =>
        if (List.length (LRU.items c) <? m)%nat
        then new :: LRU.items c
        else new :: removelast (LRU.items c)
    end.
Proof.
  intros (M & T & N & L & P) new. unfold LRU.set, LRU.peek. simpl. rewrite M.
  destruct (find (LRU.is_key k) (LRU.items c)) as [e|] eqn:F.
  - rewrite firstn_all2; [reflexivity|].
    pose proof (length_remove_lt k _ e F). lia.
  - rewrite (remove_absent k _ F).
    destruct (Nat.ltb_spec (List.length (LRU.items c)) m) as [Hlt|Hge].
    + rewrite firstn_all2; [reflexivity | lia].
    + assert (List.length (LRU.items c) = m) as <- by lia.
      now rewrite removelast_firstn_len.
Qed.

Lemma get_hit_in_keys now k c v c' :
  LRU.get now k c = (Some v, c') -> In k (LRU.keys c).
Proof.
  intros H. apply get_Some in H. destruct H as (e & P & _ & K & _).
  apply find_is_key in P. destruct P as [_ I].
  rewrite <- K. now apply in_map.
Qed.

Lemma notin_keys_get now k c x :
  ~ In x (LRU.keys c) -> ~ In x (LRU.keys (snd (LRU.get now k c))).
Proof. intros H Hc. apply H. now apply (keys_get_incl now k c). Qed.

Lemma notin_keys_set now k v c x :
  x <> k -> ~ In x (LRU.keys c) -> ~ In x (LRU.keys (LRU.set now k v c)).
Proof.
  intros Hne H Hc. apply keys_set_incl in Hc. destruct Hc; [congruence | auto].
Qed.

End CacheInvariant.

Lemma truthy_Some (s : string) : truthy (Some s) = true <-> s <> "".
Proof.
  simpl. rewrite negb_true_iff. apply String.eqb_neq.
Qed.

Lemma getUserByUsername_snd now name c :
  snd (getUserByUsername now name c) = c \/
  exists u, name = Some u /\
            snd (getUserByUsername now name c) = snd (LRU.get now u c).
Proof. destruct name as [u|]; simpl; eauto. Qed.

Lemma getUserByUsername_inv now name c :
  cache_inv 100 86400000 c -> ~ In "" (LRU.keys c) ->
  cache_inv 100 86400000 (snd (getUserByUsername now name c)) /\
  ~ In "" (LRU.keys (snd (getUserByUsername now name c))).
Proof.
  intros I E. destruct name as [u|]; simpl; [|auto].
  split; [now apply cache_inv_get | now apply notin_keys_get].
Qed.

Lemma getUserByUsername_hit now name c user c' :
  getUserByUsername now name c = (Some user, c') ->
  exists u, name = Some u /\ LRU.get now u c = (Some user, c').
Proof. destruct name as [u|]; simpl; [eauto | discriminate]. Qed.

Section Invariant.

Variables rpID origin : string.
Variable verifyRegistrationResponse :
  ClientResponse -> string -> string -> string ->
  outcome VerifiedRegistrationResponse.
Variable verifyAuthenticationResponse :
  ClientResponse -> string -> string -> string -> WebAuthnCredential ->
  outcome VerifiedAuthenticationResponse.

Lemma register_options_invariant e name st :
  invariant st -> invariant (fst (register_options rpID e name st)).
Proof.
  intros (U & C & E). unfold register_options.
  destruct name as [u|]; [|inv_split; auto].
  destruct (truthy (Some u)) eqn:T; [|inv_split; auto].
  apply truthy_Some in T. simpl getUserByUsername.
  pose proof (cache_inv_get _ _ (now e) u _ U) as U'.
  pose proof (notin_keys_get (now e) u _ _ E) as E'.
  destruct (LRU.get (now e) u (userCache st)) as [[user|] uc];
    cbn [fst snd] in *.
  - inv_split; auto. now apply cache_inv_set.
  - inv_split.
    + now apply cache_inv_set.
    + now apply cache_inv_set.
    + apply notin_keys_set; auto.
Qed.

Lemma login_options_invariant e name st :
  invariant st -> invariant (fst (login_options rpID e name st)).
Proof.
  intros (U & C & E). unfold login_options.
  destruct (getUserByUsername_inv (now e) name _ U E) as [U' E'].
  destruct (getUserByUsername (now e) name (userCache st)) as [[user|] uc];
    simpl in *; inv_split; auto; now apply cache_inv_set.
Qed.

Lemma register_verify_invariant e name response st :
  invariant st ->
  invariant (fst (register_verify rpID origin verifyRegistrationResponse
                    e name response st)).
Proof.
  intros (U & C & E). unfold register_verify.
  destruct name as [u|]; [|inv_split; assumption].
  cbn [getUserByUsername].
  pose proof (cache_inv_get _ _ (now e) u _ U) as U'.
  pose proof (notin_keys_get (now e) u _ _ E) as E'.
  destruct (LRU.get (now e) u (userCache st)) as [[user|] uc] eqn:G;
    cbn [fst snd] in U', E'; [|inv_split; assumption].
  apply get_hit_in_keys in G.
  assert (u <> "") as Hu by (intros ->; auto).
  pose proof (cache_inv_get _ _ (now e) (id user) _ C) as C'.
  destruct (LRU.get (now e) (id user) (challengeCache st)) as [found cc].
  cbn [fst snd] in C'.
  destruct (truthy found); [|inv_split; assumption].
  destruct found as [c|]; [|inv_split; assumption].
  destruct (verifyRegistrationResponse response c origin rpID) as [m|v];
    [inv_split; assumption|].
  destruct (reg_verified v); [|inv_split; assumption].
  destruct (registrationInfo v); [|inv_split; assumption].
  inv_split;
    try (now apply cache_inv_set);
    try (now apply cache_inv_delete).
  apply notin_keys_set; auto.
Qed.

Lemma login_verify_invariant e name response st :
  invariant st ->
  invariant (fst (login_verify rpID origin verifyAuthenticationResponse
                    e name response st)).
Proof.
  intros (U & C & E). unfold login_verify.
  destruct name as [u|]; [|inv_split; assumption].
  cbn [getUserByUsername].
  pose proof (cache_inv_get _ _ (now e) u _ U) as U'.
  pose proof (notin_keys_get (now e) u _ _ E) as E'.
  destruct (LRU.get (now e) u (userCache st)) as [[user|] uc] eqn:G;
    cbn [fst snd] in U', E'; [|inv_split; assumption].
  apply get_hit_in_keys in G.
  assert (u <> "") as Hu by (intros ->; auto).
  pose proof (cache_inv_get _ _ (now e) (id user) _ C) as C'.
  destruct (LRU.get (now e) (id user) (challengeCache st)) as [found cc].
  cbn [fst snd] in C'.
  destruct (truthy found); [|inv_split; assumption].
  destruct found as [c|]; [|inv_split; assumption].
  destruct (match find (has_credentialID (resp_id response)) (devices user) with
            | Some device => _ | None => _ end) as [m|v];
    [inv_split; assumption|].
  destruct (auth_verified v); [|inv_split; assumption].
  inv_split;
    try (now apply cache_inv_set);
    try (now apply cache_inv_delete).
  apply notin_keys_set; auto.
Qed.

Lemma handle_invariant e r st :
  invariant st ->
  invariant (fst (handle rpID origin verifyRegistrationResponse
                    verifyAuthenticationResponse e r st)).
Proof.
  intros I. destruct r as [name|name response|name|name response| |jar]; simpl.
  - now apply register_options_invariant.
  - now apply register_verify_invariant.
  - now apply login_options_invariant.
  - now apply login_verify_invariant.
  - exact I.
  - unfold me. destruct jar as [u|]; [|exact I].
    destruct (truthy (Some u) && LRU.has (now e) u (userCache st)); exact I.
Qed.

Lemma initial_invariant : invariant initial.
Proof.
  unfold invariant, cache_inv, initial, LRU.keys. simpl.
  repeat split; try constructor; auto; lia.
Qed.

Lemma reachable_invariant st :
  reachable rpID origin verifyRegistrationResponse
    verifyAuthenticationResponse st ->
  invariant st.
Proof.
  induction 1 as [|st e r _ IH].
  - apply initial_invariant.
  - now apply handle_invariant.
Qed.

End Invariant.

(** ** Reading the caches through the handlers *)

Section Lookups.

Context {V : Type}.
Implicit Types (c : LRU.t V) (k : string).

Lemma has_notin t k c : ~ In k (LRU.keys c) -> LRU.has t k c = false.
Proof.
  intros H. unfold LRU.has, LRU.peek.
  now rewrite (proj2 (find_is_key_none k (LRU.items c)) H).
Qed.

Lemma has_peek t k c :
  LRU.has t k c = true -> exists e, LRU.peek k c = Some e /\ LRU.key e = k.
Proof.
  intros H. apply get_live in H. destruct H as (e & P & K & _). eauto.
Qed.


End Lookups.

Lemma state_eta st :
  {| userCache := userCache st; challengeCache := challengeCache st |} = st.
Proof. now destruct st. Qed.

(** ** The two [*/verify] handlers, case by case *)

Lemma get_of_live {V : Type} t k (v : V) (c : LRU.t V) :
  option_map LRU.value (LRU.peek k c) = Some v ->
  LRU.has t k c = true ->
  LRU.get t k c = (Some v, snd (LRU.get t k c)).
Proof.
  intros P H. apply get_live in H. destruct H as (e & P' & _ & G).
  rewrite P' in P. simpl in P. inversion P; subst. now rewrite G.
Qed.

Lemma live_of_get {V : Type} t k (v : V) (c c' : LRU.t V) :
  LRU.get t k c = (Some v, c') ->
  option_map LRU.value (LRU.peek k c) = Some v /\ LRU.has t k c = true.
Proof.
  intros G. apply get_Some in G. destruct G as (e & P & <- & _ & S & _).
  unfold LRU.has. rewrite P, S. auto.
Qed.

Section Runs.

Variables rpID origin : string.
Variable verifyRegistrationResponse :
  ClientResponse -> string -> string -> string ->
  outcome VerifiedRegistrationResponse.
Variable verifyAuthenticationResponse :
  ClientResponse -> string -> string -> string -> WebAuthnCredential ->
  outcome VerifiedAuthenticationResponse.

Local Abbreviation register_verify :=
  (register_verify rpID origin verifyRegistrationResponse).
Local Abbreviation login_verify :=
  (login_verify rpID origin verifyAuthenticationResponse).

Lemma register_verify_run e u response st user c :
  live_user (now e) u user st ->
  live_challenge (now e) (id user) c st ->
  c <> "" ->
  register_verify e (Some u) response st
  = match verifyRegistrationResponse response c origin rpID with
    | Throws message => (looked_up e u user st, status400 (ErrorBody message))
    | Returns v =>
        match reg_verified v, registrationInfo v with
        | true, Some credential =>
            (committed e u user
               (devices user ++ [new_device credential response]) st,
             json (VerifiedBody true))
        | _, _ => (looked_up e u user st, status400 (VerifiedBody false))
        end
    end.
Proof.
  intros [Pu Hu] [Pc Hc] Hne. unfold register_verify, looked_up, committed.
  cbn [getUserByUsername].
  rewrite (get_of_live _ _ _ _ Pu Hu), (get_of_live _ _ _ _ Pc Hc).
  assert (truthy (Some c) = true) as -> by now apply truthy_Some.
  reflexivity.
Qed.

Lemma login_verify_run e u response st user c :
  live_user (now e) u user st ->
  live_challenge (now e) (id user) c st ->
  c <> "" ->
  login_verify e (Some u) response st
  = match
      match find (has_credentialID (resp_id response)) (devices user) with
      | None => Throws "Authenticator not found for this user"
      | Some device =>
          verifyAuthenticationResponse response c origin rpID
            (credential_of device)
      end
    with
    | Throws message => (looked_up e u user st, status400 (ErrorBody message))
    | Returns v =>
        if auth_verified v then
          (committed e u user
             (set_counter (resp_id response) (newCounter v) (devices user)) st,
           {| status := 200; body := VerifiedBody true; cookie := CookieSet u |})
        else (looked_up e u user st, status400 (VerifiedBody false))
    end.
Proof.
  intros [Pu Hu] [Pc Hc] Hne. unfold login_verify, looked_up, committed.
  cbn [getUserByUsername].
  rewrite (get_of_live _ _ _ _ Pu Hu), (get_of_live _ _ _ _ Pc Hc).
  assert (truthy (Some c) = true) as -> by now apply truthy_Some.
  reflexivity.
Qed.

(** Without a live, non-empty challenge a known user is turned away. *)
Lemma register_verify_no_challenge e u response st user :
  live_user (now e) u user st ->
  (forall c, live_challenge (now e) (id user) c st -> c = "") ->
  snd (register_verify e (Some u) response st)
  = status400 (ErrorBody "Challenge expired or not found").
Proof.
  intros [Pu Hu] Hc. unfold register_verify. cbn [getUserByUsername].
  rewrite (get_of_live _ _ _ _ Pu Hu).
  destruct (LRU.get (now e) (id user) (challengeCache st)) as [[c|] cc] eqn:G;
    [|reflexivity].
  apply live_of_get in G. rewrite (Hc c G). reflexivity.
Qed.

Lemma login_verify_no_challenge e u response st user :
  live_user (now e) u user st ->
  (forall c, live_challenge (now e) (id user) c st -> c = "") ->
  snd (login_verify e (Some u) response st)
  = status400 (ErrorBody "Challenge expired or not found").
Proof.
  intros [Pu Hu] Hc. unfold login_verify. cbn [getUserByUsername].
  rewrite (get_of_live _ _ _ _ Pu Hu).
  destruct (LRU.get (now e) (id user) (challengeCache st)) as [[c|] cc] eqn:G;
    [|reflexivity].
  apply live_of_get in G. rewrite (Hc c G). reflexivity.
Qed.

(** An unknown user is turned away. *)
Lemma register_verify_no_user e name response st :
  known (now e) name st = false ->
  snd (register_verify e name response st)
  = status400 (ErrorBody "User not found").
Proof.
  intros K. unfold register_verify. destruct name as [u|]; [|reflexivity].
  cbn [getUserByUsername known] in *.
  destruct (LRU.get (now e) u (userCache st)) as [[user|] uc] eqn:G;
    [|reflexivity].
  apply live_of_get in G. destruct G. congruence.
Qed.

Lemma login_verify_no_user e name response st :
  known (now e) name st = false ->
  snd (login_verify e name response st)
  = status400 (ErrorBody "User not found").
Proof.
  intros K. unfold login_verify. destruct name as [u|]; [|reflexivity].
  cbn [getUserByUsername known] in *.
  destruct (LRU.get (now e) u (userCache st)) as [[user|] uc] eqn:G;
    [|reflexivity].
  apply live_of_get in G. destruct G. congruence.
Qed.

(** What [looked_up] and [committed] leave in the caches. *)
Lemma looked_up_users e u user st k :
  live_user (now e) u user st ->
  LRU.peek k (userCache (looked_up e u user st)) = LRU.peek k (userCache st).
Proof.
  intros [P H]. unfold looked_up. cbn [userCache].
  apply (peek_get_hit (now e) u _ user). now apply get_of_live.
Qed.

Lemma looked_up_challenges e u user st c k :
  live_challenge (now e) (id user) c st ->
  LRU.peek k (challengeCache (looked_up e u user st))
  = LRU.peek k (challengeCache st).
Proof.
  intros [P H]. unfold looked_up. cbn [challengeCache].
  apply (peek_get_hit (now e) (id user) _ c). now apply get_of_live.
Qed.

Lemma looked_up_live_challenge e u user st c t :
  live_challenge (now e) (id user) c st ->
  LRU.has t (id user) (challengeCache st) = true ->
  live_challenge t (id user) c (looked_up e u user st).
Proof.
  intros L H. pose proof L as [P H']. split.
  - unfold stored_challenge. now rewrite (looked_up_challenges _ _ _ _ _ _ L).
  - unfold looked_up. cbn [challengeCache].
    now rewrite (has_get_hit (now e) (id user) (challengeCache st) c _ t
                   (id user) (get_of_live _ _ _ _ P H')).
Qed.

Lemma committed_challenge e u user l st :
  stored_challenge (id user) (committed e u user l st) = None.
Proof.
  unfold stored_challenge, committed. cbn [challengeCache].
  now rewrite peek_delete_same.
Qed.

Lemma committed_user e u user l st :
  LRU.peek u (userCache (committed e u user l st))
  = Some {| LRU.key := u; LRU.value := with_devices user l;
            LRU.start := now e |}.
Proof. unfold committed. cbn [userCache]. apply peek_set_same. Qed.

(** [/register/options] for a non-empty name: the user is found or
    created, and the drawn challenge is stored under the user's id. *)
Lemma register_options_issue e u st :
  invariant st -> u <> "" ->
  exists user uc,
    register_options rpID e (Some u) st
    = ({| userCache := uc;
          challengeCache :=
            LRU.set (now e) (id user) (freshChallenge e) (challengeCache st) |},
       json (RegistrationOptionsBody (generateRegistrationOptions rpID e user)))
    /\ option_map LRU.value (LRU.peek u uc) = Some user
    /\ LRU.has (now e) u uc = true
    /\ (LRU.has (now e) u (userCache st) = true ->
        stored_user u st = Some user).
Proof.
  intros ((_ & T & _) & _ & _) Hu. unfold register_options.
  assert (truthy (Some u) = true) as -> by now apply truthy_Some.
  cbn [getUserByUsername].
  destruct (LRU.get (now e) u (userCache st)) as [[user|] uc] eqn:G.
  - exists user, uc. split; [reflexivity|].
    pose proof (live_of_get _ _ _ _ _ G) as [P H].
    rewrite <- (peek_get_hit _ _ _ _ _ u G) in P.
    rewrite <- (has_get_hit _ _ _ _ _ (now e) u G) in H.
    unfold stored_user. rewrite <- (peek_get_hit _ _ _ _ _ u G). auto.
  - pose proof (get_None _ _ _ _ G) as (K & D & _).
    exists {| id := randomUUID e; username := u; devices := [] |},
           (LRU.set (now e) u
              {| id := randomUUID e; username := u; devices := [] |} uc).
    split; [reflexivity|]. rewrite peek_set_same.
    repeat split; auto.
    + apply has_set_same. destruct D as [->| ->]; simpl; lia.
    + congruence.
Qed.

Lemma login_options_issue e u user st :
  live_user (now e) u user st ->
  login_options rpID e (Some u) st
  = ({| userCache := snd (LRU.get (now e) u (userCache st));
        challengeCache :=
          LRU.set (now e) (id user) (freshChallenge e) (challengeCache st) |},
     json (AuthenticationOptionsBody (generateAuthenticationOptions rpID e user))).
Proof.
  intros [P H]. unfold login_options. cbn [getUserByUsername].
  now rewrite (get_of_live _ _ _ _ P H).
Qed.

(** A challenge stored at [e] is live for five minutes. *)
Lemma issued_challenge_live e uid c uc (cc : LRU.t string) t :
  LRU.ttl cc = 300000 -> t - now e <= 300000 ->
  live_challenge t uid c
    {| userCache := uc; challengeCache := LRU.set (now e) uid c cc |}.
Proof.
  intros T H. split.
  - unfold stored_challenge. cbn [challengeCache].
    now rewrite peek_set_same.
  - cbn [challengeCache]. apply has_set_same. lia.
Qed.


Lemma login_verify_success_inv e name response st :
  body (snd (login_verify e name response st)) = VerifiedBody true ->
  exists u user c d v,
    name = Some u /\
    live_user (now e) u user st /\
    live_challenge (now e) (id user) c st /\
    c <> "" /\
    find (has_credentialID (resp_id response)) (devices user) = Some d /\
    verifyAuthenticationResponse response c origin rpID (credential_of d)
    = Returns v /\
    auth_verified v = true.
Proof.
  unfold login_verify. destruct name as [u|]; [|discriminate].
  cbn [getUserByUsername].
  destruct (LRU.get (now e) u (userCache st)) as [[user|] uc] eqn:Gu;
    [|discriminate].
  destruct (LRU.get (now e) (id user) (challengeCache st)) as [[c|] cc] eqn:Gc;
    [|discriminate].
  destruct (truthy (Some c)) eqn:T; [|discriminate].
  apply truthy_Some in T.
  destruct (find (has_credentialID (resp_id response)) (devices user))
    as [d|] eqn:F; [|discriminate].
  destruct (verifyAuthenticationResponse response c origin rpID
              (credential_of d)) as [m|v] eqn:Hv; [discriminate|].
  destruct (auth_verified v) eqn:Hver; [|discriminate].
  intros _. exists u, user, c, d, v.
  repeat split; auto; now apply live_of_get in Gu, Gc.
Qed.

(** For a user that is live, [/register/options] and [/login/options]
    treat the caches alike. *)
Lemma register_options_live e u user st :
  u <> "" ->
  live_user (now e) u user st ->
  register_options rpID e (Some u) st
  = ({| userCache := snd (LRU.get (now e) u (userCache st));
        challengeCache :=
          LRU.set (now e) (id user) (freshChallenge e) (challengeCache st) |},
     json (RegistrationOptionsBody (generateRegistrationOptions rpID e user))).
Proof.
  intros Hu [P H]. unfold register_options.
  assert (truthy (Some u) = true) as -> by now apply truthy_Some.
  cbn [getUserByUsername]. now rewrite (get_of_live _ _ _ _ P H).
Qed.

Lemma live_user_nonempty t u user st :
  invariant st -> live_user t u user st -> u <> "".
Proof.
  intros (_ & _ & E) [_ H] ->. now rewrite (has_notin _ _ _ E) in H.
Qed.

(** After a lookup of a live user, that user is as live as before. *)
Lemma live_user_after_get e u user st cc t :
  live_user (now e) u user st ->
  LRU.has t u (userCache st) = true ->
  live_user t u user
    {| userCache := snd (LRU.get (now e) u (userCache st));
       challengeCache := cc |}.
Proof.
  intros [P H] Ht.
  pose proof (get_of_live _ _ _ _ P H) as G. split.
  - unfold stored_user in *. cbn [userCache].
    now rewrite (peek_get_hit _ _ _ _ _ u G).
  - cbn [userCache]. now rewrite (has_get_hit _ _ _ _ _ t u G).
Qed.

(** [set_counter] updates the device that [find] returns and no other. *)
Lemma set_counter_find cid n l d :
  find (has_credentialID cid) l = Some d ->
  find (has_credentialID cid) (set_counter cid n l) = Some (with_counter d n).
Proof.
  induction l as [|a l IH]; simpl; [discriminate|].
  destruct (has_credentialID cid a) eqn:E.
  - intros H. inversion H; subst. simpl.
    unfold has_credentialID in *. simpl. now rewrite E.
  - intros H. simpl. rewrite E. auto.
Qed.

Lemma counter_advanced_refl d : counter_advanced d d.
Proof. unfold counter_advanced. repeat split; lia. Qed.

Lemma set_counter_advances cid n l d :
  find (has_credentialID cid) l = Some d ->
  counter d <= n ->
  Forall2 counter_advanced l (set_counter cid n l).
Proof.
  induction l as [|a l IH]; simpl; [discriminate|].
  destruct (has_credentialID cid a) eqn:E; intros H Hn.
  - inversion H; subst. constructor.
    + unfold counter_advanced. simpl. auto.
    + clear. induction l; constructor; auto using counter_advanced_refl.
  - constructor; [apply counter_advanced_refl | auto].
Qed.

End Runs.

Section Properties.

Variables rpID origin : string.
Variable verifyRegistrationResponse :
  ClientResponse -> string -> string -> string ->
  outcome VerifiedRegistrationResponse.
Variable verifyAuthenticationResponse :
  ClientResponse -> string -> string -> string -> WebAuthnCredential ->
  outcome VerifiedAuthenticationResponse.

Local Abbreviation reachable :=
  (reachable rpID origin verifyRegistrationResponse
     verifyAuthenticationResponse).
Local Abbreviation register_options := (register_options rpID).
Local Abbreviation login_options := (login_options rpID).
Local Abbreviation register_verify :=
  (register_verify rpID origin verifyRegistrationResponse).
Local Abbreviation login_verify :=
  (login_verify rpID origin verifyAuthenticationResponse).

(** C5. For a username that the Credential Store does not know,
    [/login/options] answers 400 "User not found", creates no user (no
    entry is added to the user cache, the challenge cache is untouched, and
    when no entry at all is stored under the name the whole state is
    unchanged), whereas [/register/options] for the same username, if it is
    non-empty, creates the user: afterwards a fresh record with the drawn
    id and no devices is live under that name, and the options for it are
    returned. *)
Theorem C5_unknown_user_asymmetry :
  forall st e name,
    reachable st ->
    known (now e) name st = false ->
    (snd (login_options e name st) = status400 (ErrorBody "User not found") /\
     known (now e) name (fst (login_options e name st)) = false /\
     incl (LRU.items (userCache (fst (login_options e name st))))
          (LRU.items (userCache st)) /\
     challengeCache (fst (login_options e name st)) = challengeCache st /\
     ((forall u, name = Some u -> stored_user u st = None) ->
      fst (login_options e name st) = st)) /\
    (forall u,
        name = Some u -> u <> "" ->
        let user := {| id := randomUUID e; username := u; devices := [] |} in
        snd (register_options e name st)
        = json (RegistrationOptionsBody
                  (generateRegistrationOptions rpID e user)) /\
        live_user (now e) u user (fst (register_options e name st))).
Proof.
  intros st e name R K. apply reachable_invariant in R.
  destruct R as ((_ & T & _) & _ & E). split.
  - unfold login_options. destruct name as [u|]; cbn [getUserByUsername].
    + simpl in K.
      destruct (LRU.get (now e) u (userCache st)) as [[user|] uc] eqn:G.
      * apply get_Some in G. destruct G as (en & P & _ & _ & S & _).
        unfold LRU.has in K. rewrite P, S in K. discriminate.
      * apply get_None in G. destruct G as (_ & D & P).
        cbn [fst snd userCache challengeCache known].
        repeat split; auto.
        -- destruct D as [->| ->]; [exact K|].
           unfold LRU.has. now rewrite peek_delete_same.
        -- destruct D as [->| ->]; [apply incl_refl | apply remove_incl].
        -- intros Hn. specialize (Hn u eq_refl). unfold stored_user in Hn.
           destruct (LRU.peek u (userCache st)) eqn:P'; [discriminate|].
           rewrite (P eq_refl). apply state_eta.
    + cbn [fst snd userCache challengeCache known].
      repeat split; auto using incl_refl. intros _. apply state_eta.
  - intros u -> Hu user. unfold register_options.
    assert (truthy (Some u) = true) as -> by now apply truthy_Some.
    cbn [getUserByUsername]. simpl in K.
    destruct (LRU.get (now e) u (userCache st)) as [[user'|] uc] eqn:G.
    + apply get_Some in G. destruct G as (en & P & _ & _ & S & _).
      unfold LRU.has in K. rewrite P, S in K. discriminate.
    + apply get_None in G. destruct G as (_ & D & _).
      unfold createUser. fold user. cbn [fst snd userCache].
      split; [reflexivity|]. unfold live_user, stored_user.
      cbn [userCache]. rewrite peek_set_same. split; [reflexivity|].
      apply has_set_same. destruct D as [->| ->]; simpl; lia.
Qed.

(** C7. [/me] changes nothing and answers [{loggedIn: true, username}]
    exactly when the presented cookie names a username that the
    Credential Store still knows, and [{loggedIn: false}] otherwise;
    [/logout] always answers 200 [{success: true}] and clears the cookie,
    after which [/me] answers [{loggedIn: false}]. *)
Theorem C7_me_and_logout :
  forall st e jar,
    reachable st ->
    fst (me e jar st) = st /\
    snd (me e jar st)
    = json (MeBody (known (now e) jar st)
              (if known (now e) jar st then jar else None)) /\
    (forall u,
        snd (me e jar st) = json (MeBody true (Some u)) <->
        jar = Some u /\ LRU.has (now e) u (userCache st) = true) /\
    logout st
    = (st, {| status := 200; body := SuccessBody; cookie := CookieClear |}) /\
    (forall e',
        snd (me e' (apply_cookie (cookie (snd (logout st))) jar)
               (fst (logout st)))
        = json (MeBody false None)).
Proof.
  intros st e jar R. apply reachable_invariant in R.
  destruct R as (_ & _ & E).
  assert (snd (me e jar st)
          = json (MeBody (known (now e) jar st)
                    (if known (now e) jar st then jar else None))) as Hme.
  { unfold me, known. destruct jar as [u|]; [|reflexivity].
    destruct (String.eqb_spec u "") as [->|Hu].
    - rewrite (has_notin _ _ _ E). reflexivity.
    - assert (truthy (Some u) = true) as -> by now apply truthy_Some.
      simpl. destruct (LRU.has (now e) u (userCache st)); reflexivity. }
  split; [|split; [exact Hme|split; [|split]]].
  - unfold me. destruct jar as [u|]; [|reflexivity].
    destruct (truthy (Some u) && LRU.has (now e) u (userCache st)); reflexivity.
  - intros u. rewrite Hme. unfold known. destruct jar as [u'|].
    + destruct (LRU.has (now e) u' (userCache st)) eqn:H; split.
      * intros Heq. inversion Heq; subst. auto.
      * intros [Heq _]. inversion Heq; subst. reflexivity.
      * discriminate.
      * intros [Heq H']. inversion Heq; subst. congruence.
    + split; [discriminate | intros [? _]; discriminate].
  - reflexivity.
  - reflexivity.
Qed.

(** C6. When the verifier returns without exception a result that is not
    verified, [/login/verify] answers 400 [{verified: false}], sets no
    cookie, and leaves every stored user record (device lists and counters
    included) and every stored challenge as it was; [/register/verify]
    does the same. *)
Theorem C6_not_verified_changes_nothing :
  forall st e u user c response,
    live_user (now e) u user st ->
    live_challenge (now e) (id user) c st ->
    c <> "" ->
    (forall d v,
        find (has_credentialID (resp_id response)) (devices user) = Some d ->
        verifyAuthenticationResponse response c origin rpID (credential_of d)
        = Returns v ->
        auth_verified v = false ->
        let out := login_verify e (Some u) response st in
        snd out = status400 (VerifiedBody false) /\
        cookie (snd out) = CookieUntouched /\
        same_entries (userCache st) (userCache (fst out)) /\
        same_entries (challengeCache st) (challengeCache (fst out))) /\
    (forall v,
        verifyRegistrationResponse response c origin rpID = Returns v ->
        reg_verified v = false ->
        let out := register_verify e (Some u) response st in
        snd out = status400 (VerifiedBody false) /\
        cookie (snd out) = CookieUntouched /\
        same_entries (userCache st) (userCache (fst out)) /\
        same_entries (challengeCache st) (challengeCache (fst out))).
Proof.
  intros st e u user c response Lu Lc Hc. split.
  - intros d v F Hv Hf out. subst out.
    rewrite (login_verify_run _ _ _ _ _ _ _ _ _ Lu Lc Hc), F, Hv, Hf.
    cbn [fst snd]. repeat split.
    + intros k. now apply looked_up_users.
    + intros k. now apply (looked_up_challenges _ _ _ _ c).
  - intros v Hv Hf out. subst out.
    rewrite (register_verify_run _ _ _ _ _ _ _ _ _ Lu Lc Hc), Hv, Hf.
    cbn [fst snd]. repeat split.
    + intros k. now apply looked_up_users.
    + intros k. now apply (looked_up_challenges _ _ _ _ c).
Qed.

Lemma count_credential_app cid l d :
  credentialID d = cid ->
  count_credential cid (l ++ [d]) = S (count_credential cid l).
Proof.
  intros H. unfold count_credential. rewrite filter_app, length_app. simpl.
  unfold has_credentialID at 2. rewrite H, String.eqb_refl. simpl. lia.
Qed.

(** C2, as the code has it.  [/register/verify] makes no duplicate check:
    whenever the verifier approves the response and reports a credential,
    the handler answers [{verified: true}] and appends the new device to
    the user's list, so the number of devices stored for the user under
    that credential id grows by one whatever was stored before. *)
Theorem C2_registration_appends_without_duplicate_check :
  forall st e u user c response v credential,
    live_user (now e) u user st ->
    live_challenge (now e) (id user) c st ->
    c <> "" ->
    verifyRegistrationResponse response c origin rpID = Returns v ->
    reg_verified v = true ->
    registrationInfo v = Some credential ->
    let out := register_verify e (Some u) response st in
    let l := (devices user ++ [new_device credential response])%list in
    snd out = json (VerifiedBody true) /\
    stored_user u (fst out) = Some (with_devices user l) /\
    count_credential (cred_id credential) l
    = S (count_credential (cred_id credential) (devices user)).
Proof.
  intros st e u user c response v credential Lu Lc Hc Hv Ht Hi out l.
  subst out l.
  rewrite (register_verify_run _ _ _ _ _ _ _ _ _ Lu Lc Hc), Hv, Ht, Hi.
  cbn [fst snd]. repeat split.
  - unfold stored_user. now rewrite committed_user.
  - now apply count_credential_app.
Qed.


(** What a failed verification answers, in one run. *)
Lemma register_verify_failure_reply st e u user c response :
  live_user (now e) u user st ->
  live_challenge (now e) (id user) c st ->
  c <> "" ->
  snd (register_verify e (Some u) response st)
  = registration_reply (verifyRegistrationResponse response c origin rpID).
Proof.
  intros Lu Lc Hc.
  rewrite (register_verify_run _ _ _ _ _ _ _ _ _ Lu Lc Hc).
  unfold registration_reply.
  destruct (verifyRegistrationResponse response c origin rpID) as [m|v];
    [reflexivity|].
  destruct (reg_verified v); [|reflexivity].
  destruct (registrationInfo v); reflexivity.
Qed.

Lemma login_verify_failure_reply st e u user c response d :
  live_user (now e) u user st ->
  live_challenge (now e) (id user) c st ->
  c <> "" ->
  find (has_credentialID (resp_id response)) (devices user) = Some d ->
  snd (login_verify e (Some u) response st)
  = authentication_reply u
      (verifyAuthenticationResponse response c origin rpID (credential_of d)).
Proof.
  intros Lu Lc Hc F.
  rewrite (login_verify_run _ _ _ _ _ _ _ _ _ Lu Lc Hc), F.
  unfold authentication_reply.
  destruct (verifyAuthenticationResponse response c origin rpID
              (credential_of d)) as [m|v]; [reflexivity|].
  destruct (auth_verified v); reflexivity.
Qed.

(** A [*/verify] request on a state that holds no challenge for the user
    never succeeds, and is answered "Challenge expired or not found" as
    long as the user is known. *)
Lemma verify_without_challenge st e u user r :
  verify_request u r ->
  (known (now e) (Some u) st = true -> stored_user u st = Some user) ->
  stored_challenge (id user) st = None ->
  body (snd (handle rpID origin verifyRegistrationResponse
               verifyAuthenticationResponse e r st)) <> VerifiedBody true /\
  (known (now e) (Some u) st = true ->
   snd (handle rpID origin verifyRegistrationResponse
          verifyAuthenticationResponse e r st)
   = status400 (ErrorBody "Challenge expired or not found")).
Proof.
  intros [response Hr] Hs Hc.
  assert (forall c, ~ live_challenge (now e) (id user) c st) as Hno.
  { intros c [P _]. congruence. }
  destruct (known (now e) (Some u) st) eqn:K.
  - assert (live_user (now e) u user st) as Lu by (split; auto).
    destruct Hr as [-> | ->]; cbn [handle].
    + rewrite (register_verify_no_challenge _ _ _ _ _ _ _ _ Lu);
        [split; [discriminate | reflexivity]|].
      intros c Lc. now destruct (Hno c).
    + rewrite (login_verify_no_challenge _ _ _ _ _ _ _ _ Lu);
        [split; [discriminate | reflexivity]|].
      intros c Lc. now destruct (Hno c).
  - destruct Hr as [-> | ->]; cbn [handle].
    + rewrite (register_verify_no_user _ _ _ _ _ _ _ K).
      split; [discriminate | discriminate].
    + rewrite (login_verify_no_user _ _ _ _ _ _ _ K).
      split; [discriminate | discriminate].
Qed.

(** C8, as the code has it.  In every reachable state the challenge cache
    holds at most one entry per user id, and each [*/options] request that
    is served replaces whatever was stored for the user by the challenge
    just drawn.  The entry is the challenge string alone. *)
Theorem C8_one_challenge_slot_per_user :
  forall st,
    reachable st ->
    NoDup (LRU.keys (challengeCache st)) /\
    (forall e u,
        u <> "" ->
        exists user,
          stored_user u (fst (register_options e (Some u) st)) = Some user /\
          LRU.peek (id user)
            (challengeCache (fst (register_options e (Some u) st)))
          = Some {| LRU.key := id user; LRU.value := freshChallenge e;
                    LRU.start := now e |} /\
          NoDup (LRU.keys
                   (challengeCache (fst (register_options e (Some u) st))))) /\
    (forall e u user,
        live_user (now e) u user st ->
        stored_user u (fst (login_options e (Some u) st)) = Some user /\
        LRU.peek (id user)
          (challengeCache (fst (login_options e (Some u) st)))
        = Some {| LRU.key := id user; LRU.value := freshChallenge e;
                  LRU.start := now e |} /\
        NoDup (LRU.keys
                 (challengeCache (fst (login_options e (Some u) st))))).
Proof.
  intros st R. apply reachable_invariant in R.
  pose proof R as (_ & (_ & _ & N & _) & _).
  split; [exact N|]. split.
  - intros e u Hu.
    destruct (register_options_issue rpID e u st R Hu)
      as (user & uc & Eq & P & _ & _).
    exists user. rewrite Eq. cbn [fst challengeCache].
    repeat split.
    + exact P.
    + apply peek_set_same.
    + now apply NoDup_keys_set.
  - intros e u user Lu.
    rewrite (login_options_issue rpID e u user st Lu). cbn [fst challengeCache].
    repeat split.
    + apply (live_user_after_get e u user st _ (now e) Lu). apply Lu.
    + apply peek_set_same.
    + now apply NoDup_keys_set.
Qed.

(** C10. The challenge cache has one slot per user id and stores the bare
    challenge.  For a live user: [/register/options] and [/login/options]
    leave the same challenge cache; a challenge issued by
    [/register/options] is the [expectedChallenge] that [/login/verify]
    hands to the verifier, whose outcome decides the answer, and a challenge
    issued by [/login/options] is likewise used by [/register/verify];
    options of either kind replace the pending challenge of the other. *)
Theorem C10_shared_untagged_challenge_slot :
  forall st e e' u user response,
    reachable st ->
    live_user (now e) u user st ->
    freshChallenge e <> "" ->
    now e' - now e <= 300000 ->
    LRU.has (now e') u (userCache st) = true ->
    let issued_by_register := fst (register_options e (Some u) st) in
    let issued_by_login := fst (login_options e (Some u) st) in
    challengeCache issued_by_register = challengeCache issued_by_login /\
    (forall d,
        find (has_credentialID (resp_id response)) (devices user) = Some d ->
        snd (login_verify e' (Some u) response issued_by_register)
        = authentication_reply u
            (verifyAuthenticationResponse response (freshChallenge e)
               origin rpID (credential_of d))) /\
    snd (register_verify e' (Some u) response issued_by_login)
    = registration_reply
        (verifyRegistrationResponse response (freshChallenge e) origin rpID) /\
    stored_challenge (id user)
      (fst (login_options e' (Some u) issued_by_register))
    = Some (freshChallenge e') /\
    stored_challenge (id user)
      (fst (register_options e' (Some u) issued_by_login))
    = Some (freshChallenge e').
Proof.
  intros st e e' u user response R Lu Hc Ht Hlive reg_st log_st.
  apply reachable_invariant in R.
  pose proof (live_user_nonempty _ _ _ _ R Lu) as Hu.
  destruct R as (_ & (_ & T & _) & _).
  subst reg_st log_st.
  rewrite (register_options_live rpID e u user st Hu Lu).
  rewrite (login_options_issue rpID e u user st Lu).
  cbn [fst].
  set (st1 := {| userCache := snd (LRU.get (now e) u (userCache st));
                 challengeCache :=
                   LRU.set (now e) (id user) (freshChallenge e)
                     (challengeCache st) |}).
  assert (live_user (now e') u user st1) as Lu1
      by now apply live_user_after_get.
  assert (live_challenge (now e') (id user) (freshChallenge e) st1) as Lc1
      by now apply issued_challenge_live.
  split; [reflexivity|]. split; [|split; [|split]].
  - intros d F. now apply (login_verify_failure_reply st1 e' u user).
  - now apply (register_verify_failure_reply st1 e' u user).
  - rewrite (login_options_issue rpID e' u user st1 Lu1).
    unfold stored_challenge. cbn [fst challengeCache].
    now rewrite peek_set_same.
  - rewrite (register_options_live rpID e' u user st1 Hu Lu1).
    unfold stored_challenge. cbn [fst challengeCache].
    now rewrite peek_set_same.
Qed.

End Properties.

(** C9, as the code has it.  A failed verification is answered with status
    400.  When the verifier returns without verifying, the body is
    [{verified: false}] whatever else the verifier's result holds; when the
    verifier throws, the body is [{error: message}] with the verifier's own
    message, so two runs that differ only in the verifier's failure reason
    get the same answer exactly when the two messages are equal. *)
Theorem C9_failure_reply_exposes_verifier_message :
  forall rpID origin
         (verifyRegistration1 verifyRegistration2 :
            ClientResponse -> string -> string -> string ->
            outcome VerifiedRegistrationResponse)
         (verifyAuthentication1 verifyAuthentication2 :
            ClientResponse -> string -> string -> string ->
            WebAuthnCredential -> outcome VerifiedAuthenticationResponse)
         st e u user c response,
    live_user (now e) u user st ->
    live_challenge (now e) (id user) c st ->
    c <> "" ->
    let register1 :=
      snd (register_verify rpID origin verifyRegistration1 e (Some u) response st) in
    let register2 :=
      snd (register_verify rpID origin verifyRegistration2 e (Some u) response st) in
    let login1 :=
      snd (login_verify rpID origin verifyAuthentication1 e (Some u) response st) in
    let login2 :=
      snd (login_verify rpID origin verifyAuthentication2 e (Some u) response st) in
    (forall m1 m2,
        verifyRegistration1 response c origin rpID = Throws m1 ->
        verifyRegistration2 response c origin rpID = Throws m2 ->
        register1 = status400 (ErrorBody m1) /\
        register2 = status400 (ErrorBody m2) /\
        (register1 = register2 <-> m1 = m2)) /\
    (forall v1 v2,
        verifyRegistration1 response c origin rpID = Returns v1 ->
        verifyRegistration2 response c origin rpID = Returns v2 ->
        reg_verified v1 = false -> reg_verified v2 = false ->
        register1 = status400 (VerifiedBody false) /\ register1 = register2) /\
    (forall d m1 m2,
        find (has_credentialID (resp_id response)) (devices user) = Some d ->
        verifyAuthentication1 response c origin rpID (credential_of d) = Throws m1 ->
        verifyAuthentication2 response c origin rpID (credential_of d) = Throws m2 ->
        login1 = status400 (ErrorBody m1) /\
        login2 = status400 (ErrorBody m2) /\
        (login1 = login2 <-> m1 = m2)) /\
    (forall d v1 v2,
        find (has_credentialID (resp_id response)) (devices user) = Some d ->
        verifyAuthentication1 response c origin rpID (credential_of d) = Returns v1 ->
        verifyAuthentication2 response c origin rpID (credential_of d) = Returns v2 ->
        auth_verified v1 = false -> auth_verified v2 = false ->
        login1 = status400 (VerifiedBody false) /\ login1 = login2).
Proof.
  intros rpID origin V1 V2 A1 A2 st e u user c response Lu Lc Hc r1 r2 l1 l2.
  subst r1 r2 l1 l2.
  rewrite !(register_verify_failure_reply _ _ _ st e u user c response Lu Lc Hc).
  split; [|split; [|split]].
  - intros m1 m2 E1 E2. rewrite E1, E2. simpl. repeat split.
    + intros Heq. now inversion Heq.
    + now intros ->.
  - intros v1 v2 E1 E2 F1 F2. rewrite E1, E2. simpl. now rewrite F1, F2.
  - intros d m1 m2 F E1 E2.
    rewrite !(login_verify_failure_reply _ _ _ st e u user c response d
                Lu Lc Hc F), E1, E2.
    simpl. repeat split.
    + intros Heq. now inversion Heq.
    + now intros ->.
  - intros d v1 v2 F E1 E2 F1 F2.
    rewrite !(login_verify_failure_reply _ _ _ st e u user c response d
                Lu Lc Hc F), E1, E2.
    simpl. now rewrite F1, F2.
Qed.

(** ** Concrete runs *)

Import Sample.

Lemma alice_pending_reachable V A : reachable rpID origin V A alice_pending.
Proof.
  exact (reachable_step rpID origin V A
           initial (env 0 "uuid-alice" "challenge-1")
           (PostRegisterOptions (Some "alice"))
           (reachable_initial _ _ _ _)).
Qed.

Lemma alice_registered_reachable A :
  reachable rpID origin approve_registration A alice_registered.
Proof.
  exact (reachable_step rpID origin approve_registration A
           alice_pending (env 1000 "unused" "unused")
           (PostRegisterVerify (Some "alice") cred1)
           (alice_pending_reachable _ _)).
Qed.


(** C2 fails on the code: alice holds credential "cred-1"; bob then
    registers the same credential id, the answer is [{verified: true}], and
    a device with that id is appended to bob's list as well. *)
Lemma C2_counterexample :
  let second :=
    register_verify rpID origin approve_registration
      (env 4000 "unused" "unused") (Some "bob") cred1 bob_pending in
  stored_user "alice" bob_pending = Some alice1 /\
  map credentialID (devices alice1) = ["cred-1"] /\
  snd second = json (VerifiedBody true) /\
  option_map (fun user => map credentialID (devices user))
    (stored_user "bob" (fst second)) = Some ["cred-1"] /\
  option_map (fun user => map credentialID (devices user))
    (stored_user "alice" (fst second)) = Some ["cred-1"].
Proof. cbv zeta. repeat split; reflexivity. Qed.

Lemma C2_witness :
  let bob0 := {| id := "uuid-bob"; username := "bob"; devices := [] |} in
  live_user 4000 "bob" bob0 bob_pending /\
  live_challenge 4000 "uuid-bob" "challenge-3" bob_pending /\
  snd (register_verify rpID origin approve_registration
         (env 4000 "unused" "unused") (Some "bob") cred1 bob_pending)
  = json (VerifiedBody true).
Proof.
  intros bob0.
  assert (Lu : live_user 4000 "bob" bob0 bob_pending) by (split; reflexivity).
  assert (Lc : live_challenge 4000 (id bob0) "challenge-3" bob_pending)
    by (split; reflexivity).
  assert (Hc : "challenge-3" <> "") by discriminate.
  pose proof (C2_registration_appends_without_duplicate_check
                rpID origin approve_registration
                bob_pending (env 4000 "unused" "unused") "bob" bob0
                "challenge-3" cred1 _ _ Lu Lc Hc eq_refl eq_refl eq_refl) as H.
  cbv zeta in H. destruct H as [A _].
  repeat split; try assumption.
Defined.


Lemma C5_witness :
  let e := env 0 "uuid-bob" "challenge-1" in
  reachable rpID origin approve_registration approve_authentication initial /\
  known (now e) (Some "bob") initial = false /\
  snd (login_options rpID e (Some "bob") initial)
  = status400 (ErrorBody "User not found") /\
  fst (login_options rpID e (Some "bob") initial) = initial /\
  live_user 0 "bob" {| id := "uuid-bob"; username := "bob"; devices := [] |}
    (fst (register_options rpID e (Some "bob") initial)).
Proof.
  intros e.
  assert (R : reachable rpID origin approve_registration approve_authentication
                initial) by apply reachable_initial.
  assert (K : known (now e) (Some "bob") initial = false) by reflexivity.
  destruct (C5_unknown_user_asymmetry
              rpID origin approve_registration approve_authentication
              initial e (Some "bob") R K)
    as [(A & _ & _ & _ & B) C].
  split; [exact R|]. split; [exact K|]. split; [exact A|].
  split; [apply B; intros u _; reflexivity|].
  assert (Hb : "bob" <> "") by discriminate.
  exact (proj2 (C "bob" eq_refl Hb)).
Defined.

Lemma C6_witness :
  live_user 3000 "alice" alice1 alice_login_pending /\
  live_challenge 3000 "uuid-alice" "challenge-2" alice_login_pending /\
  (let out :=
     login_verify rpID origin decline_authentication
       (env 3000 "unused" "unused") (Some "alice") cred1 alice_login_pending in
   snd out = status400 (VerifiedBody false) /\
   cookie (snd out) = CookieUntouched /\
   same_entries (userCache alice_login_pending) (userCache (fst out)) /\
   same_entries (challengeCache alice_login_pending) (challengeCache (fst out))).
Proof.
  assert (Lu : live_user 3000 "alice" alice1 alice_login_pending)
    by (split; reflexivity).
  assert (Lc : live_challenge 3000 (id alice1) "challenge-2" alice_login_pending)
    by (split; reflexivity).
  assert (Hc : "challenge-2" <> "") by discriminate.
  destruct (C6_not_verified_changes_nothing
              rpID origin decline_registration decline_authentication
              alice_login_pending (env 3000 "unused" "unused") "alice" alice1
              "challenge-2" cred1 Lu Lc Hc) as [A _].
  split; [exact Lu|]. split; [exact Lc|].
  exact (A device1 _ eq_refl eq_refl eq_refl).
Defined.

Lemma C7_witness :
  reachable rpID origin approve_registration approve_authentication
    alice_registered /\
  snd (me (env 5000 "unused" "unused") (Some "alice") alice_registered)
  = json (MeBody true (Some "alice")) /\
  snd (me (env 5000 "unused" "unused")
         (apply_cookie (cookie (snd (logout alice_registered))) (Some "alice"))
         (fst (logout alice_registered)))
  = json (MeBody false None).
Proof.
  destruct (C7_me_and_logout
              rpID origin approve_registration approve_authentication
              alice_registered (env 5000 "unused" "unused") (Some "alice")
              (alice_registered_reachable _))
    as (_ & A & _ & _ & B).
  split; [exact (alice_registered_reachable _)|].
  split; [exact A | exact (B _)].
Defined.

(** C8 fails on the code: for alice, the challenge cache after
    [/register/options] and after [/login/options] is the same, so nothing
    that reads the cache can tell a registration challenge from an
    authentication challenge. *)
Lemma C8_counterexample :
  let e := env 2000 "unused" "challenge-2" in
  let by_register :=
    challengeCache (fst (register_options rpID e (Some "alice") alice_registered)) in
  let by_login :=
    challengeCache (fst (login_options rpID e (Some "alice") alice_registered)) in
  LRU.items by_register
  = [{| LRU.key := "uuid-alice"; LRU.value := "challenge-2"; LRU.start := 2000 |}] /\
  by_register = by_login /\
  ~ exists purpose_of : LRU.t string -> string -> Purpose,
      purpose_of by_register "uuid-alice" = Registration /\
      purpose_of by_login "uuid-alice" = Authentication.
Proof.
  cbv zeta. split; [reflexivity|]. split; [reflexivity|].
  intros (purpose_of & R & A).
  change (challengeCache
            (fst (login_options rpID (env 2000 "unused" "challenge-2")
                    (Some "alice") alice_registered)))
    with (challengeCache
            (fst (register_options rpID (env 2000 "unused" "challenge-2")
                    (Some "alice") alice_registered))) in A.
  congruence.
Qed.

Lemma C8_witness :
  reachable rpID origin approve_registration approve_authentication
    alice_registered /\
  NoDup (LRU.keys (challengeCache alice_registered)) /\
  stored_challenge "uuid-alice"
    (fst (login_options rpID (env 2000 "unused" "challenge-2") (Some "alice")
            alice_registered))
  = Some "challenge-2".
Proof.
  assert (Lu : live_user 2000 "alice" alice1 alice_registered)
    by (split; reflexivity).
  destruct (C8_one_challenge_slot_per_user
              rpID origin approve_registration approve_authentication
              alice_registered (alice_registered_reachable _))
    as (N & _ & L).
  split; [exact (alice_registered_reachable _)|]. split; [exact N|].
  destruct (L (env 2000 "unused" "challenge-2") "alice" alice1 Lu)
    as (_ & P & _).
  unfold stored_challenge.
  change "uuid-alice" with (id alice1). now rewrite P.
Defined.

(** C9 fails on the code: two runs of [/register/verify] that differ only in
    the reason for which the verifier fails are answered differently, each
    with the verifier's own message. *)
Lemma C9_counterexample :
  let run reason :=
    snd (register_verify rpID origin (failing_registration reason)
           (env 1000 "unused" "unused") (Some "alice") cred1 alice_pending) in
  run "Unexpected registration response origin"
  = status400 (ErrorBody "Unexpected registration response origin") /\
  run "Credential ID was not base64url-encoded"
  = status400 (ErrorBody "Credential ID was not base64url-encoded") /\
  run "Unexpected registration response origin"
  <> run "Credential ID was not base64url-encoded".
Proof. cbv zeta beta. repeat split; try reflexivity. discriminate. Qed.

Lemma C9_witness :
  live_user 1000 "alice" alice0 alice_pending /\
  live_challenge 1000 "uuid-alice" "challenge-1" alice_pending /\
  snd (register_verify rpID origin
         (failing_registration "Unexpected registration response origin")
         (env 1000 "unused" "unused") (Some "alice") cred1 alice_pending)
  = status400 (ErrorBody "Unexpected registration response origin") /\
  snd (login_verify rpID origin decline_authentication
         (env 3000 "unused" "unused") (Some "alice") cred1 alice_login_pending)
  = status400 (VerifiedBody false).
Proof.
  assert (Lu : live_user 1000 "alice" alice0 alice_pending)
    by (split; reflexivity).
  assert (Lc : live_challenge 1000 (id alice0) "challenge-1" alice_pending)
    by (split; reflexivity).
  assert (Hc : "challenge-1" <> "") by discriminate.
  destruct (C9_failure_reply_exposes_verifier_message
              rpID origin
              (failing_registration "Unexpected registration response origin")
              (failing_registration "Credential ID was not base64url-encoded")
              decline_authentication approve_authentication
              alice_pending (env 1000 "unused" "unused") "alice" alice0
              "challenge-1" cred1 Lu Lc Hc) as (A & _).
  assert (Lu' : live_user 3000 "alice" alice1 alice_login_pending)
    by (split; reflexivity).
  assert (Lc' : live_challenge 3000 (id alice1) "challenge-2" alice_login_pending)
    by (split; reflexivity).
  assert (Hc' : "challenge-2" <> "") by discriminate.
  destruct (C9_failure_reply_exposes_verifier_message
              rpID origin decline_registration decline_registration
              decline_authentication decline_authentication
              alice_login_pending (env 3000 "unused" "unused") "alice" alice1
              "challenge-2" cred1 Lu' Lc' Hc') as (_ & _ & _ & B).
  split; [exact Lu|]. split; [exact Lc|].
  split; [exact (proj1 (A _ _ eq_refl eq_refl))|].
  exact (proj1 (B device1 _ _ eq_refl eq_refl eq_refl eq_refl eq_refl)).
Defined.

Lemma C10_witness :
  let e := env 2000 "unused" "challenge-2" in
  let e' := env 3000 "unused" "challenge-3" in
  reachable rpID origin approve_registration approve_authentication
    alice_registered /\
  live_user (now e) "alice" alice1 alice_registered /\
  snd (login_verify rpID origin approve_authentication e' (Some "alice") cred1
         (fst (register_options rpID e (Some "alice") alice_registered)))
  = {| status := 200; body := VerifiedBody true; cookie := CookieSet "alice" |} /\
  snd (register_verify rpID origin approve_registration e' (Some "alice") cred1
         (fst (login_options rpID e (Some "alice") alice_registered)))
  = json (VerifiedBody true).
Proof.
  intros e e'.
  assert (Lu : live_user (now e) "alice" alice1 alice_registered)
    by (split; reflexivity).
  assert (Hc : freshChallenge e <> "") by discriminate.
  assert (Ht : now e' - now e <= 300000) by (simpl; lia).
  destruct (C10_shared_untagged_challenge_slot
              rpID origin approve_registration approve_authentication
              alice_registered e e' "alice" alice1 cred1
              (alice_registered_reachable _) Lu Hc Ht eq_refl)
    as (_ & A & B & _).
  split; [exact (alice_registered_reachable _)|]. split; [exact Lu|].
  split; [exact (A device1 eq_refl) | exact B].
Defined.

(** ** Further properties of the handlers *)

(** *** More on the cache operations *)

Section CacheFrame.

Context {V : Type}.
Implicit Types (c : LRU.t V) (l : list (LRU.entry V)) (k : string).

Lemma find_firstn_some (p : LRU.entry V -> bool) n l e :
  find p (firstn n l) = Some e -> find p l = Some e.
Proof.
  revert n. induction l as [|a l IH]; intros [|n]; simpl; try discriminate.
  destruct (p a); [auto | apply IH].
Qed.

(** Whatever [set] leaves under another key was there before. *)
Lemma peek_set_other_some now k k' v c e :
  k' <> k ->
  LRU.peek k' (LRU.set now k v c) = Some e -> LRU.peek k' c = Some e.
Proof.
  intros Hne. unfold LRU.peek, LRU.set. simpl.
  assert (LRU.is_key k' {| LRU.key := k; LRU.value := v; LRU.start := now |}
          = false) as -> by (apply is_key_false; simpl; congruence).
  intros H. apply find_firstn_some in H.
  now rewrite (find_remove_other k k' _ Hne) in H.
Qed.

(** [set] keeps every other entry when it overwrites a key, or when there is
    room left. *)
Lemma peek_set_other_kept m t now k k' v c :
  cache_inv m t c ->
  k' <> k ->
  LRU.peek k c <> None \/ (List.length (LRU.items c) < m)%nat ->
  LRU.peek k' (LRU.set now k v c) = LRU.peek k' c.
Proof.
  intros I Hne Hroom. unfold LRU.peek at 1.
  rewrite (set_cases m t now k v c I). cbv zeta.
  assert (LRU.is_key k' {| LRU.key := k; LRU.value := v; LRU.start := now |}
          = false) as Hk by (apply is_key_false; simpl; congruence).
  destruct (LRU.peek k c) as [e|] eqn:P.
  - simpl. rewrite Hk. now apply find_remove_other.
  - destruct Hroom as [Hc | Hlt]; [congruence|].
    apply Nat.ltb_lt in Hlt. rewrite Hlt. simpl. now rewrite Hk.
Qed.

(** Whatever [get] leaves in the cache was there before. *)
Lemma peek_get_some now k k' c e :
  LRU.peek k' (snd (LRU.get now k c)) = Some e -> LRU.peek k' c = Some e.
Proof.
  destruct (LRU.get now k c) as [[v|] c'] eqn:G; simpl.
  - now rewrite (peek_get_hit _ _ _ _ _ k' G).
  - apply get_None in G. destruct G as (_ & [-> | ->] & _); [auto|].
    destruct (String.eqb_spec k' k) as [->|Hne].
    + now rewrite peek_delete_same.
    + now rewrite peek_delete_other.
Qed.

(** An entry older than [ttl] is not returned, and [get] drops it. *)
Lemma get_stale now k c e :
  LRU.peek k c = Some e ->
  LRU.ttl c < now - LRU.start e ->
  LRU.has now k c = false /\ LRU.get now k c = (None, LRU.delete k c).
Proof.
  intros P H. unfold LRU.has, LRU.get. rewrite P.
  assert (LRU.isStale now c e = true) as ->
      by (unfold LRU.isStale; now apply Z.ltb_lt).
  auto.
Qed.

End CacheFrame.

(** *** Input checks, lookups and the allow-list *)

Section Further.

Variables rpID origin : string.
Variable verifyRegistrationResponse :
  ClientResponse -> string -> string -> string ->
  outcome VerifiedRegistrationResponse.
Variable verifyAuthenticationResponse :
  ClientResponse -> string -> string -> string -> WebAuthnCredential ->
  outcome VerifiedAuthenticationResponse.
Variable JSON_parse : string -> option JSONValue.

Local Abbreviation reachable :=
  (reachable rpID origin verifyRegistrationResponse
     verifyAuthenticationResponse).
Local Abbreviation handle :=
  (handle rpID origin verifyRegistrationResponse
     verifyAuthenticationResponse).
Local Abbreviation register_options := (register_options rpID).
Local Abbreviation login_options := (login_options rpID).
Local Abbreviation register_verify :=
  (register_verify rpID origin verifyRegistrationResponse).
Local Abbreviation login_verify :=
  (login_verify rpID origin verifyAuthenticationResponse).

(** X1. [/register/options] answers 400 "Username is required" and leaves
    the state alone when the username is missing or empty.  For any other
    username it answers 200 with options that carry the drawn challenge, the
    base64url encoding of the bytes of the id and the name of the user
    record stored under that username, and that challenge is stored under
    the user's id. *)
Theorem X1_register_options_requires_username :
  forall e name st,
    (truthy name = false ->
     register_options e name st
     = (st, status400 (ErrorBody "Username is required"))) /\
    (truthy name = true ->
     exists u user,
       name = Some u /\ u <> "" /\
       stored_user u (fst (register_options e name st)) = Some user /\
       stored_challenge (id user) (fst (register_options e name st))
       = Some (freshChallenge e) /\
       snd (register_options e name st)
       = json (RegistrationOptionsBody
                 {| reg_challenge := freshChallenge e;
                    reg_rpName := "Passkey Demo";
                    reg_rpID := rpID;
                    reg_userID :=
                      isoBase64URL_fromBuffer (Buffer_from (id user));
                    reg_userName := username user;
                    attestationType := "none";
                    authenticatorSelection :=
                      {| residentKey := "preferred";
                         userVerification := "preferred";
                         authenticatorAttachment := "platform" |} |})).
Proof.
  intros e name st. split.
  - unfold register_options. destruct name as [u|]; [|reflexivity].
    now intros ->.
  - destruct name as [u|]; [|discriminate]. intros T.
    pose proof (proj1 (truthy_Some u) T) as Hu.
    unfold register_options. rewrite T. cbn [getUserByUsername].
    destruct (LRU.get (now e) u (userCache st)) as [[user|] uc] eqn:G.
    + exists u, user. cbn [fst snd]. repeat split; auto.
      * unfold stored_user. cbn [userCache].
        rewrite (peek_get_hit _ _ _ _ _ u G).
        now apply live_of_get in G.
      * unfold stored_challenge. cbn [challengeCache].
        now rewrite peek_set_same.
    + exists u, {| id := randomUUID e; username := u; devices := [] |}.
      unfold createUser. cbn [fst snd]. repeat split; auto.
      * unfold stored_user. cbn [userCache]. now rewrite peek_set_same.
      * unfold stored_challenge. cbn [challengeCache].
        now rewrite peek_set_same.
Qed.

(** X2. For a username whose record is live, [/register/options] creates
    nothing: every entry of the user cache, the record's age included, is as
    before, no fresh id is used, and the options name the existing user:
    their user id is the base64url encoding of the bytes of the stored id,
    their user name the stored username. *)
Theorem X2_register_options_keeps_known_user :
  forall st e u user,
    reachable st ->
    live_user (now e) u user st ->
    same_entries (userCache st) (userCache (fst (register_options e (Some u) st))) /\
    snd (register_options e (Some u) st)
    = json (RegistrationOptionsBody (generateRegistrationOptions rpID e user)) /\
    reg_userID (generateRegistrationOptions rpID e user)
    = isoBase64URL_fromBuffer (Buffer_from (id user)) /\
    reg_userName (generateRegistrationOptions rpID e user) = username user.
Proof.
  intros st e u user R Lu. apply reachable_invariant in R.
  pose proof (live_user_nonempty _ _ _ _ R Lu) as Hu.
  rewrite (register_options_live rpID e u user st Hu Lu). cbn [fst snd].
  repeat split. intros k. cbn [userCache]. destruct Lu as [P H].
  apply (peek_get_hit (now e) u _ user). now apply get_of_live.
Qed.

(** X3. Once [/register/verify] has stored a credential, [/login/options]
    for that user (within the 24 hours the record lives) answers with an
    allow-list naming the credential ids of the user's devices in order, the
    new one last, each of type "public-key" with the stored transports, and
    with the challenge drawn for this request. *)
Theorem X3_login_options_lists_registered_credentials :
  forall st e e' u user c response v credential,
    reachable st ->
    live_user (now e) u user st ->
    live_challenge (now e) (id user) c st ->
    c <> "" ->
    verifyRegistrationResponse response c origin rpID = Returns v ->
    reg_verified v = true ->
    registrationInfo v = Some credential ->
    now e' - now e <= 86400000 ->
    exists options,
      snd (login_options e' (Some u)
             (fst (register_verify e (Some u) response st)))
      = json (AuthenticationOptionsBody options) /\
      auth_challenge options = freshChallenge e' /\
      map allow_id (allowCredentials options)
      = (map credentialID (devices user) ++ [cred_id credential])%list /\
      map allow_transports (allowCredentials options)
      = (map transports (devices user) ++ [resp_transports response])%list /\
      Forall (fun a => allow_type a = "public-key") (allowCredentials options).
Proof.
  intros st e e' u user c response v cr R Lu Lc Hc Hv Ht Hi Hlate.
  apply reachable_invariant in R. destruct R as ((_ & T & _) & _ & _).
  rewrite (register_verify_run _ _ _ _ _ _ _ _ _ Lu Lc Hc), Hv, Ht, Hi.
  cbn [fst].
  set (l := (devices user ++ [new_device cr response])%list).
  assert (live_user (now e') u (with_devices user l) (committed e u user l st))
    as Lu'.
  { split.
    - unfold stored_user. now rewrite committed_user.
    - unfold committed. cbn [userCache]. apply has_set_same.
      destruct (config_get (now e) u (userCache st)) as [_ ->]. lia. }
  rewrite (login_options_issue rpID e' u _ _ Lu'). cbn [snd].
  eexists. split; [reflexivity|].
  unfold generateAuthenticationOptions.
  cbn [auth_challenge allowCredentials with_devices devices].
  split; [reflexivity|]. rewrite !map_map. split; [|split].
  - subst l. now rewrite map_app.
  - subst l. now rewrite map_app.
  - apply Forall_forall. intros a Ha. apply in_map_iff in Ha.
    destruct Ha as (d & <- & _). reflexivity.
Qed.

(** X4. When the response names a credential id that none of the user's
    devices carries, [/login/verify] answers 400 "Authenticator not found
    for this user" whatever the verifier would say; the cache entries are as
    before and the challenge stays live. *)
Theorem X4_login_verify_unknown_authenticator :
  forall st e u user c response,
    live_user (now e) u user st ->
    live_challenge (now e) (id user) c st ->
    c <> "" ->
    find (has_credentialID (resp_id response)) (devices user) = None ->
    let out := login_verify e (Some u) response st in
    snd out = status400 (ErrorBody "Authenticator not found for this user") /\
    same_entries (userCache st) (userCache (fst out)) /\
    same_entries (challengeCache st) (challengeCache (fst out)) /\
    live_challenge (now e) (id user) c (fst out).
Proof.
  intros st e u user c response Lu Lc Hc F out. subst out.
  rewrite (login_verify_run _ _ _ _ _ _ _ _ _ Lu Lc Hc), F. cbn [fst snd].
  split; [reflexivity|]. split; [|split].
  - intros k. now apply looked_up_users.
  - intros k. now apply (looked_up_challenges _ _ _ _ c).
  - apply looked_up_live_challenge; [exact Lc | apply Lc].
Qed.

(** X5. A challenge stored more than five minutes ago is refused: both
    [*/verify] routes answer 400 "Challenge expired or not found", whatever
    the response and the verifier, and drop the stale challenge. *)
Theorem X5_expired_challenge_refused :
  forall st e u user entry response,
    reachable st ->
    live_user (now e) u user st ->
    LRU.peek (id user) (challengeCache st) = Some entry ->
    300000 < now e - LRU.start entry ->
    (snd (register_verify e (Some u) response st)
     = status400 (ErrorBody "Challenge expired or not found") /\
     stored_challenge (id user) (fst (register_verify e (Some u) response st))
     = None) /\
    (snd (login_verify e (Some u) response st)
     = status400 (ErrorBody "Challenge expired or not found") /\
     stored_challenge (id user) (fst (login_verify e (Some u) response st))
     = None).
Proof.
  intros st e u user entry response R Lu P Hold.
  apply reachable_invariant in R. destruct R as (_ & (_ & T & _) & _).
  rewrite <- T in Hold.
  destruct (get_stale (now e) (id user) _ entry P Hold) as [_ G].
  destruct Lu as [Pu Hu]. pose proof (get_of_live _ _ _ _ Pu Hu) as Gu.
  split.
  - unfold register_verify. cbn [getUserByUsername]. rewrite Gu, G.
    cbn [truthy fst snd]. split; [reflexivity|].
    unfold stored_challenge. cbn [challengeCache]. now rewrite peek_delete_same.
  - unfold login_verify. cbn [getUserByUsername]. rewrite Gu, G.
    cbn [truthy fst snd]. split; [reflexivity|].
    unfold stored_challenge. cbn [challengeCache]. now rewrite peek_delete_same.
Qed.

(** X6. A user record written more than 24 hours ago is forgotten:
    [/login/options] and both [*/verify] routes answer 400 "User not found",
    [/me] answers [{loggedIn: false}] for a cookie naming the user, and
    [/register/options] starts the user afresh, with the id just drawn and
    no devices. *)
Theorem X6_expired_user_forgotten :
  forall st e u entry response,
    reachable st ->
    LRU.peek u (userCache st) = Some entry ->
    86400000 < now e - LRU.start entry ->
    snd (login_options e (Some u) st) = status400 (ErrorBody "User not found") /\
    snd (register_verify e (Some u) response st)
    = status400 (ErrorBody "User not found") /\
    snd (login_verify e (Some u) response st)
    = status400 (ErrorBody "User not found") /\
    snd (me e (Some u) st) = json (MeBody false None) /\
    stored_user u (fst (register_options e (Some u) st))
    = Some {| id := randomUUID e; username := u; devices := [] |}.
Proof.
  intros st e u entry response R P Hold.
  apply reachable_invariant in R. destruct R as ((_ & T & _) & _ & E).
  rewrite <- T in Hold.
  destruct (get_stale (now e) u _ entry P Hold) as [H G].
  assert (u <> "") as Hu.
  { intros ->. apply E. apply find_is_key in P. destruct P as [K I].
    rewrite <- K. now apply in_map. }
  split; [|split; [|split; [|split]]].
  - unfold login_options. cbn [getUserByUsername]. now rewrite G.
  - now apply register_verify_no_user.
  - now apply login_verify_no_user.
  - unfold me. rewrite H. now rewrite andb_false_r.
  - unfold register_options.
    assert (truthy (Some u) = true) as -> by now apply truthy_Some.
    cbn [getUserByUsername]. rewrite G. unfold createUser. cbn [fst].
    unfold stored_user. cbn [userCache]. now rewrite peek_set_same.
Qed.

(** X7. A successful [/login/verify] answers 200 and sets the [username]
    cookie to the username of the request.  When the username does not
    start with [j:], [/me] with that cookie answers
    [{loggedIn: true, username}] for the next 24 hours on the state the
    login left; when [cookie-parser] turns the cookie into a value that is
    not a string, [/me] answers [{loggedIn: false}]. *)
Theorem X7_login_opens_session :
  forall st e name response,
    reachable st ->
    body (snd (login_verify e name response st)) = VerifiedBody true ->
    exists u,
      name = Some u /\
      snd (login_verify e name response st)
      = {| status := 200; body := VerifiedBody true; cookie := CookieSet u |} /\
      (forall e' jar,
          String.prefix "j:" u = false ->
          now e' - now e <= 86400000 ->
          snd (me_route JSON_parse e'
                 (apply_cookie (cookie (snd (login_verify e name response st)))
                    jar)
                 (fst (login_verify e name response st)))
          = json (MeBody true (Some u))) /\
      (forall e' jar,
          req_cookies_username JSON_parse (Some u) = CookieOther ->
          snd (me_route JSON_parse e'
                 (apply_cookie (cookie (snd (login_verify e name response st)))
                    jar)
                 (fst (login_verify e name response st)))
          = json (MeBody false None)).
Proof.
  intros st e name response R B. apply reachable_invariant in R.
  destruct (login_verify_success_inv _ _ _ _ _ _ _ B)
    as (u & user & c & d & v & -> & Lu & Lc & Hc & F & Hv & Ht).
  pose proof (live_user_nonempty _ _ _ _ R Lu) as Hu.
  destruct R as ((_ & T & _) & _ & _).
  exists u. split; [reflexivity|].
  rewrite (login_verify_run _ _ _ _ _ _ _ _ _ Lu Lc Hc), F, Hv, Ht.
  cbn [fst snd]. split; [reflexivity|]. split.
  - intros e' jar Hj Hlate. cbn [cookie apply_cookie].
    unfold me_route, req_cookies_username, JSONCookie. rewrite Hj. unfold me.
    assert (truthy (Some u) = true) as -> by now apply truthy_Some.
    unfold committed. cbn [userCache]. rewrite has_set_same; [reflexivity|].
    destruct (config_get (now e) u (userCache st)) as [_ ->]. lia.
  - intros e' jar Hother. cbn [cookie apply_cookie].
    unfold me_route. now rewrite Hother.
Qed.

(** X8. In every reachable state the user cache holds at most 100 records
    and the challenge cache at most 1000 challenges, neither holds two
    entries under one key, and their lifetimes are still 24 hours and five
    minutes. *)
Theorem X8_caches_stay_bounded :
  forall st,
    reachable st ->
    (List.length (LRU.items (userCache st)) <= 100)%nat /\
    (List.length (LRU.items (challengeCache st)) <= 1000)%nat /\
    NoDup (LRU.keys (userCache st)) /\
    NoDup (LRU.keys (challengeCache st)) /\
    LRU.ttl (userCache st) = 1000 * 60 * 60 * 24 /\
    LRU.ttl (challengeCache st) = 1000 * 60 * 5.
Proof.
  intros st R. apply reachable_invariant in R.
  destruct R as ((_ & T & N & L & _) & (_ & T' & N' & L' & _) & _).
  repeat split; assumption.
Qed.

(** X12. For a username the Credential Store does not know, both [*/verify]
    routes answer 400 "User not found" whatever the response and the
    verifier; no user is created and the challenge cache is untouched. *)
Theorem X12_verify_unknown_user :
  forall st e name response,
    known (now e) name st = false ->
    (snd (register_verify e name response st)
     = status400 (ErrorBody "User not found") /\
     challengeCache (fst (register_verify e name response st))
     = challengeCache st /\
     incl (LRU.items (userCache (fst (register_verify e name response st))))
          (LRU.items (userCache st))) /\
    (snd (login_verify e name response st)
     = status400 (ErrorBody "User not found") /\
     challengeCache (fst (login_verify e name response st))
     = challengeCache st /\
     incl (LRU.items (userCache (fst (login_verify e name response st))))
          (LRU.items (userCache st))).
Proof.
  intros st e name response K.
  assert (forall uc,
             snd (getUserByUsername (now e) name (userCache st)) = uc ->
             incl (LRU.items uc) (LRU.items (userCache st))) as Hincl.
  { intros uc <-. destruct name as [u|]; simpl; [|apply incl_refl].
    destruct (LRU.get (now e) u (userCache st)) as [[user|] uc] eqn:G.
    - apply live_of_get in G. simpl in K. destruct G. congruence.
    - apply get_None in G. destruct G as (_ & [-> | ->] & _); simpl;
        [apply incl_refl | apply remove_incl]. }
  split.
  - split; [now apply register_verify_no_user|].
    unfold register_verify. destruct name as [u|];
      [|cbn; auto using incl_refl].
    cbn [getUserByUsername known] in *.
    destruct (LRU.get (now e) u (userCache st)) as [[user|] uc] eqn:G.
    + apply live_of_get in G. destruct G. congruence.
    + cbn [fst challengeCache userCache]. split; [reflexivity|].
      apply Hincl. reflexivity.
  - split; [now apply login_verify_no_user|].
    unfold login_verify. destruct name as [u|];
      [|cbn; auto using incl_refl].
    cbn [getUserByUsername known] in *.
    destruct (LRU.get (now e) u (userCache st)) as [[user|] uc] eqn:G.
    + apply live_of_get in G. destruct G. congruence.
    + cbn [fst challengeCache userCache]. split; [reflexivity|].
      apply Hincl. reflexivity.
Qed.

(** X13. When the registration verifier returns a result without
    [registrationInfo], verified or not, [/register/verify] answers 400
    [{verified: false}], stores no device, and leaves the cache entries
    and the live challenge as they were. *)
Theorem X13_registration_without_info_not_verified :
  forall st e u user c response v,
    live_user (now e) u user st ->
    live_challenge (now e) (id user) c st ->
    c <> "" ->
    verifyRegistrationResponse response c origin rpID = Returns v ->
    registrationInfo v = None ->
    let out := register_verify e (Some u) response st in
    snd out = status400 (VerifiedBody false) /\
    same_entries (userCache st) (userCache (fst out)) /\
    same_entries (challengeCache st) (challengeCache (fst out)) /\
    live_challenge (now e) (id user) c (fst out).
Proof.
  intros st e u user c response v Lu Lc Hc Hv Hi out. subst out.
  rewrite (register_verify_run _ _ _ _ _ _ _ _ _ Lu Lc Hc), Hv, Hi.
  assert (forall b : bool,
             (if b then (looked_up e u user st, status400 (VerifiedBody false))
              else (looked_up e u user st, status400 (VerifiedBody false)))
             = (looked_up e u user st, status400 (VerifiedBody false))) as ->
      by (intros []; reflexivity).
  cbn [fst snd]. split; [reflexivity|]. split; [|split].
  - intros k. now apply looked_up_users.
  - intros k. now apply (looked_up_challenges _ _ _ _ c).
  - apply looked_up_live_challenge; [exact Lc | apply Lc].
Qed.

(** X14. The login ceremony end to end: [/login/options] answers with the
    drawn challenge; when [/login/verify] follows within five minutes with a
    response naming one of the user's devices, the verifier is given that
    challenge and that device's stored key and counter, and if it approves,
    the answer is 200 [{verified: true}] with the session cookie, the
    device's counter is replaced by the verifier's, and the challenge is
    gone. *)
Theorem X14_login_round_trip :
  forall st e e' u user response d v,
    reachable st ->
    live_user (now e) u user st ->
    freshChallenge e <> "" ->
    now e' - now e <= 300000 ->
    LRU.has (now e') u (userCache st) = true ->
    find (has_credentialID (resp_id response)) (devices user) = Some d ->
    verifyAuthenticationResponse response (freshChallenge e) origin rpID
      {| cred_id := credentialID d;
         cred_publicKey := credentialPublicKey d;
         cred_counter := counter d;
         cred_transports := transports d |} = Returns v ->
    auth_verified v = true ->
    let issued := login_options e (Some u) st in
    let out := login_verify e' (Some u) response (fst issued) in
    (exists options,
        snd issued = json (AuthenticationOptionsBody options) /\
        auth_challenge options = freshChallenge e) /\
    snd out
    = {| status := 200; body := VerifiedBody true; cookie := CookieSet u |} /\
    stored_user u (fst out)
    = Some (with_devices user
              (set_counter (resp_id response) (newCounter v) (devices user))) /\
    stored_challenge (id user) (fst out) = None.
Proof.
  intros st e e' u user response d v R Lu Hc Ht Hlive F Hv Hver issued out.
  apply reachable_invariant in R. destruct R as (_ & (_ & T & _) & _).
  subst out issued. rewrite (login_options_issue rpID e u user st Lu).
  cbn [fst snd].
  split; [eexists; split; reflexivity|].
  set (st1 := {| userCache := snd (LRU.get (now e) u (userCache st));
                 challengeCache :=
                   LRU.set (now e) (id user) (freshChallenge e)
                     (challengeCache st) |}).
  assert (live_user (now e') u user st1) as Lu1
      by now apply live_user_after_get.
  assert (live_challenge (now e') (id user) (freshChallenge e) st1) as Lc1
      by now apply issued_challenge_live.
  rewrite (login_verify_run _ _ _ _ _ _ _ _ _ Lu1 Lc1 Hc), F.
  change (credential_of d) with
    {| cred_id := credentialID d;
       cred_publicKey := credentialPublicKey d;
       cred_counter := counter d;
       cred_transports := transports d |}.
  rewrite Hv, Hver. cbn [fst snd]. split; [reflexivity|]. split.
  - unfold stored_user. now rewrite committed_user.
  - apply committed_challenge.
Qed.

Lemma option_map_value_some {V : Type} (o : option (LRU.entry V)) (v : V) :
  option_map LRU.value o = Some v ->
  exists en, o = Some en /\ LRU.value en = v.
Proof. destruct o as [en|]; simpl; [|discriminate]. intros H. inversion H. eauto. Qed.

(** The user found under another name after a [set] was there before. *)
Lemma stored_user_set_other now u k v (c : LRU.t User) cc user' :
  k <> u ->
  stored_user k {| userCache := LRU.set now u v (snd (LRU.get now u c));
                   challengeCache := cc |} = Some user' ->
  option_map LRU.value (LRU.peek k c) = Some user'.
Proof.
  intros Hne H. unfold stored_user in H. cbn [userCache] in H.
  apply option_map_value_some in H. destruct H as (en & P & <-).
  apply peek_set_other_some in P; [|exact Hne].
  apply peek_get_some in P. now rewrite P.
Qed.

Lemma stored_user_get_other now u k (c : LRU.t User) cc user' :
  stored_user k {| userCache := snd (LRU.get now u c);
                   challengeCache := cc |} = Some user' ->
  option_map LRU.value (LRU.peek k c) = Some user'.
Proof.
  intros H. unfold stored_user in H. cbn [userCache] in H.
  apply option_map_value_some in H. destruct H as (en & P & <-).
  apply peek_get_some in P. now rewrite P.
Qed.

(** How the record stored under a name can differ after one request: it was
    created by [/register/options], or a device was appended by
    [/register/verify], or a counter was set by [/login/verify]. *)
Lemma stored_user_step e r st k user' :
  stored_user k (fst (handle e r st)) = Some user' ->
  stored_user k st = Some user' \/
  (r = PostRegisterOptions (Some k) /\ k <> "" /\
   LRU.has (now e) k (userCache st) = false /\
   user' = {| id := randomUUID e; username := k; devices := [] |}) \/
  (exists response user credential,
      r = PostRegisterVerify (Some k) response /\
      live_user (now e) k user st /\
      user' = with_devices user
                (devices user ++ [new_device credential response])) \/
  (exists response user n,
      r = PostLoginVerify (Some k) response /\
      live_user (now e) k user st /\
      user' = with_devices user
                (set_counter (resp_id response) n (devices user))).
Proof.
  destruct r as [name|name response|name|name response| |jar]; cbn [handle].
  - (* /register/options *)
    unfold register_options. destruct name as [u|]; [|now left].
    destruct (truthy (Some u)) eqn:T; [|now left].
    apply truthy_Some in T. cbn [getUserByUsername].
    destruct (LRU.get (now e) u (userCache st)) as [[user|] uc] eqn:G.
    + assert (uc = snd (LRU.get (now e) u (userCache st))) as ->
          by now rewrite G.
      cbn [fst]. intros H. left. now apply stored_user_get_other in H.
    + assert (uc = snd (LRU.get (now e) u (userCache st))) as ->
          by now rewrite G.
      unfold createUser. cbn [fst]. intros H.
      destruct (String.eqb_spec k u) as [->|Hne].
      * right. left. unfold stored_user in H. cbn [userCache] in H.
        rewrite peek_set_same in H. simpl in H. inversion H.
        apply get_None in G. destruct G as (K & _). auto.
      * left. now apply stored_user_set_other in H.
  - (* /register/verify *)
    unfold register_verify. destruct name as [u|]; [|now left].
    cbn [getUserByUsername].
    destruct (LRU.get (now e) u (userCache st)) as [[user|] uc] eqn:G;
      assert (uc = snd (LRU.get (now e) u (userCache st))) as ->
        by now rewrite G.
    2: { cbn [fst]. intros H. left. now apply stored_user_get_other in H. }
    destruct (LRU.get (now e) (id user) (challengeCache st)) as [found cc].
    assert (forall cc' : LRU.t string,
               stored_user k
                 {| userCache := snd (LRU.get (now e) u (userCache st));
                    challengeCache := cc' |} = Some user' ->
               stored_user k st = Some user') as Hold
        by (intros cc' H; now apply stored_user_get_other in H).
    destruct (truthy found); [|cbn [fst]; intros H; left; eauto].
    destruct found as [c|]; [|cbn [fst]; intros H; left; eauto].
    destruct (verifyRegistrationResponse response c origin rpID) as [m|v];
      [cbn [fst]; intros H; left; eauto|].
    destruct (reg_verified v); [|cbn [fst]; intros H; left; eauto].
    destruct (registrationInfo v) as [cr|]; [|cbn [fst]; intros H; left; eauto].
    cbn [fst]. intros H.
    destruct (String.eqb_spec k u) as [->|Hne].
    + right. right. left. exists response, user, cr.
      split; [reflexivity|]. split; [now apply live_of_get in G|].
      unfold stored_user in H. cbn [userCache] in H.
      rewrite peek_set_same in H. simpl in H. now inversion H.
    + left. now apply stored_user_set_other in H.
  - (* /login/options *)
    unfold login_options. destruct name as [u|]; [|now left].
    cbn [getUserByUsername].
    destruct (LRU.get (now e) u (userCache st)) as [[user|] uc] eqn:G;
      (assert (uc = snd (LRU.get (now e) u (userCache st))) as ->
          by now rewrite G);
      cbn [fst]; intros H; left; now apply stored_user_get_other in H.
  - (* /login/verify *)
    unfold login_verify. destruct name as [u|]; [|now left].
    cbn [getUserByUsername].
    destruct (LRU.get (now e) u (userCache st)) as [[user|] uc] eqn:G;
      assert (uc = snd (LRU.get (now e) u (userCache st))) as ->
        by now rewrite G.
    2: { cbn [fst]. intros H. left. now apply stored_user_get_other in H. }
    destruct (LRU.get (now e) (id user) (challengeCache st)) as [found cc].
    assert (forall cc' : LRU.t string,
               stored_user k
                 {| userCache := snd (LRU.get (now e) u (userCache st));
                    challengeCache := cc' |} = Some user' ->
               stored_user k st = Some user') as Hold
        by (intros cc' H; now apply stored_user_get_other in H).
    destruct (truthy found); [|cbn [fst]; intros H; left; eauto].
    destruct found as [c|]; [|cbn [fst]; intros H; left; eauto].
    destruct (match find (has_credentialID (resp_id response)) (devices user)
              with Some device => _ | None => _ end) as [m|v];
      [cbn [fst]; intros H; left; eauto|].
    destruct (auth_verified v); [|cbn [fst]; intros H; left; eauto].
    cbn [fst]. intros H.
    destruct (String.eqb_spec k u) as [->|Hne].
    + right. right. right. exists response, user, (newCounter v).
      split; [reflexivity|]. split; [now apply live_of_get in G|].
      unfold stored_user in H. cbn [userCache] in H.
      rewrite peek_set_same in H. simpl in H. now inversion H.
    + left. now apply stored_user_set_other in H.
  - now left.
  - unfold me. destruct jar as [u|]; [|now left].
    destruct (truthy (Some u) && LRU.has (now e) u (userCache st)); now left.
Qed.

Lemma map_credentialID_set_counter cid n l :
  map credentialID (set_counter cid n l) = map credentialID l.
Proof.
  induction l as [|d l IH]; simpl; [reflexivity|].
  destruct (has_credentialID cid d); simpl; [reflexivity | now rewrite IH].
Qed.

Lemma stored_user_in_keys k st user :
  stored_user k st = Some user -> In k (LRU.keys (userCache st)).
Proof.
  unfold stored_user. intros H. apply option_map_value_some in H.
  destruct H as (en & P & _). apply find_is_key in P. destruct P as [K I].
  rewrite <- K. now apply in_map.
Qed.

(** X9. In every reachable state the record stored under a name carries
    that name as its [username], and the name is not empty. *)
Theorem X9_stored_user_carries_its_name :
  forall st k user,
    reachable st ->
    stored_user k st = Some user ->
    username user = k /\ k <> "".
Proof.
  intros st k user R. revert k user.
  induction R as [|st e r R IH]; intros k user H.
  - discriminate.
  - split.
    + destruct (stored_user_step e r st k user H)
        as [Hold | [(_ & _ & _ & ->) | [(response & user0 & cr & _ & Lu & ->)
                                       | (response & user0 & n & _ & Lu & ->)]]].
      * now apply (IH k user).
      * reflexivity.
      * destruct Lu as [P _]. now apply (IH k user0).
      * destruct Lu as [P _]. now apply (IH k user0).
    + pose proof (handle_invariant rpID origin verifyRegistrationResponse
                    verifyAuthenticationResponse e r st
                    (reachable_invariant _ _ _ _ _ R)) as (_ & _ & E).
      intros ->. apply E. now apply stored_user_in_keys in H.
Qed.


(** X10. Creating a user under a name that has no entry puts the new
    record first in the user cache; the other records all stay while fewer
    than 100 are held, and when 100 are held the one used least recently is
    dropped to make room. *)
Theorem X10_user_cache_evicts_least_recently_used :
  forall st e u,
    reachable st ->
    u <> "" ->
    LRU.peek u (userCache st) = None ->
    let created :=
      {| LRU.key := u;
         LRU.value := {| id := randomUUID e; username := u; devices := [] |};
         LRU.start := now e |} in
    LRU.items (userCache (fst (register_options e (Some u) st)))
    = if (List.length (LRU.items (userCache st)) <? 100)%nat
      then created :: LRU.items (userCache st)
      else created :: removelast (LRU.items (userCache st)).
Proof.
  intros st e u R Hu P created. apply reachable_invariant in R.
  destruct R as (U & _ & _).
  unfold register_options.
  assert (truthy (Some u) = true) as -> by now apply truthy_Some.
  cbn [getUserByUsername]. unfold LRU.get. rewrite P.
  unfold createUser. cbn [fst userCache].
  rewrite (set_cases 100 86400000 (now e) u _ (userCache st) U), P.
  reflexivity.
Qed.

(** X15. Issuing options for one user leaves the challenge pending for any
    other user id in place, as long as the user already has a challenge slot
    or the challenge cache holds fewer than 1000 entries. *)
Theorem X15_options_leave_other_challenges :
  forall st e u user uid,
    reachable st ->
    live_user (now e) u user st ->
    uid <> id user ->
    stored_challenge (id user) st <> None \/
    (List.length (LRU.items (challengeCache st)) < 1000)%nat ->
    LRU.peek uid (challengeCache (fst (login_options e (Some u) st)))
    = LRU.peek uid (challengeCache st) /\
    LRU.peek uid (challengeCache (fst (register_options e (Some u) st)))
    = LRU.peek uid (challengeCache st).
Proof.
  intros st e u user uid R Lu Hne Hroom. apply reachable_invariant in R.
  pose proof (live_user_nonempty _ _ _ _ R Lu) as Hu.
  destruct R as (_ & C & _).
  rewrite (login_options_issue rpID e u user st Lu).
  rewrite (register_options_live rpID e u user st Hu Lu).
  cbn [fst challengeCache].
  assert (LRU.peek (id user) (challengeCache st) <> None \/
          (List.length (LRU.items (challengeCache st)) < 1000)%nat) as Hroom'.
  { destruct Hroom as [H|H]; [left | now right].
    unfold stored_challenge in H.
    destruct (LRU.peek (id user) (challengeCache st)); [discriminate|].
    now destruct H. }
  split; now apply (peek_set_other_kept 1000 300000).
Qed.



End Further.

(** [/register/options] with a non-empty username always answers with
    options for the record it leaves under that username. *)
Lemma register_options_answers rpID e u st :
  u <> "" ->
  exists user,
    stored_user u (fst (register_options rpID e (Some u) st)) = Some user /\
    snd (register_options rpID e (Some u) st)
    = json (RegistrationOptionsBody (generateRegistrationOptions rpID e user)).
Proof.
  intros Hu. unfold register_options.
  assert (truthy (Some u) = true) as -> by now apply truthy_Some.
  cbn [getUserByUsername].
  destruct (LRU.get (now e) u (userCache st)) as [[user|] uc] eqn:G.
  - exists user. cbn [fst snd]. split; [|reflexivity].
    unfold stored_user. cbn [userCache].
    rewrite (peek_get_hit _ _ _ _ _ u G). now apply live_of_get in G.
  - exists {| id := randomUUID e; username := u; devices := [] |}.
    unfold createUser. cbn [fst snd]. split; [|reflexivity].
    unfold stored_user. cbn [userCache]. now rewrite peek_set_same.
Qed.

(** [/register/verify] never touches the cookie. *)
Lemma register_verify_cookie rpID origin verifyRegistrationResponse
    e name response st :
  cookie (snd (register_verify rpID origin verifyRegistrationResponse
                 e name response st)) = CookieUntouched.
Proof.
  unfold register_verify. destruct name as [u|]; [|reflexivity].
  cbn [getUserByUsername].
  destruct (LRU.get (now e) u (userCache st)) as [[user|] uc]; [|reflexivity].
  destruct (LRU.get (now e) (id user) (challengeCache st)) as [found cc].
  destruct (truthy found); [|reflexivity].
  destruct found as [c|]; [|reflexivity].
  destruct (verifyRegistrationResponse response c origin rpID) as [m|v];
    [reflexivity|].
  destruct (reg_verified v); [|reflexivity].
  destruct (registrationInfo v); reflexivity.
Qed.

(** *** The page script against the server *)

Section ClientProperties.

Variables rpID origin : string.
Variable verifyRegistrationResponse :
  ClientResponse -> string -> string -> string ->
  outcome VerifiedRegistrationResponse.
Variable verifyAuthenticationResponse :
  ClientResponse -> string -> string -> string -> WebAuthnCredential ->
  outcome VerifiedAuthenticationResponse.
Variable startRegistration : Json -> outcome ClientResponse.
Variable startAuthentication : Json -> outcome ClientResponse.
Variable JSON_parse : string -> option JSONValue.

Local Abbreviation reachable :=
  (reachable rpID origin verifyRegistrationResponse
     verifyAuthenticationResponse).
Local Abbreviation register_options := (register_options rpID).
Local Abbreviation login_options := (login_options rpID).
Local Abbreviation register_verify :=
  (register_verify rpID origin verifyRegistrationResponse).
Local Abbreviation login_verify :=
  (login_verify rpID origin verifyAuthenticationResponse).
Local Abbreviation fetch :=
  (Client.fetch rpID origin verifyRegistrationResponse
     verifyAuthenticationResponse).
Local Abbreviation register_click :=
  (Client.register_click rpID origin verifyRegistrationResponse
     verifyAuthenticationResponse startRegistration).
Local Abbreviation login_click :=
  (Client.login_click rpID origin verifyRegistrationResponse
     verifyAuthenticationResponse startAuthentication JSON_parse).
Local Abbreviation logout_click :=
  (Client.logout_click rpID origin verifyRegistrationResponse
     verifyAuthenticationResponse JSON_parse).

Lemma login_options_reply e name st :
  cookie (snd (login_options e name st)) = CookieUntouched /\
  (Client.ok (snd (login_options e name st)) = true \/
   snd (login_options e name st) = status400 (ErrorBody "User not found")).
Proof.
  unfold login_options.
  destruct (getUserByUsername (now e) name (userCache st)) as [[user|] uc];
    simpl; auto.
Qed.

Lemma login_verify_cookie e name response st :
  Client.verified_field (body (snd (login_verify e name response st))) = false ->
  cookie (snd (login_verify e name response st)) = CookieUntouched.
Proof.
  unfold login_verify. destruct name as [u|]; [|reflexivity].
  cbn [getUserByUsername].
  destruct (LRU.get (now e) u (userCache st)) as [[user|] uc]; [|reflexivity].
  destruct (LRU.get (now e) (id user) (challengeCache st)) as [found cc].
  destruct (truthy found); [|reflexivity].
  destruct found as [c|]; [|reflexivity].
  destruct (match find (has_credentialID (resp_id response)) (devices user)
            with Some device => _ | None => _ end) as [m|v]; [reflexivity|].
  destruct (auth_verified v); [discriminate | reflexivity].
Qed.

(** X17. The register button sends nothing when the username field is
    empty.  With any other username [/register/options] never refuses: the
    authenticator is always asked, with options for the user record stored
    under that username, and the outcome shown is the authenticator's error,
    or what [/register/verify] answered to the authenticator's response. *)
Theorem X17_register_click_always_reaches_authenticator :
  forall e1 e2 username w,
    (username = "" ->
     register_click e1 e2 username w
     = Client.showStatus (Client.Plain "Please enter a username") "error" w) /\
    (username <> "" ->
     exists user,
       stored_user username (fst (register_options e1 (Some username)
                                    (Client.server w))) = Some user /\
       let options :=
         RegistrationOptionsBody (generateRegistrationOptions rpID e1 user) in
       let w1 :=
         {| Client.server :=
              fst (register_options e1 (Some username) (Client.server w));
            Client.jar := Client.jar w;
            Client.page := Client.page w |} in
       register_click e1 e2 username w
       = match startRegistration options with
         | Throws message =>
             Client.showStatus (Client.Plain message) "error" w1
         | Returns attResp =>
             let out :=
               register_verify e2 (Some username) attResp (Client.server w1) in
             let w2 :=
               {| Client.server := fst out;
                  Client.jar := Client.jar w;
                  Client.page := Client.page w |} in
             if Client.verified_field (body (snd out)) then
               Client.showStatus
                 (Client.Plain "Registration successful! You can now log in.")
                 "success" w2
             else
               Client.showStatus (Client.RegistrationFailed (body (snd out)))
                 "error" w2
         end).
Proof.
  intros e1 e2 username w. split.
  - intros ->. reflexivity.
  - intros Hu.
    destruct (register_options_answers rpID e1 username (Client.server w) Hu)
      as (user & S & Eq).
    exists user. split; [exact S|]. cbv zeta.
    unfold Client.register_click.
    assert (truthy (Some username) = true) as -> by now apply truthy_Some.
    cbn [negb]. unfold Client.fetch at 1. cbn [handle].
    destruct (register_options e1 (Some username) (Client.server w))
      as [st1 resp] eqn:RO.
    cbn [fst snd] in *. subst resp. cbn [Client.ok json status cookie body].
    cbn [negb andb Z.leb apply_cookie].
    destruct (startRegistration
                (RegistrationOptionsBody
                   (generateRegistrationOptions rpID e1 user)))
      as [m|attResp]; [reflexivity|].
    unfold Client.fetch. cbn [handle Client.server].
    destruct (register_verify e2 (Some username) attResp st1) as [st2 vr] eqn:RV.
    cbn [fst snd].
    assert (cookie vr = CookieUntouched) as ->.
    { pose proof (register_verify_cookie rpID origin verifyRegistrationResponse
                    e2 (Some username) attResp st1) as C.
      now rewrite RV in C. }
    reflexivity.
Qed.

(** X18. The login button for a username the server does not know shows
    the server's "User not found" as an error and stops there: the
    authenticator is not asked, no user appears on the server, and the
    cookie and the visible section stay as they were. *)
Theorem X18_login_click_unknown_user :
  forall e1 e2 e3 username w,
    username <> "" ->
    known (now e1) (Some username) (Client.server w) = false ->
    let w' := login_click e1 e2 e3 username w in
    Client.page w'
    = {| Client.statusMessage :=
           Some {| Client.text := Client.Plain "User not found";
                   Client.type := "error" |};
         Client.view := Client.view (Client.page w) |} /\
    Client.jar w' = Client.jar w /\
    Client.server w' = fst (login_options e1 (Some username) (Client.server w)) /\
    incl (LRU.items (userCache (Client.server w')))
         (LRU.items (userCache (Client.server w))) /\
    challengeCache (Client.server w') = challengeCache (Client.server w).
Proof.
  intros e1 e2 e3 username w Hu K w'. subst w'.
  unfold Client.login_click.
  assert (truthy (Some username) = true) as -> by now apply truthy_Some.
  cbn [negb]. unfold Client.fetch. cbn [handle].
  unfold login_options. cbn [getUserByUsername known] in *.
  destruct (LRU.get (now e1) username (userCache (Client.server w)))
    as [[user|] uc] eqn:G.
  - apply live_of_get in G. destruct G. congruence.
  - apply get_None in G. destruct G as (_ & D & _).
    cbn. repeat split.
    destruct D as [-> | ->]; [apply incl_refl | apply remove_incl].
Qed.


(** X20. The login button end to end, for a username that does not start
    with [j:] (so that [cookie-parser] hands the cookie to [/me] as the
    string it is): when the authenticator answers the options with a
    response naming one of the user's devices and the verifier approves it
    against the challenge of those options (the requests arriving in time),
    the page reports "Login successful!", the browser holds the username
    cookie, and the logged-in section shows the username. *)
Theorem X20_login_click_success :
  forall e1 e2 e3 username user w asseResp d v,
    reachable (Client.server w) ->
    String.prefix "j:" username = false ->
    live_user (now e1) username user (Client.server w) ->
    freshChallenge e1 <> "" ->
    now e2 - now e1 <= 300000 ->
    LRU.has (now e2) username (userCache (Client.server w)) = true ->
    now e3 - now e2 <= 86400000 ->
    startAuthentication
      (body (snd (login_options e1 (Some username) (Client.server w))))
    = Returns asseResp ->
    find (has_credentialID (resp_id asseResp)) (devices user) = Some d ->
    verifyAuthenticationResponse asseResp (freshChallenge e1) origin rpID
      (credential_of d) = Returns v ->
    auth_verified v = true ->
    let w' := login_click e1 e2 e3 username w in
    Client.page w'
    = {| Client.statusMessage :=
           Some {| Client.text := Client.Plain "Login successful!";
                   Client.type := "success" |};
         Client.view := Client.LoggedInSection username |} /\
    Client.jar w' = Some username /\
    stored_user username (Client.server w')
    = Some (with_devices user
              (set_counter (resp_id asseResp) (newCounter v) (devices user))).
Proof.
  intros e1 e2 e3 username user w asseResp d v R Hj Lu Hc Ht Hlive Hlate
         Hstart F Hv Hver w'.
  apply reachable_invariant in R.
  pose proof (live_user_nonempty _ _ _ _ R Lu) as Hu.
  destruct R as ((_ & Tu & _) & (_ & T & _) & _).
  assert (truthy (Some username) = true) as Htr by now apply truthy_Some.
  rewrite (login_options_issue rpID e1 username user _ Lu) in Hstart.
  cbn [snd json body] in Hstart.
  set (st1 := {| userCache :=
                   snd (LRU.get (now e1) username (userCache (Client.server w)));
                 challengeCache :=
                   LRU.set (now e1) (id user) (freshChallenge e1)
                     (challengeCache (Client.server w)) |}).
  assert (live_user (now e2) username user st1) as Lu1
      by now apply live_user_after_get.
  assert (live_challenge (now e2) (id user) (freshChallenge e1) st1) as Lc1
      by now apply issued_challenge_live.
  set (l := set_counter (resp_id asseResp) (newCounter v) (devices user)).
  assert (LRU.has (now e3) username
            (userCache (committed e2 username user l st1)) = true) as Hme.
  { unfold committed. cbn [userCache]. apply has_set_same.
    destruct (config_get (now e2) username (userCache st1)) as [_ ->].
    subst st1. cbn [userCache].
    destruct (config_get (now e1) username (userCache (Client.server w)))
      as [_ ->]. lia. }
  assert (w' = {| Client.server := committed e2 username user l st1;
                  Client.jar := Some username;
                  Client.page :=
                    {| Client.statusMessage :=
                         Some {| Client.text := Client.Plain "Login successful!";
                                 Client.type := "success" |};
                       Client.view := Client.LoggedInSection username |} |})
    as ->.
  { subst w'. unfold Client.login_click. rewrite Htr. cbn [negb].
    unfold Client.fetch at 1. cbn [handle].
    rewrite (login_options_issue rpID e1 username user _ Lu).
    cbn [Client.ok json status body cookie negb andb Z.leb apply_cookie].
    rewrite Hstart. unfold Client.fetch at 1. cbn [handle Client.server].
    fold st1.
    rewrite (login_verify_run _ _ _ _ _ _ _ _ _ Lu1 Lc1 Hc), F, Hv, Hver.
    fold l. cbn [body Client.verified_field cookie apply_cookie Client.jar
                 Client.page].
    unfold Client.checkLoginStatus, Client.showStatus, me_route.
    cbn [Client.server Client.jar Client.page].
    unfold req_cookies_username, JSONCookie. rewrite Hj. unfold me.
    rewrite Htr, Hme. reflexivity. }
  cbn [Client.page Client.jar Client.server].
  split; [reflexivity|]. split; [reflexivity|].
  unfold stored_user. now rewrite committed_user.
Qed.

(** X21. The logout button always ends the session on the page: whatever
    the server state and the cookie before, afterwards the browser holds no
    username cookie, the login form is the visible section, the status reads
    "Logged out", and the server state is as it was. *)
Theorem X21_logout_click_ends_session :
  forall e1 e2 w,
    logout_click e1 e2 w
    = {| Client.server := Client.server w;
         Client.jar := None;
         Client.page :=
           {| Client.statusMessage :=
                Some {| Client.text := Client.Plain "Logged out";
                        Client.type := "info" |};
              Client.view := Client.AuthSection |} |}.
Proof. intros e1 e2 w. reflexivity. Qed.

(** X22. A login attempt that does not end with "Login successful!" leaves
    the session alone: the browser's cookie and the visible section are as
    before the click. *)
Theorem X22_failed_login_click_keeps_session :
  forall e1 e2 e3 username w,
    Client.statusMessage (Client.page (login_click e1 e2 e3 username w))
    <> Some {| Client.text := Client.Plain "Login successful!";
               Client.type := "success" |} ->
    Client.jar (login_click e1 e2 e3 username w) = Client.jar w /\
    Client.view (Client.page (login_click e1 e2 e3 username w))
    = Client.view (Client.page w).
Proof.
  intros e1 e2 e3 username w.
  remember (login_click e1 e2 e3 username w) as w' eqn:E.
  unfold Client.login_click in E.
  destruct (negb (truthy (Some username)));
    [subst w'; intros _; split; reflexivity|].
  unfold Client.fetch at 1 in E. cbn [handle] in E.
  destruct (login_options_reply e1 (Some username) (Client.server w))
    as [C _].
  destruct (login_options e1 (Some username) (Client.server w))
    as [st1 resp] eqn:LO.
  cbn [fst snd] in *. rewrite C in E. cbn [apply_cookie] in E.
  destruct (negb (Client.ok resp));
    [subst w'; intros _; split; reflexivity|].
  destruct (startAuthentication (body resp)) as [m|asseResp];
    [subst w'; intros _; split; reflexivity|].
  unfold Client.fetch at 1 in E. cbn [handle Client.server Client.jar] in E.
  pose proof (login_verify_cookie e2 (Some username) asseResp st1) as C2.
  destruct (login_verify e2 (Some username) asseResp st1) as [st2 vr] eqn:LV.
  cbn [fst snd] in *.
  destruct (Client.verified_field (body vr)).
  - intros H. exfalso. apply H. subst w'.
    unfold Client.checkLoginStatus, Client.showStatus.
    cbn [Client.server Client.jar Client.page].
    destruct (me_route JSON_parse e3 _ st2) as [st3 res]. reflexivity.
  - intros _. rewrite (C2 eq_refl) in E. subst w'. split; reflexivity.
Qed.

End ClientProperties.

(** *** Concrete runs of the further properties *)

Lemma crowd_reachable V A n : reachable rpID origin V A (Crowd.crowd n).
Proof.
  induction n as [|n IH].
  - apply reachable_initial.
  - exact (reachable_step rpID origin V A (Crowd.crowd n)
             (env (Z.of_nat n) (Crowd.name n) "challenge")
             (PostRegisterOptions (Some (Crowd.name n))) IH).
Qed.

Lemma alice_login_pending_reachable A :
  reachable rpID origin approve_registration A alice_login_pending.
Proof.
  exact (reachable_step rpID origin approve_registration A
           alice_registered (env 2000 "unused" "challenge-2")
           (PostLoginOptions (Some "alice"))
           (alice_registered_reachable _)).
Qed.

Lemma X2_witness :
  live_user 5000 "alice" alice1 alice_registered /\
  snd (register_options rpID (env 5000 "uuid-new" "challenge-5") (Some "alice")
         alice_registered)
  = json (RegistrationOptionsBody
            (generateRegistrationOptions rpID
               (env 5000 "uuid-new" "challenge-5") alice1)).
Proof.
  assert (Lu : live_user 5000 "alice" alice1 alice_registered)
    by (split; reflexivity).
  split; [exact Lu|].
  exact (proj1 (proj2 (X2_register_options_keeps_known_user
                         rpID origin approve_registration approve_authentication
                         alice_registered (env 5000 "uuid-new" "challenge-5")
                         "alice" alice1 (alice_registered_reachable _) Lu))).
Defined.

Lemma X3_witness :
  live_user 1000 "alice" alice0 alice_pending /\
  live_challenge 1000 "uuid-alice" "challenge-1" alice_pending /\
  exists options,
    snd (login_options rpID (env 2000 "unused" "challenge-2") (Some "alice")
           (fst (register_verify rpID origin approve_registration
                   (env 1000 "unused" "unused") (Some "alice") cred1
                   alice_pending)))
    = json (AuthenticationOptionsBody options) /\
    map allow_id (allowCredentials options) = ["cred-1"].
Proof.
  assert (Lu : live_user 1000 "alice" alice0 alice_pending)
    by (split; reflexivity).
  assert (Lc : live_challenge 1000 (id alice0) "challenge-1" alice_pending)
    by (split; reflexivity).
  assert (Hc : "challenge-1" <> "") by discriminate.
  assert (Ht : 2000 - 1000 <= 86400000) by lia.
  destruct (X3_login_options_lists_registered_credentials
              rpID origin approve_registration approve_authentication
              alice_pending (env 1000 "unused" "unused")
              (env 2000 "unused" "challenge-2") "alice" alice0 "challenge-1"
              cred1 _ _ (alice_pending_reachable _ _) Lu Lc Hc
              eq_refl eq_refl eq_refl Ht)
    as (options & A & _ & B & _).
  split; [exact Lu|]. split; [exact Lc|].
  exists options. split; [exact A | exact B].
Defined.

Lemma X4_witness :
  live_user 3000 "alice" alice1 alice_login_pending /\
  find (has_credentialID (resp_id Demo.cred9)) (devices alice1) = None /\
  snd (login_verify rpID origin approve_authentication
         (env 3000 "unused" "unused") (Some "alice") Demo.cred9
         alice_login_pending)
  = status400 (ErrorBody "Authenticator not found for this user").
Proof.
  assert (Lu : live_user 3000 "alice" alice1 alice_login_pending)
    by (split; reflexivity).
  assert (Lc : live_challenge 3000 (id alice1) "challenge-2" alice_login_pending)
    by (split; reflexivity).
  assert (Hc : "challenge-2" <> "") by discriminate.
  split; [exact Lu|]. split; [reflexivity|].
  exact (proj1 (X4_login_verify_unknown_authenticator
                  rpID origin approve_authentication
                  alice_login_pending (env 3000 "unused" "unused") "alice"
                  alice1 "challenge-2" Demo.cred9 Lu Lc Hc eq_refl)).
Defined.

Lemma X5_witness :
  live_user 302001 "alice" alice1 alice_login_pending /\
  snd (login_verify rpID origin approve_authentication
         (env 302001 "unused" "unused") (Some "alice") cred1
         alice_login_pending)
  = status400 (ErrorBody "Challenge expired or not found").
Proof.
  assert (Lu : live_user 302001 "alice" alice1 alice_login_pending)
    by (split; reflexivity).
  assert (P : LRU.peek (id alice1) (challengeCache alice_login_pending)
              = Some {| LRU.key := "uuid-alice"; LRU.value := "challenge-2";
                        LRU.start := 2000 |}) by reflexivity.
  assert (Hold : 300000 < 302001 - 2000) by lia.
  split; [exact Lu|].
  exact (proj1 (proj2 (X5_expired_challenge_refused
                         rpID origin approve_registration approve_authentication
                         alice_login_pending (env 302001 "unused" "unused")
                         "alice" alice1 _ cred1
                         (alice_login_pending_reachable _) Lu P Hold))).
Defined.

Lemma X6_witness :
  let late := env 86401001 "uuid-again" "challenge-9" in
  snd (login_options rpID late (Some "alice") alice_registered)
  = status400 (ErrorBody "User not found") /\
  stored_user "alice" (fst (register_options rpID late (Some "alice")
                              alice_registered))
  = Some {| id := "uuid-again"; username := "alice"; devices := [] |}.
Proof.
  intros late.
  assert (P : LRU.peek "alice" (userCache alice_registered)
              = Some {| LRU.key := "alice"; LRU.value := alice1;
                        LRU.start := 1000 |}) by reflexivity.
  assert (Hold : 86400000 < now late - 1000) by (simpl; lia).
  destruct (X6_expired_user_forgotten
              rpID origin approve_registration approve_authentication
              alice_registered late "alice" _ cred1
              (alice_registered_reachable _) P Hold)
    as (A & _ & _ & _ & B).
  split; [exact A | exact B].
Defined.

Lemma X7_witness :
  let login :=
    login_verify rpID origin approve_authentication
      (env 3000 "unused" "unused") (Some "alice") cred1 alice_login_pending in
  body (snd login) = VerifiedBody true /\
  snd (me_route Demo.parse_one (env 4000 "unused" "unused")
         (apply_cookie (cookie (snd login)) None) (fst login))
  = json (MeBody true (Some "alice")).
Proof.
  intros login.
  assert (B : body (snd login) = VerifiedBody true) by reflexivity.
  destruct (X7_login_opens_session
              rpID origin approve_registration approve_authentication
              Demo.parse_one
              alice_login_pending (env 3000 "unused" "unused") (Some "alice")
              cred1 (alice_login_pending_reachable _) B)
    as (u & Eu & _ & M & _).
  inversion Eu; subst u.
  assert (Hlate : 4000 - 3000 <= 86400000) by lia.
  split; [exact B|].
  exact (M (env 4000 "unused" "unused") None eq_refl Hlate).
Defined.

Lemma X8_witness :
  (List.length (LRU.items (userCache (Crowd.crowd 100))) = 100)%nat /\
  (List.length
     (LRU.items
        (userCache
           (fst (handle rpID origin approve_registration approve_authentication
                   Crowd.newcomer (PostRegisterOptions (Some "zed"))
                   (Crowd.crowd 100))))) <= 100)%nat.
Proof.
  split; [vm_compute; reflexivity|].
  exact (proj1 (X8_caches_stay_bounded
                  rpID origin approve_registration approve_authentication _
                  (reachable_step rpID origin approve_registration
                     approve_authentication (Crowd.crowd 100) Crowd.newcomer
                     (PostRegisterOptions (Some "zed"))
                     (crowd_reachable _ _ 100)))).
Defined.

Lemma X9_witness :
  stored_user "alice" alice_registered = Some alice1 /\
  username alice1 = "alice" /\ "alice" <> "".
Proof.
  assert (S : stored_user "alice" alice_registered = Some alice1)
    by reflexivity.
  split; [exact S|].
  exact (X9_stored_user_carries_its_name
           rpID origin approve_registration approve_authentication
           alice_registered "alice" alice1 (alice_registered_reachable _) S).
Defined.

Lemma X10_witness :
  (List.length (LRU.items (userCache (Crowd.crowd 100))) = 100)%nat /\
  LRU.peek "zed" (userCache (Crowd.crowd 100)) = None /\
  map LRU.key
    (LRU.items
       (userCache (fst (register_options rpID Crowd.newcomer (Some "zed")
                          (Crowd.crowd 100)))))
  = "zed" :: map LRU.key (removelast (LRU.items (userCache (Crowd.crowd 100)))).
Proof.
  assert (Hz : "zed" <> "") by discriminate.
  assert (P : LRU.peek "zed" (userCache (Crowd.crowd 100)) = None)
    by (vm_compute; reflexivity).
  split; [vm_compute; reflexivity|]. split; [exact P|].
  rewrite (X10_user_cache_evicts_least_recently_used
             rpID origin approve_registration approve_authentication
             (Crowd.crowd 100) Crowd.newcomer "zed"
             (crowd_reachable _ _ 100) Hz P).
  vm_compute. reflexivity.
Defined.

Lemma bob_pending_reachable A :
  reachable rpID origin approve_registration A bob_pending.
Proof.
  exact (reachable_step rpID origin approve_registration A
           alice_registered (env 3000 "uuid-bob" "challenge-3")
           (PostRegisterOptions (Some "bob"))
           (alice_registered_reachable _)).
Qed.


Lemma X12_witness :
  known 0 (Some "bob") initial = false /\
  snd (register_verify rpID origin approve_registration
         (env 0 "unused" "unused") (Some "bob") cred1 initial)
  = status400 (ErrorBody "User not found") /\
  snd (login_verify rpID origin approve_authentication
         (env 0 "unused" "unused") (Some "bob") cred1 initial)
  = status400 (ErrorBody "User not found").
Proof.
  assert (K : known (now (env 0 "unused" "unused")) (Some "bob") initial = false)
    by reflexivity.
  destruct (X12_verify_unknown_user
              rpID origin approve_registration approve_authentication
              initial (env 0 "unused" "unused") (Some "bob") cred1 K)
    as [(A & _) (B & _)].
  split; [exact K|]. split; [exact A | exact B].
Defined.

Lemma X13_witness :
  live_user 1000 "alice" alice0 alice_pending /\
  live_challenge 1000 "uuid-alice" "challenge-1" alice_pending /\
  snd (register_verify rpID origin Demo.verified_without_info
         (env 1000 "unused" "unused") (Some "alice") cred1 alice_pending)
  = status400 (VerifiedBody false).
Proof.
  assert (Lu : live_user 1000 "alice" alice0 alice_pending)
    by (split; reflexivity).
  assert (Lc : live_challenge 1000 (id alice0) "challenge-1" alice_pending)
    by (split; reflexivity).
  assert (Hc : "challenge-1" <> "") by discriminate.
  split; [exact Lu|]. split; [exact Lc|].
  exact (proj1 (X13_registration_without_info_not_verified
                  rpID origin Demo.verified_without_info
                  alice_pending (env 1000 "unused" "unused") "alice" alice0
                  "challenge-1" cred1 _ Lu Lc Hc eq_refl eq_refl)).
Defined.

Lemma X14_witness :
  let e := env 2000 "unused" "challenge-2" in
  let e' := env 3000 "unused" "unused" in
  live_user 2000 "alice" alice1 alice_registered /\
  snd (login_verify rpID origin Demo.strict_authentication e' (Some "alice")
         (signed "challenge-2")
         (fst (login_options rpID e (Some "alice") alice_registered)))
  = {| status := 200; body := VerifiedBody true; cookie := CookieSet "alice" |} /\
  option_map (fun user => map counter (devices user))
    (stored_user "alice"
       (fst (login_verify rpID origin Demo.strict_authentication e'
               (Some "alice") (signed "challenge-2")
               (fst (login_options rpID e (Some "alice") alice_registered)))))
  = Some [1].
Proof.
  intros e e'.
  assert (Lu : live_user (now e) "alice" alice1 alice_registered)
    by (split; reflexivity).
  assert (Hc : freshChallenge e <> "") by discriminate.
  assert (Ht : now e' - now e <= 300000) by (simpl; lia).
  destruct (X14_login_round_trip
              rpID origin approve_registration Demo.strict_authentication
              alice_registered e e' "alice" alice1 (signed "challenge-2")
              device1 _ (alice_registered_reachable _) Lu Hc Ht
              eq_refl eq_refl eq_refl eq_refl)
    as (_ & A & B & _).
  split; [exact Lu|]. split; [exact A|].
  cbv zeta in B. rewrite B. reflexivity.
Defined.

Lemma X15_witness :
  let e := env 3500 "unused" "challenge-4" in
  live_user 3500 "alice" alice1 bob_pending /\
  stored_challenge "uuid-bob" bob_pending = Some "challenge-3" /\
  stored_challenge "uuid-bob"
    (fst (login_options rpID e (Some "alice") bob_pending))
  = Some "challenge-3" /\
  stored_challenge "uuid-alice"
    (fst (login_options rpID e (Some "alice") bob_pending))
  = Some "challenge-4".
Proof.
  intros e.
  assert (Lu : live_user (now e) "alice" alice1 bob_pending)
    by (split; reflexivity).
  assert (Hne : "uuid-bob" <> id alice1) by discriminate.
  assert (Hroom : stored_challenge (id alice1) bob_pending <> None \/
                  (List.length (LRU.items (challengeCache bob_pending)) < 1000)%nat)
    by (right; vm_compute; lia).
  destruct (X15_options_leave_other_challenges
              rpID origin approve_registration approve_authentication
              bob_pending e "alice" alice1 "uuid-bob"
              (bob_pending_reachable _) Lu Hne Hroom) as [A _].
  split; [exact Lu|]. split; [reflexivity|]. split; [|reflexivity].
  unfold stored_challenge. rewrite A. reflexivity.
Defined.


Lemma X18_witness :
  let e := env 0 "unused" "challenge-1" in
  known 0 (Some "bob") (Client.server Demo.fresh) = false /\
  Client.page
    (Client.login_click rpID origin approve_registration
       Demo.strict_authentication Demo.sign Demo.parse_one e e e "bob"
       Demo.fresh)
  = {| Client.statusMessage :=
         Some {| Client.text := Client.Plain "User not found";
                 Client.type := "error" |};
       Client.view := Client.AuthSection |}.
Proof.
  intros e.
  assert (Hb : "bob" <> "") by discriminate.
  assert (K : known (now e) (Some "bob") (Client.server Demo.fresh) = false)
    by reflexivity.
  split; [exact K|].
  exact (proj1 (X18_login_click_unknown_user
                  rpID origin approve_registration Demo.strict_authentication
                  Demo.sign Demo.parse_one e e e "bob" Demo.fresh Hb K)).
Defined.


Lemma X20_witness :
  let e1 := env 2000 "unused" "challenge-2" in
  let e2 := env 3000 "unused" "unused" in
  let e3 := env 4000 "unused" "unused" in
  let w' :=
    Client.login_click rpID origin approve_registration
      Demo.strict_authentication Demo.sign Demo.parse_one e1 e2 e3 "alice"
      Demo.after_registration in
  live_user 2000 "alice" alice1 (Client.server Demo.after_registration) /\
  Client.page w'
  = {| Client.statusMessage :=
         Some {| Client.text := Client.Plain "Login successful!";
                 Client.type := "success" |};
       Client.view := Client.LoggedInSection "alice" |} /\
  Client.jar w' = Some "alice".
Proof.
  intros e1 e2 e3 w'.
  assert (Lu : live_user (now e1) "alice" alice1
                 (Client.server Demo.after_registration))
    by (split; reflexivity).
  assert (Hc : freshChallenge e1 <> "") by discriminate.
  assert (Ht : now e2 - now e1 <= 300000) by (simpl; lia).
  assert (Hl : now e3 - now e2 <= 86400000) by (simpl; lia).
  destruct (X20_login_click_success
              rpID origin approve_registration Demo.strict_authentication
              Demo.sign Demo.parse_one e1 e2 e3 "alice" alice1
              Demo.after_registration (signed "challenge-2") device1 _
              (alice_registered_reachable _) eq_refl Lu Hc Ht eq_refl Hl
              eq_refl eq_refl eq_refl eq_refl)
    as (A & B & _).
  split; [exact Lu|]. split; [exact A | exact B].
Defined.

Lemma X22_witness :
  let e := env 2000 "unused" "challenge-2" in
  let w' :=
    Client.login_click rpID origin approve_registration
      Demo.strict_authentication (fun _ => Throws "NotAllowedError")
      Demo.parse_one e e e "alice" Demo.after_registration in
  Client.statusMessage (Client.page w')
  = Some {| Client.text := Client.Plain "NotAllowedError";
            Client.type := "error" |} /\
  Client.jar w' = None /\
  Client.view (Client.page w') = Client.AuthSection.
Proof.
  intros e w'.
  assert (M : Client.statusMessage (Client.page w')
              = Some {| Client.text := Client.Plain "NotAllowedError";
                        Client.type := "error" |}) by reflexivity.
  assert (N : Client.statusMessage (Client.page w')
              <> Some {| Client.text := Client.Plain "Login successful!";
                         Client.type := "success" |})
    by (rewrite M; discriminate).
  split; [exact M|].
  exact (X22_failed_login_click_keeps_session
           rpID origin approve_registration Demo.strict_authentication
           (fun _ => Throws "NotAllowedError") Demo.parse_one e e e "alice"
           Demo.after_registration N).
Defined.

(** ** Requests in flight: the link with the handlers served one by one *)

Section MapValues.

Context {A B : Type}.
Variable f : A -> B.
Implicit Types (c : LRU.t A) (l : list (LRU.entry A)) (k : string).

Lemma is_key_map_entry k (en : LRU.entry A) :
  LRU.is_key k (InFlight.map_entry f en) = LRU.is_key k en.
Proof. reflexivity. Qed.

Lemma find_map_entry k l :
  find (LRU.is_key k) (map (InFlight.map_entry f) l)
  = option_map (InFlight.map_entry f) (find (LRU.is_key k) l).
Proof.
  induction l as [|a l IH]; simpl; [reflexivity|].
  rewrite is_key_map_entry. destruct (LRU.is_key k a); [reflexivity | exact IH].
Qed.

Lemma remove_map_entry k l :
  LRU.remove k (map (InFlight.map_entry f) l)
  = map (InFlight.map_entry f) (LRU.remove k l).
Proof.
  induction l as [|a l IH]; simpl; [reflexivity|].
  rewrite is_key_map_entry. destruct (LRU.is_key k a); simpl; now rewrite IH.
Qed.

Lemma get_map_values now k c :
  LRU.get now k (InFlight.map_values f c)
  = (option_map f (fst (LRU.get now k c)),
     InFlight.map_values f (snd (LRU.get now k c))).
Proof.
  unfold LRU.get, LRU.peek. cbn [InFlight.map_values LRU.items].
  rewrite find_map_entry.
  destruct (find (LRU.is_key k) (LRU.items c)) as [en|]; simpl; [|reflexivity].
  unfold LRU.isStale. cbn [InFlight.map_values LRU.ttl InFlight.map_entry
                           LRU.start].
  destruct (LRU.ttl c <? now - LRU.start en); simpl.
  - unfold LRU.delete, LRU.with_items, InFlight.map_values. simpl.
    now rewrite remove_map_entry.
  - unfold LRU.with_items, InFlight.map_values. simpl.
    now rewrite remove_map_entry.
Qed.

Lemma has_map_values now k c :
  LRU.has now k (InFlight.map_values f c) = LRU.has now k c.
Proof.
  unfold LRU.has, LRU.peek. cbn [InFlight.map_values LRU.items].
  rewrite find_map_entry.
  destruct (find (LRU.is_key k) (LRU.items c)) as [en|]; reflexivity.
Qed.

Lemma set_map_values now k v c :
  LRU.set now k (f v) (InFlight.map_values f c)
  = InFlight.map_values f (LRU.set now k v c).
Proof.
  unfold LRU.set, LRU.with_items, InFlight.map_values. simpl.
  now rewrite remove_map_entry, firstn_map.
Qed.

End MapValues.

Lemma map_values_ext {A B : Type} (f g : A -> B) (c : LRU.t A) :
  (forall en, In en (LRU.items c) -> f (LRU.value en) = g (LRU.value en)) ->
  InFlight.map_values f c = InFlight.map_values g c.
Proof.
  intros H. unfold InFlight.map_values. f_equal.
  apply map_ext_in. intros en Hin. unfold InFlight.map_entry.
  now rewrite (H en Hin).
Qed.

(** What [set] writes depends on the old entries under other keys only. *)
Lemma set_map_values_other {A B : Type} (f g : A -> B) now k v (c : LRU.t A) :
  (forall en, In en (LRU.items c) -> LRU.key en <> k ->
              f (LRU.value en) = g (LRU.value en)) ->
  LRU.set now k v (InFlight.map_values f c)
  = LRU.set now k v (InFlight.map_values g c).
Proof.
  intros H. unfold LRU.set, LRU.with_items, InFlight.map_values. simpl.
  rewrite !remove_map_entry. do 3 f_equal.
  apply map_ext_in. intros en Hin. apply filter_In in Hin.
  destruct Hin as [Hin Hk]. apply negb_true_iff, is_key_false in Hk.
  unfold InFlight.map_entry. now rewrite (H en Hin Hk).
Qed.

Lemma items_get_incl {V : Type} now k (c : LRU.t V) :
  incl (LRU.items (snd (LRU.get now k c))) (LRU.items c).
Proof.
  unfold LRU.get. destruct (LRU.peek k c) as [en|] eqn:P; simpl;
    [|apply incl_refl].
  destruct (LRU.isStale now c en); simpl.
  - apply remove_incl.
  - apply find_is_key in P. destruct P as [_ I].
    intros x [<-|Hx]; [exact I | now apply (remove_incl k)].
Qed.

Lemma items_set_cases {V : Type} now k (v : V) (c : LRU.t V) en :
  In en (LRU.items (LRU.set now k v c)) ->
  en = {| LRU.key := k; LRU.value := v; LRU.start := now |} \/
  (In en (LRU.items c) /\ LRU.key en <> k).
Proof.
  unfold LRU.set. simpl. intros [<-|H]; [now left|right].
  apply firstn_incl in H. apply filter_In in H. destruct H as [Hin Hk].
  apply negb_true_iff, is_key_false in Hk. auto.
Qed.

Lemma put_same r v h : InFlight.put r v h r = v.
Proof. unfold InFlight.put. now rewrite Nat.eqb_refl. Qed.

Lemma put_other r r' v h : r' <> r -> InFlight.put r v h r' = h r'.
Proof.
  intros H. unfold InFlight.put.
  destruct (Nat.eqb_spec r' r); [contradiction | reflexivity].
Qed.

Lemma well_formed_get now k st :
  InFlight.well_formed st ->
  InFlight.well_formed
    (InFlight.with_userRefs st (snd (LRU.get now k (InFlight.userRefs st)))).
Proof.
  intros W en Hin. cbn in *. apply (items_get_incl now k) in Hin. now apply W.
Qed.

Lemma well_formed_challenges st cc :
  InFlight.well_formed st ->
  InFlight.well_formed (InFlight.with_challenges st cc).
Proof. intros W en Hin. now apply W. Qed.

Lemma get_hit_well_formed now u st r uc :
  InFlight.well_formed st ->
  LRU.get now u (InFlight.userRefs st) = (Some r, uc) ->
  username (InFlight.objects st r) = u /\ (r < InFlight.fresh st)%nat.
Proof.
  intros W G. apply get_Some in G. destruct G as (en & P & Hv & Hk & _).
  apply find_is_key in P. destruct P as [_ I].
  subst r u. now apply W.
Qed.

(** Writing a changed user object back under its own name. *)
Lemma commit_view now u r user' cc st :
  InFlight.well_formed st ->
  username (InFlight.objects st r) = u ->
  (r < InFlight.fresh st)%nat ->
  username user' = u ->
  let st' :=
    {| InFlight.objects := InFlight.put r user' (InFlight.objects st);
       InFlight.fresh := InFlight.fresh st;
       InFlight.userRefs := LRU.set now u r (InFlight.userRefs st);
       InFlight.challenges := cc |} in
  InFlight.view st'
  = {| userCache := LRU.set now u user' (userCache (InFlight.view st));
       challengeCache := cc |} /\
  InFlight.well_formed st'.
Proof.
  intros W Hr Hlt Hu st'. split.
  - unfold InFlight.view. subst st'. cbn [InFlight.objects InFlight.userRefs
                                          InFlight.challenges userCache].
    f_equal. rewrite <- set_map_values, put_same.
    apply set_map_values_other. intros en Hin Hk. apply put_other.
    intros Heq. destruct (W en Hin) as [Hn _]. rewrite Heq in Hn. congruence.
  - intros en Hin. subst st'. cbn in *.
    apply items_set_cases in Hin. destruct Hin as [-> | [Hin Hk]]; cbn.
    + rewrite put_same. auto.
    + destruct (W en Hin) as [Hn Hf]. split; [|exact Hf].
      rewrite put_other; [exact Hn|]. intros Heq. rewrite Heq in Hn. congruence.
Qed.

(** Creating a user object. *)
Lemma create_view e u st :
  InFlight.well_formed st ->
  let user := {| id := randomUUID e; username := u; devices := [] |} in
  fst (InFlight.createUser e u st) = InFlight.fresh st /\
  InFlight.objects (snd (InFlight.createUser e u st)) (InFlight.fresh st) = user /\
  InFlight.view (snd (InFlight.createUser e u st))
  = {| userCache := LRU.set (now e) u user (userCache (InFlight.view st));
       challengeCache := InFlight.challenges st |} /\
  InFlight.well_formed (snd (InFlight.createUser e u st)).
Proof.
  intros W user. unfold InFlight.createUser. cbn [fst snd InFlight.objects].
  split; [reflexivity|]. split; [apply put_same|]. split.
  - unfold InFlight.view. cbn [InFlight.objects InFlight.userRefs
                               InFlight.challenges userCache].
    f_equal. rewrite <- set_map_values, put_same.
    apply set_map_values_other. intros en Hin _. apply put_other.
    destruct (W en Hin) as [_ Hf]. lia.
  - intros en Hin. cbn in *.
    apply items_set_cases in Hin. destruct Hin as [-> | [Hin Hk]]; cbn.
    + rewrite put_same. split; [reflexivity | lia].
    + destruct (W en Hin) as [Hn Hf]. split; [|lia].
      rewrite put_other; [exact Hn | lia].
Qed.

Lemma view_with_challenges st cc :
  InFlight.view (InFlight.with_challenges st cc)
  = {| userCache := userCache (InFlight.view st); challengeCache := cc |}.
Proof. reflexivity. Qed.

Lemma view_with_userRefs st uc :
  InFlight.view (InFlight.with_userRefs st uc)
  = {| userCache := InFlight.map_values (InFlight.objects st) uc;
       challengeCache := InFlight.challenges st |}.
Proof. reflexivity. Qed.

Section Refinement.

Variables rpID origin : string.
Variable verifyRegistrationResponse :
  ClientResponse -> string -> string -> string ->
  outcome VerifiedRegistrationResponse.
Variable verifyAuthenticationResponse :
  ClientResponse -> string -> string -> string -> WebAuthnCredential ->
  outcome VerifiedAuthenticationResponse.

Local Abbreviation serve :=
  (InFlight.serve rpID origin verifyRegistrationResponse
     verifyAuthenticationResponse).
Local Abbreviation completes :=
  (InFlight.completes rpID origin verifyRegistrationResponse
     verifyAuthenticationResponse).
Local Abbreviation handle :=
  (handle rpID origin verifyRegistrationResponse
     verifyAuthenticationResponse).

Lemma serve_register_options e name st :
  InFlight.well_formed st ->
  InFlight.agree (serve e (PostRegisterOptions name) st)
    (handle e (PostRegisterOptions name) (InFlight.view st)).
Proof.
  intros W. unfold InFlight.agree, InFlight.serve. cbn [InFlight.arrives handle].
  unfold InFlight.register_options_arrives, register_options.
  destruct name as [u|]; [|cbn; auto].
  destruct (truthy (Some u)); [|cbn [fst snd]; auto].
  cbn [getUserByUsername InFlight.getUserByUsername InFlight.view userCache].
  rewrite get_map_values.
  pose proof (well_formed_get (now e) u st W) as W1.
  destruct (LRU.get (now e) u (InFlight.userRefs st)) as [[r|] uc] eqn:G;
    cbn [fst snd option_map] in *.
  - split; [reflexivity | split; [reflexivity|]].
    now apply well_formed_challenges.
  - destruct (create_view e u _ W1) as (Hr & Ho & Hv & Hw).
    unfold createUser.
    destruct (InFlight.createUser e u (InFlight.with_userRefs st uc))
      as [r st1] eqn:C.
    cbn [fst snd] in *. subst r. cbn [InFlight.completes].
    rewrite Ho. cbv zeta. cbn [fst snd].
    assert (InFlight.challenges st1 = InFlight.challenges st) as Hc
        by exact (f_equal challengeCache Hv).
    split; [|split].
    + rewrite view_with_challenges, Hv, Hc. reflexivity.
    + reflexivity.
    + now apply well_formed_challenges.
Qed.

Lemma serve_login_options e name st :
  InFlight.well_formed st ->
  InFlight.agree (serve e (PostLoginOptions name) st)
    (handle e (PostLoginOptions name) (InFlight.view st)).
Proof.
  intros W. unfold InFlight.agree, InFlight.serve. cbn [InFlight.arrives handle].
  unfold InFlight.login_options_arrives, login_options.
  destruct name as [u|]; [|cbn; auto].
  cbn [getUserByUsername InFlight.getUserByUsername InFlight.view userCache].
  rewrite get_map_values.
  pose proof (well_formed_get (now e) u st W) as W1.
  destruct (LRU.get (now e) u (InFlight.userRefs st)) as [[r|] uc] eqn:G;
    cbn [fst snd option_map] in *.
  - split; [reflexivity | split; [reflexivity|]].
    now apply well_formed_challenges.
  - split; [reflexivity | split; [reflexivity | exact W1]].
Qed.

Lemma serve_register_verify e name response st :
  InFlight.well_formed st ->
  InFlight.agree (serve e (PostRegisterVerify name response) st)
    (handle e (PostRegisterVerify name response) (InFlight.view st)).
Proof.
  intros W. unfold InFlight.agree, InFlight.serve. cbn [InFlight.arrives handle].
  unfold InFlight.register_verify_arrives, register_verify.
  destruct name as [u|]; [|cbn; auto].
  cbn [getUserByUsername InFlight.getUserByUsername InFlight.view userCache
       challengeCache].
  rewrite get_map_values.
  pose proof (well_formed_get (now e) u st W) as W1.
  destruct (LRU.get (now e) u (InFlight.userRefs st)) as [[r|] uc] eqn:G;
    cbn [fst snd option_map] in *;
    [|split; [reflexivity | split; [reflexivity | exact W1]]].
  destruct (get_hit_well_formed _ _ _ _ _ W G) as [Hn Hf].
  destruct (LRU.get (now e) (id (InFlight.objects st r)) (InFlight.challenges st))
    as [found cc].
  pose proof (well_formed_challenges _ cc W1) as W2.
  destruct (truthy found);
    [|split; [reflexivity | split; [reflexivity | exact W2]]].
  destruct found as [c|];
    [|split; [reflexivity | split; [reflexivity | exact W2]]].
  cbn [InFlight.completes].
  destruct (verifyRegistrationResponse response c origin rpID) as [m|v];
    [split; [reflexivity | split; [reflexivity | exact W2]]|].
  destruct (reg_verified v);
    [|split; [reflexivity | split; [reflexivity | exact W2]]].
  destruct (registrationInfo v) as [cr|];
    [|split; [reflexivity | split; [reflexivity | exact W2]]].
  cbv zeta. cbn [fst snd].
  destruct (commit_view (now e) u r
              (with_devices (InFlight.objects st r)
                 (devices (InFlight.objects st r) ++ [new_device cr response]))
              (LRU.delete (id (InFlight.objects st r)) cc)
              (InFlight.with_challenges (InFlight.with_userRefs st uc) cc)
              W2 Hn Hf Hn) as [Hv Hw].
  split; [exact Hv | split; [reflexivity | exact Hw]].
Qed.

Lemma serve_login_verify e name response st :
  InFlight.well_formed st ->
  InFlight.agree (serve e (PostLoginVerify name response) st)
    (handle e (PostLoginVerify name response) (InFlight.view st)).
Proof.
  intros W. unfold InFlight.agree, InFlight.serve. cbn [InFlight.arrives handle].
  unfold InFlight.login_verify_arrives, login_verify.
  destruct name as [u|]; [|cbn; auto].
  cbn [getUserByUsername InFlight.getUserByUsername InFlight.view userCache
       challengeCache].
  rewrite get_map_values.
  pose proof (well_formed_get (now e) u st W) as W1.
  destruct (LRU.get (now e) u (InFlight.userRefs st)) as [[r|] uc] eqn:G;
    cbn [fst snd option_map] in *;
    [|split; [reflexivity | split; [reflexivity | exact W1]]].
  destruct (get_hit_well_formed _ _ _ _ _ W G) as [Hn Hf].
  destruct (LRU.get (now e) (id (InFlight.objects st r)) (InFlight.challenges st))
    as [found cc].
  pose proof (well_formed_challenges _ cc W1) as W2.
  destruct (truthy found);
    [|split; [reflexivity | split; [reflexivity | exact W2]]].
  destruct found as [c|];
    [|split; [reflexivity | split; [reflexivity | exact W2]]].
  destruct (find (has_credentialID (resp_id response))
              (devices (InFlight.objects st r))) as [d|] eqn:F;
    [|split; [reflexivity | split; [reflexivity | exact W2]]].
  cbn [InFlight.completes].
  destruct (verifyAuthenticationResponse response c origin rpID
              (credential_of d)) as [m|v];
    [split; [reflexivity | split; [reflexivity | exact W2]]|].
  destruct (auth_verified v);
    [|split; [reflexivity | split; [reflexivity | exact W2]]].
  cbv zeta. cbn [InFlight.objects InFlight.with_challenges
                 InFlight.with_userRefs]. rewrite F. cbn [fst snd].
  destruct (commit_view (now e) u r
              (with_devices (InFlight.objects st r)
                 (set_counter (resp_id response) (newCounter v)
                    (devices (InFlight.objects st r))))
              (LRU.delete (id (InFlight.objects st r)) cc)
              (InFlight.with_challenges (InFlight.with_userRefs st uc) cc)
              W2 Hn Hf Hn) as [Hv Hw].
  split; [exact Hv | split; [reflexivity | exact Hw]].
Qed.

(** A request served with nothing in between acts on the store as the
    handler of the first part acts on the state the store is seen as. *)
Lemma serve_agrees e r st :
  InFlight.well_formed st ->
  InFlight.agree (serve e r st) (handle e r (InFlight.view st)).
Proof.
  intros W. destruct r as [name|name response|name|name response| |jar].
  - now apply serve_register_options.
  - now apply serve_register_verify.
  - now apply serve_login_options.
  - now apply serve_login_verify.
  - unfold InFlight.agree. cbn. auto.
  - unfold InFlight.agree, InFlight.serve. cbn [InFlight.arrives handle fst snd].
    unfold InFlight.me, me. destruct jar as [u|]; [|cbn; auto].
    cbn [InFlight.view userCache]. rewrite has_map_values.
    destruct (truthy (Some u) && LRU.has (now e) u (InFlight.userRefs st));
      cbn; auto.
Qed.

Lemma boot_well_formed : InFlight.well_formed InFlight.boot.
Proof. intros en []. Qed.

Lemma boot_view : InFlight.view InFlight.boot = initial.
Proof. reflexivity. Qed.

End Refinement.

(** ** Requests in flight: what every interleaving keeps *)

Lemma find_credential_in cid l :
  find (has_credentialID cid) l <> None <-> In cid (map credentialID l).
Proof.
  induction l as [|d l IH]; simpl; [tauto|].
  unfold has_credentialID at 1.
  destruct (String.eqb_spec (credentialID d) cid) as [E|E].
  - split; [auto | discriminate].
  - rewrite IH. tauto.
Qed.

Lemma find_credential_id cid l d :
  find (has_credentialID cid) l = Some d -> credentialID d = cid.
Proof.
  intros H. apply find_some in H. destruct H as [_ H].
  now apply String.eqb_eq in H.
Qed.

Lemma extends_refl st : InFlight.extends st st.
Proof. split; [lia | auto]. Qed.

Lemma extends_same_objects st st' :
  InFlight.objects st' = InFlight.objects st ->
  InFlight.fresh st' = InFlight.fresh st ->
  InFlight.extends st st'.
Proof. intros Ho Hf. split; [lia|]. intros r _. rewrite Ho. auto. Qed.

Lemma extends_put st r user' uc cc :
  id user' = id (InFlight.objects st r) ->
  username user' = username (InFlight.objects st r) ->
  (forall cid,
      In cid (map credentialID (devices (InFlight.objects st r))) ->
      In cid (map credentialID (devices user'))) ->
  InFlight.extends st
    {| InFlight.objects := InFlight.put r user' (InFlight.objects st);
       InFlight.fresh := InFlight.fresh st;
       InFlight.userRefs := uc;
       InFlight.challenges := cc |}.
Proof.
  intros Hi Hu Hd. split; [cbn; lia|]. intros r' _. cbn.
  destruct (Nat.eq_dec r' r) as [->|Hne].
  - rewrite put_same. repeat split; auto.
    intros cid. rewrite !find_credential_in. apply Hd.
  - rewrite put_other by exact Hne. auto.
Qed.

Lemma pending_ok_extends st st' p :
  InFlight.extends st st' ->
  InFlight.pending_ok st p -> InFlight.pending_ok st' p.
Proof.
  intros [Hf He] [Hlt Hp]. split; [lia|].
  destruct p as [r seen|r seen|u r response c|u r response c cr];
    cbn in *; auto.
  - destruct (He r Hlt) as (_ & Hu & _). congruence.
  - destruct (He r Hlt) as (_ & Hu & Hd). destruct Hp as [Hn Hfind].
    split; [congruence | now apply Hd].
Qed.

Section Interleavings.

Variables rpID origin : string.
Variable verifyRegistrationResponse :
  ClientResponse -> string -> string -> string ->
  outcome VerifiedRegistrationResponse.
Variable verifyAuthenticationResponse :
  ClientResponse -> string -> string -> string -> WebAuthnCredential ->
  outcome VerifiedAuthenticationResponse.

Local Abbreviation arrives :=
  (InFlight.arrives).
Local Abbreviation completes :=
  (InFlight.completes rpID origin verifyRegistrationResponse
     verifyAuthenticationResponse).
Local Abbreviation react :=
  (InFlight.react rpID origin verifyRegistrationResponse
     verifyAuthenticationResponse).
Local Abbreviation reachable :=
  (InFlight.reachable rpID origin verifyRegistrationResponse
     verifyAuthenticationResponse).

(** A request that arrives leaves a well-formed store, to which the old one
    extends, and if it waits, it holds what a waiting handler relies on. *)
Lemma arrives_sound e r st :
  InFlight.well_formed st ->
  InFlight.well_formed (fst (arrives e r st)) /\
  InFlight.extends st (fst (arrives e r st)) /\
  forall p, snd (arrives e r st) = InFlight.Waiting p ->
            InFlight.pending_ok (fst (arrives e r st)) p.
Proof.
  intros W. destruct r as [name|name response|name|name response| |jar];
    cbn [InFlight.arrives].
  - unfold InFlight.register_options_arrives.
    destruct name as [u|];
      [|cbn; split; [intros en Hin; now apply W|]; split;
        [now apply extends_same_objects | discriminate]].
    destruct (truthy (Some u));
      [|cbn; split; [intros en Hin; now apply W|]; split;
        [now apply extends_same_objects | discriminate]].
    cbn [InFlight.getUserByUsername].
    pose proof (well_formed_get (now e) u st W) as W1.
    destruct (LRU.get (now e) u (InFlight.userRefs st)) as [[r|] uc] eqn:G;
      cbn [fst snd] in *.
    + destruct (get_hit_well_formed _ _ _ _ _ W G) as [Hn Hf].
      split; [exact W1|]. split; [now apply extends_same_objects|].
      intros p Hp. inversion Hp; subst. split; cbn; auto.
    + destruct (create_view e u _ W1) as (Hr & Ho & Hv & Hw).
      destruct (InFlight.createUser e u (InFlight.with_userRefs st uc))
        as [r st1] eqn:C.
      cbn [fst snd] in *. split; [exact Hw|]. split.
      * unfold InFlight.createUser in C. inversion C; subst. split; [cbn; lia|].
        intros r' Hlt. cbn in *. rewrite put_other by lia. auto.
      * intros p Hp. inversion Hp; subst. split; cbn; [|exact I].
        unfold InFlight.createUser in C. inversion C; subst. cbn. lia.
  - unfold InFlight.register_verify_arrives.
    destruct name as [u|];
      [|cbn; split; [intros en Hin; now apply W|]; split;
        [now apply extends_same_objects | discriminate]].
    cbn [InFlight.getUserByUsername].
    pose proof (well_formed_get (now e) u st W) as W1.
    destruct (LRU.get (now e) u (InFlight.userRefs st)) as [[r|] uc] eqn:G;
      cbn [fst snd] in *;
      [|split; [exact W1|]; split;
        [now apply extends_same_objects | discriminate]].
    destruct (get_hit_well_formed _ _ _ _ _ W G) as [Hn Hf].
    destruct (LRU.get (now e) (id (InFlight.objects st r))
                (InFlight.challenges st)) as [found cc].
    pose proof (well_formed_challenges _ cc W1) as W2.
    destruct (truthy found), found as [c|]; cbn [fst snd];
      (split; [exact W2|]; split; [now apply extends_same_objects|]);
      try discriminate.
    intros p Hp. inversion Hp; subst. split; cbn; auto.
  - unfold InFlight.login_options_arrives.
    destruct name as [u|];
      [|cbn; split; [intros en Hin; now apply W|]; split;
        [now apply extends_same_objects | discriminate]].
    cbn [InFlight.getUserByUsername].
    pose proof (well_formed_get (now e) u st W) as W1.
    destruct (LRU.get (now e) u (InFlight.userRefs st)) as [[r|] uc] eqn:G;
      cbn [fst snd] in *;
      (split; [exact W1|]; split; [now apply extends_same_objects|]);
      try discriminate.
    destruct (get_hit_well_formed _ _ _ _ _ W G) as [Hn Hf].
    intros p Hp. inversion Hp; subst. split; cbn; auto.
  - unfold InFlight.login_verify_arrives.
    destruct name as [u|];
      [|cbn; split; [intros en Hin; now apply W|]; split;
        [now apply extends_same_objects | discriminate]].
    cbn [InFlight.getUserByUsername].
    pose proof (well_formed_get (now e) u st W) as W1.
    destruct (LRU.get (now e) u (InFlight.userRefs st)) as [[r|] uc] eqn:G;
      cbn [fst snd] in *;
      [|split; [exact W1|]; split;
        [now apply extends_same_objects | discriminate]].
    destruct (get_hit_well_formed _ _ _ _ _ W G) as [Hn Hf].
    destruct (LRU.get (now e) (id (InFlight.objects st r))
                (InFlight.challenges st)) as [found cc].
    pose proof (well_formed_challenges _ cc W1) as W2.
    destruct (truthy found), found as [c|]; cbn [fst snd];
      try (split; [exact W2|]; split; [now apply extends_same_objects|];
           discriminate).
    destruct (find (has_credentialID (resp_id response))
                (devices (InFlight.objects st r))) as [d|] eqn:F;
      cbn [fst snd];
      (split; [exact W2|]; split; [now apply extends_same_objects|]);
      try discriminate.
    intros p Hp. inversion Hp; subst. split; cbn; auto.
    split; [reflexivity|]. rewrite F. discriminate.
  - cbn. split; [exact W|]. split; [apply extends_refl | discriminate].
  - cbn. split; [exact W|]. split; [apply extends_refl | discriminate].
Qed.

(** A waiting handler that resumes leaves a well-formed store, to which the
    old one extends, and it answers: the device [/login/verify] looks up
    again is there. *)
Lemma completes_sound e p st :
  InFlight.well_formed st ->
  InFlight.pending_ok st p ->
  InFlight.well_formed (fst (completes e p st)) /\
  InFlight.extends st (fst (completes e p st)) /\
  exists resp, snd (completes e p st) = Returns resp.
Proof.
  intros W [Hlt Hp].
  destruct p as [r seen|r seen|u r response c|u r response c cr];
    cbn [InFlight.completes InFlight.pending_user] in *.
  - cbn [fst snd]. split; [now apply well_formed_challenges|].
    split; [now apply extends_same_objects | eauto].
  - cbn [fst snd]. split; [now apply well_formed_challenges|].
    split; [now apply extends_same_objects | eauto].
  - destruct (verifyRegistrationResponse response c origin rpID) as [m|v];
      [cbn; eauto using extends_refl|].
    destruct (reg_verified v); [|cbn; eauto using extends_refl].
    destruct (registrationInfo v) as [credential|];
      [|cbn; eauto using extends_refl].
    cbv zeta. cbn [fst snd]. split; [|split; [|eauto]].
    + now apply (commit_view (now e) u r _ _ st W Hp Hlt).
    + apply extends_put; cbn; auto.
      intros cid H. rewrite map_app. apply in_or_app. now left.
  - destruct Hp as [Hn Hfind].
    destruct (verifyAuthenticationResponse response c origin rpID cr) as [m|v];
      [cbn; eauto using extends_refl|].
    destruct (auth_verified v); [|cbn; eauto using extends_refl].
    cbv zeta.
    destruct (find (has_credentialID (resp_id response))
                (devices (InFlight.objects st r))) as [d|];
      [|contradiction].
    cbn [fst snd]. split; [|split; [|eauto]].
    + now apply (commit_view (now e) u r _ _ st W Hn Hlt).
    + apply extends_put; cbn; auto.
      intros cid H. now rewrite map_credentialID_set_counter.
Qed.

Lemma nth_error_remove_in {A : Type} n (l : list A) x :
  In x (firstn n l ++ skipn (S n) l) -> In x l.
Proof.
  intros H. apply in_app_or in H. destruct H as [H|H].
  - now apply firstn_incl in H.
  - rewrite <- (firstn_skipn (S n) l). apply in_or_app. now right.
Qed.

Lemma react_sound ev s : InFlight.sound s -> InFlight.sound (fst (react ev s)).
Proof.
  intros [W P]. destruct ev as [e r|e n]; cbn [InFlight.react].
  - destruct (arrives_sound e r (InFlight.store s) W) as (W1 & E & Hp).
    destruct (arrives e r (InFlight.store s)) as [st [resp|p]] eqn:A;
      cbn [fst snd] in *; split; cbn; auto.
    + eapply Forall_impl; [|exact P]. intros q. now apply pending_ok_extends.
    + apply Forall_app. split.
      * eapply Forall_impl; [|exact P]. intros q. now apply pending_ok_extends.
      * constructor; [now apply Hp | constructor].
  - destruct (nth_error (InFlight.inflight s) n) as [p|] eqn:N;
      [|split; assumption].
    rewrite Forall_forall in P.
    assert (InFlight.pending_ok (InFlight.store s) p) as Hp
        by (apply P; eapply nth_error_In; exact N).
    destruct (completes_sound e p (InFlight.store s) W Hp) as (W1 & E & _).
    destruct (completes e p (InFlight.store s)) as [st out].
    cbn [fst snd] in *. split; cbn; [exact W1|].
    apply Forall_forall. intros q Hq. apply nth_error_remove_in in Hq.
    apply pending_ok_extends with (st := InFlight.store s); auto.
Qed.

(** In whatever order requests arrive and awaited calls return, the user
    cache refers to objects that carry their key as username, and every
    waiting handler will answer when it resumes. *)
Lemma reachable_sound s : reachable s -> InFlight.sound s.
Proof.
  induction 1 as [|s ev _ IH].
  - split; [intros en [] | constructor].
  - now apply react_sound.
Qed.

Lemma reachable_completion_answers s e n p :
  reachable s ->
  nth_error (InFlight.inflight s) n = Some p ->
  exists resp, snd (completes e p (InFlight.store s)) = Returns resp.
Proof.
  intros R N. destruct (reachable_sound s R) as [W P].
  rewrite Forall_forall in P.
  assert (InFlight.pending_ok (InFlight.store s) p) as Hp
      by (apply P; eapply nth_error_In; exact N).
  now destruct (completes_sound e p (InFlight.store s) W Hp) as (_ & _ & H).
Qed.

End Interleavings.

(** ** Requests in flight: the challenge *)










Section InFlightChallenge.

Variables rpID origin : string.
Variable verifyRegistrationResponse :
  ClientResponse -> string -> string -> string ->
  outcome VerifiedRegistrationResponse.
Variable verifyAuthenticationResponse :
  ClientResponse -> string -> string -> string -> WebAuthnCredential ->
  outcome VerifiedAuthenticationResponse.

Local Abbreviation completes :=
  (InFlight.completes rpID origin verifyRegistrationResponse
     verifyAuthenticationResponse).




End InFlightChallenge.

Section InFlightVerification.

Variables rpID origin : string.
Variable verifyRegistrationResponse :
  ClientResponse -> string -> string -> string ->
  outcome VerifiedRegistrationResponse.
Variable verifyAuthenticationResponse :
  ClientResponse -> string -> string -> string -> WebAuthnCredential ->
  outcome VerifiedAuthenticationResponse.

Local Abbreviation completes :=
  (InFlight.completes rpID origin verifyRegistrationResponse
     verifyAuthenticationResponse).
Local Abbreviation run :=
  (InFlight.run rpID origin verifyRegistrationResponse
     verifyAuthenticationResponse).
Local Abbreviation reachable :=
  (InFlight.reachable rpID origin verifyRegistrationResponse
     verifyAuthenticationResponse).

Lemma reachable_run evs s : reachable s -> reachable (fst (run evs s)).
Proof.
  revert s. induction evs as [|ev evs IH]; intros s R; [exact R|].
  cbn [InFlight.run].
  pose proof (InFlight.reachable_react _ _ _ _ s ev R) as R1.
  destruct (InFlight.react rpID origin verifyRegistrationResponse
              verifyAuthenticationResponse ev s) as [s1 out].
  specialize (IH s1 R1).
  destruct (run evs s1) as [s2 outs]. exact IH.
Qed.


End InFlightVerification.

Section InFlightCounter.

Variables rpID origin : string.
Variable verifyRegistrationResponse :
  ClientResponse -> string -> string -> string ->
  outcome VerifiedRegistrationResponse.
Variable verifyAuthenticationResponse :
  ClientResponse -> string -> string -> string -> WebAuthnCredential ->
  outcome VerifiedAuthenticationResponse.

Local Abbreviation completes :=
  (InFlight.completes rpID origin verifyRegistrationResponse
     verifyAuthenticationResponse).

(** What the specification asks of the Ceremony Verifier: a verified result
    never carries a counter below the stored counter of the credential it
    was given. *)
Hypothesis verifier_checks_counter :
  forall response c o r credential v,
    verifyAuthenticationResponse response c o r credential = Returns v ->
    auth_verified v = true ->
    cred_counter credential <= newCounter v.

(** C3, as the code has it.  A [/login/verify] request that waits for the
    verifier has found, among the user's devices, the first one [d] whose
    credential id is the response's, and hands the verifier that device's
    stored counter.  When the verifier has verified and the handler
    resumes, it answers [{verified: true}], sets the cookie, and writes the
    verifier's new counter into the first device [d'] with the response's
    id that the user object has by then, leaving every other field and
    every other device alone.  The new counter is not below the counter
    read on arrival; so if the counter stored by then is not above the one
    read on arrival, no stored counter goes down and the device's counter
    is afterwards the largest of its previous value and the new one. *)
Theorem C3_counter_written_when_login_completes :
  forall e u response st st1 p,
    InFlight.login_verify_arrives e (Some u) response st
    = (st1, InFlight.Waiting p) ->
    exists r c d,
      p = InFlight.AuthenticationPending u r response c (credential_of d) /\
      find (has_credentialID (resp_id response))
        (devices (InFlight.objects st r)) = Some d /\
      credentialID d = resp_id response /\
      forall e' st' d' v,
        verifyAuthenticationResponse response c origin rpID (credential_of d)
        = Returns v ->
        auth_verified v = true ->
        find (has_credentialID (resp_id response))
          (devices (InFlight.objects st' r)) = Some d' ->
        let before := devices (InFlight.objects st' r) in
        let out := completes e' p st' in
        let after := devices (InFlight.objects (fst out) r) in
        snd out
        = Returns {| status := 200;
                     body := VerifiedBody true;
                     cookie := CookieSet u |} /\
        InFlight.stored_ref u (fst out) = Some r /\
        after = set_counter (resp_id response) (newCounter v) before /\
        find (has_credentialID (resp_id response)) after
        = Some (with_counter d' (newCounter v)) /\
        credentialID d' = resp_id response /\
        counter d <= newCounter v /\
        (counter d' <= counter d ->
         Forall2 counter_advanced before after /\
         newCounter v = Z.max (counter d') (newCounter v)).
Proof.
  intros e u response st st1 p H.
  unfold InFlight.login_verify_arrives in H.
  cbn [InFlight.getUserByUsername] in H.
  destruct (LRU.get (now e) u (InFlight.userRefs st)) as [[r|] uc];
    [|discriminate].
  destruct (LRU.get (now e) (id (InFlight.objects st r))
              (InFlight.challenges st)) as [[c|] cc];
    [|cbn in H; discriminate].
  destruct (truthy (Some c)); [|discriminate].
  destruct (find (has_credentialID (resp_id response))
              (devices (InFlight.objects st r))) as [d|] eqn:F;
    [|discriminate].
  inversion H; subst st1 p. exists r, c, d.
  split; [reflexivity|]. split; [exact F|].
  split; [now apply find_credential_id
                with (l := devices (InFlight.objects st r))|].
  intros e' st' d' v Hv Ht F' before out after. subst before out after.
  pose proof (verifier_checks_counter _ _ _ _ _ _ Hv Ht) as Hle.
  cbn [credential_of cred_counter] in Hle.
  cbn [InFlight.completes]. rewrite Hv, Ht. cbv zeta. rewrite F'.
  cbn [fst snd InFlight.objects]. rewrite put_same. cbn [with_devices devices].
  split; [reflexivity|]. split.
  { unfold InFlight.stored_ref. cbn [InFlight.userRefs].
    now rewrite peek_set_same. }
  split; [reflexivity|].
  split; [now apply set_counter_find|].
  split; [now apply find_credential_id
                with (l := devices (InFlight.objects st' r))|].
  split; [exact Hle|].
  intros Hd. split; [|lia].
  apply set_counter_advances with (d := d'); [exact F' | lia].
Qed.

End InFlightCounter.

(** ** Requests in flight: concrete runs *)

Lemma counting_authentication_checks_counter :
  forall response c o r credential v,
    Demo.counting_authentication response c o r credential = Returns v ->
    auth_verified v = true ->
    cred_counter credential <= newCounter v.
Proof.
  intros response c o r credential v H _.
  unfold Demo.counting_authentication in H.
  destruct (Z.ltb_spec (cred_counter credential)
              (Z.of_nat (String.length (resp_payload response))));
    [|discriminate].
  inversion H; subst. cbn. lia.
Qed.

Lemma asked_reachable :
  InFlight.reachable rpID origin approve_registration
    Demo.counting_authentication Demo.asked.
Proof. apply reachable_run. constructor. Qed.

Lemma ready_reachable :
  InFlight.reachable rpID origin approve_registration
    Demo.counting_authentication Demo.ready.
Proof. apply reachable_run. exact asked_reachable. Qed.

(** Two registration responses for one challenge, both in flight: both are
    answered [{verified: true}], and the credential is stored twice. *)
Lemma two_registrations_on_one_challenge :
  Demo.play Demo.two_registrations Demo.asked
  = (fst (Demo.play Demo.two_registrations Demo.asked),
     [None; None;
      Some (Returns (json (VerifiedBody true)));
      Some (Returns (json (VerifiedBody true)))]) /\
  InFlight.stored_challenge "uuid-alice" (InFlight.store Demo.asked)
  = Some "challenge-1" /\
  Demo.credentials "alice" (fst (Demo.play Demo.two_registrations Demo.asked))
  = Some ["cred-1"; "cred-1"].
Proof. vm_compute. auto. Qed.


(** C3 fails on the code: alice's device D1 is stored with counter 0 when
    two logins with D1 arrive one after the other, the first carrying
    counter 5 and the second counter 3.  Both are checked against the
    stored counter 0 and both are answered [{verified: true}]; when the
    first resumes the stored counter becomes 5, when the second resumes it
    becomes 3. *)
Lemma C3_counterexample :
  let first := Demo.play (firstn 3 Demo.two_logins) Demo.ready in
  let both := Demo.play Demo.two_logins Demo.ready in
  let verified :=
    Returns {| status := 200;
               body := VerifiedBody true;
               cookie := CookieSet "alice" |} in
  (forall response c o r credential v,
      Demo.counting_authentication response c o r credential = Returns v ->
      auth_verified v = true ->
      cred_counter credential <= newCounter v) /\
  InFlight.reachable rpID origin approve_registration
    Demo.counting_authentication (fst both) /\
  Demo.counters "alice" Demo.ready = Some [0] /\
  snd both = [None; None; Some verified; Some verified] /\
  Demo.counters "alice" (fst first) = Some [5] /\
  Demo.counters "alice" (fst both) = Some [3].
Proof.
  cbv zeta. split; [exact counting_authentication_checks_counter|].
  split; [apply reachable_run; exact ready_reachable|].
  vm_compute. auto.
Qed.

Lemma C3_witness :
  let st := InFlight.store Demo.ready in
  let e := env 3000 "unused" "unused" in
  let p :=
    InFlight.AuthenticationPending "alice" 0%nat Demo.counter5 "challenge-2"
      (credential_of device1) in
  (forall response c o r credential v,
      Demo.counting_authentication response c o r credential = Returns v ->
      auth_verified v = true ->
      cred_counter credential <= newCounter v) /\
  InFlight.login_verify_arrives e (Some "alice") Demo.counter5 st
  = (fst (InFlight.login_verify_arrives e (Some "alice") Demo.counter5 st),
     InFlight.Waiting p) /\
  exists d,
    find (has_credentialID "cred-1") (devices (InFlight.objects st 0%nat))
    = Some d /\
    credentialID d = "cred-1".
Proof.
  intros st e p.
  assert (A : InFlight.login_verify_arrives e (Some "alice") Demo.counter5 st
              = (fst (InFlight.login_verify_arrives e (Some "alice")
                        Demo.counter5 st),
                 InFlight.Waiting p)) by (vm_compute; reflexivity).
  split; [exact counting_authentication_checks_counter|].
  split; [exact A|].
  destruct (C3_counter_written_when_login_completes
              rpID origin approve_registration Demo.counting_authentication
              counting_authentication_checks_counter
              e "alice" Demo.counter5 st _ p A)
    as (r & c & d & Hp & F & Hd & _).
  inversion Hp; subst r. exists d. split; [exact F | exact Hd].
Defined.

(** ** Two values on the wire *)

(** The user id that the options for the id "uuid-alice" carry. *)
Lemma userID_of_uuid_alice :
  reg_userID
    (generateRegistrationOptions rpID (env 0 "unused" "challenge-1") alice0)
  = "dXVpZC1hbGljZQ".
Proof. reflexivity. Qed.

(** A user called [j:1] who holds the session cookie is not logged in for
    [/me]: [cookie-parser] hands the handler the number 1. *)
Lemma cookie_j1_is_not_a_session e st :
  req_cookies_username Demo.parse_one (Some "j:1") = CookieOther /\
  snd (me_route Demo.parse_one e (apply_cookie (CookieSet "j:1") None) st)
  = json (MeBody false None).
Proof. split; reflexivity. Qed.

(** ** Served alone is one of the orders *)

Section ServedAlone.

Variables rpID origin : string.
Variable verifyRegistrationResponse :
  ClientResponse -> string -> string -> string ->
  outcome VerifiedRegistrationResponse.
Variable verifyAuthenticationResponse :
  ClientResponse -> string -> string -> string -> WebAuthnCredential ->
  outcome VerifiedAuthenticationResponse.

Local Abbreviation react :=
  (InFlight.react rpID origin verifyRegistrationResponse
     verifyAuthenticationResponse).
Local Abbreviation serve :=
  (InFlight.serve rpID origin verifyRegistrationResponse
     verifyAuthenticationResponse).

(** With no handler waiting, a request that arrives and, if it waits,
    resumes at once is a request served alone, and no handler is waiting
    afterwards. *)
Lemma react_serve e r s :
  InFlight.inflight s = [] ->
  let s1 := fst (react (InFlight.Arrives e r) s) in
  let s2 := fst (react (InFlight.Completes e 0) s1) in
  InFlight.inflight s2 = [] /\
  InFlight.store s2 = fst (serve e r (InFlight.store s)).
Proof.
  intros E. cbv zeta. unfold InFlight.serve. cbn [InFlight.react].
  destruct (InFlight.arrives e r (InFlight.store s)) as [st [resp|p]];
    cbn [fst InFlight.inflight InFlight.store]; rewrite E.
  - cbn. auto.
  - cbn [app nth_error].
    destruct (InFlight.completes rpID origin verifyRegistrationResponse
                verifyAuthenticationResponse e p st) as [st' out].
    cbn. auto.
Qed.

(** Every state the server reaches with its requests served one at a time
    is the store of the server with requests in flight, reached by an order
    in which no handler is waiting at the end. *)
Lemma served_alone_is_an_order st :
  reachable rpID origin verifyRegistrationResponse
    verifyAuthenticationResponse st ->
  exists s,
    InFlight.reachable rpID origin verifyRegistrationResponse
      verifyAuthenticationResponse s /\
    InFlight.inflight s = [] /\
    InFlight.view (InFlight.store s) = st.
Proof.
  induction 1 as [|st e r _ (s & R & E & V)].
  - exists {| InFlight.store := InFlight.boot; InFlight.inflight := [] |}.
    split; [constructor | split; reflexivity].
  - destruct (react_serve e r s E) as [E2 S2]. cbv zeta in *.
    exists (fst (react (InFlight.Completes e 0)
                   (fst (react (InFlight.Arrives e r) s)))).
    split; [do 2 apply InFlight.reachable_react; exact R|].
    split; [exact E2|]. rewrite S2, <- V.
    apply (serve_agrees rpID origin verifyRegistrationResponse
             verifyAuthenticationResponse e r (InFlight.store s)).
    now apply (reachable_sound rpID origin verifyRegistrationResponse
                 verifyAuthenticationResponse s).
Qed.

End ServedAlone.
